(** * A shallow embedding of the GST invoice agent (BUNNY-RANGU/gst-invoice-agent)

    Python numbers are modelled as the language has them: an [int] is a [Z]
    and a [float] an IEEE 754 binary64 number (the Standard Library's
    [SpecFloat], see [PyNum] below), with CPython 3.11's mixed arithmetic,
    comparisons, [round(x, 2)], [sum] and [repr].  Where a module only
    compares numbers that are finite by construction (time stamps, price
    bounds) it keeps exact rationals [Q].  Dictionaries with a fixed set of
    keys are records, optional dictionary keys are [option] fields, and
    raised exceptions are the [Raise] branch of a small error monad. *)

From Stdlib Require Import QArith Qfield Qround ZArith String Ascii Bool Lia Lqa Sorted.
From Stdlib Require Floats.SpecFloat.
From stdpp Require Import base gmap list strings.

Open Scope string_scope.

(* ------------------------------------------------------------------ *)
(** ** Python exceptions and the error monad *)

Inductive exn : Type :=
  | TypeError (msg : string)
  | ValueError (msg : string)
  | KeyError (key : string)
  | IntegrityError (msg : string)
  | OperationalError (msg : string)
  | UnicodeEncodeError (msg : string)
  | JWTError (msg : string)
  | OverflowError (msg : string)
  | ZeroDivisionError (msg : string)
  | RecursionError (msg : string).

Inductive result (A : Type) : Type :=
  | Ok (a : A)
  | Raise (e : exn).
Arguments Ok {A} a.
Arguments Raise {A} e.

Definition bind {A B} (m : result A) (f : A -> result B) : result B :=
  match m with
  | Ok a => f a
  | Raise e => Raise e
  end.

Notation "'let?' x ':=' m 'in' k" := (bind m (fun x => k))
  (at level 200, x name, m at level 100, k at level 200).

Definition is_raise {A} (m : result A) : bool :=
  match m with Raise _ => true | Ok _ => false end.

(* ------------------------------------------------------------------ *)
(** ** Small string helpers (f-strings and [', '.join]) *)

Fixpoint string_of_nat_aux (fuel n : nat) (acc : string) : string :=
  match fuel with
  | O => acc
  | S f =>
      let acc' := String (ascii_of_nat (48 + n mod 10)) acc in
      if Nat.ltb n 10 then acc' else string_of_nat_aux f (n / 10) acc'
  end.

Definition string_of_nat (n : nat) : string := string_of_nat_aux (S n) n "".

(** [sep.join(xs)] *)
Fixpoint join (sep : string) (xs : list string) : string :=
  match xs with
  | [] => ""
  | [x] => x
  | x :: xs' => x ++ sep ++ join sep xs'
  end.

(* ------------------------------------------------------------------ *)
(** ** Rounding a rational half to even *)

Definition round_half_even (x : Q) : Z :=
  let n := Qnum x in
  let d := Zpos (Qden x) in
  let q := (n / d)%Z in
  let r := (n mod d)%Z in
  match Z.compare (2 * r) d with
  | Lt => q
  | Gt => (q + 1)%Z
  | Eq => if Z.even q then q else (q + 1)%Z
  end.

(* ------------------------------------------------------------------ *)
(** ** Python numbers: [int] and [float]

    A [float] is a binary64 number: [SpecFloat]'s [spec_float] with
    53 bits of precision and [emax = 1024]; its operations round to
    nearest, ties to even, as IEEE 754 and CPython do.  An [int] is a [Z].
    An arithmetic operation with a [float] operand converts an [int]
    operand first, which raises [OverflowError] when the rounded value
    would reach [2 ^ 1024].  Comparisons of an [int] with a [float] are
    exact, and every comparison with a NaN is false. *)

Module PyNum.
Import SpecFloat.

Definition prec : Z := 53.
Definition emax : Z := 1024.
Definition float : Type := spec_float.

Definition fadd : float -> float -> float := SFadd prec emax.
Definition fmul : float -> float -> float := SFmul prec emax.
Definition fdiv : float -> float -> float := SFdiv prec emax.

(** The integer [z] as an exact (not necessarily normalised) operand of
    [fdiv]; [fdiv] rounds the exact quotient. *)
Definition exact_Z (z : Z) : float :=
  match z with
  | Z0 => S754_zero false
  | Zpos p => S754_finite false p 0
  | Zneg p => S754_finite true p 0
  end.

(** The double nearest to the rational [x]: the value of a decimal
    literal, e.g. [float_of_Q (1 # 10)] is [0.1]. *)
Definition float_of_Q (x : Q) : float :=
  match Qnum x with
  | Z0 => S754_zero false
  | n => fdiv (exact_Z n) (exact_Z (Zpos (Qden x)))
  end.

(** The exact value of a finite float ([0] for the others). *)
Definition to_Q (f : float) : Q :=
  match f with
  | S754_finite s m e =>
      let n := if s then Zneg m else Zpos m in
      match e with
      | Zpos _ => inject_Z (n * 2 ^ e)
      | Z0 => inject_Z n
      | Zneg p => n # (2 ^ p)
      end
  | _ => 0
  end.

Definition is_nan (f : float) : bool := match f with S754_nan => true | _ => false end.
Definition is_zero (f : float) : bool := match f with S754_zero _ => true | _ => false end.
Definition is_inf (f : float) : bool := match f with S754_infinity _ => true | _ => false end.

(** [float(z)] for an [int] [z]: rounded to nearest, ties to even; CPython
    raises when the rounded value would be [2 ^ 1024], that is from
    [2 ^ 1024 - 2 ^ 970] on (the midpoint between the largest double and
    [2 ^ 1024] rounds up). *)
Definition float_limit : Z := 2 ^ 1024 - 2 ^ 970.

Definition int_to_float (z : Z) : result float :=
  if Z.ltb (Z.abs z) float_limit then Ok (binary_normalize prec emax z 0 false)
  else Raise (OverflowError "int too large to convert to float").

(** A Python number. *)
Inductive num : Type :=
  | NInt (z : Z)
  | NFloat (f : float).

Definition as_float (x : num) : result float :=
  match x with NInt z => int_to_float z | NFloat f => Ok f end.

(** [x + y] *)
Definition num_add (x y : num) : result num :=
  match x, y with
  | NInt a, NInt b => Ok (NInt (a + b))
  | _, _ => let? a := as_float x in let? b := as_float y in Ok (NFloat (fadd a b))
  end.

(** [x * y] *)
Definition num_mul (x y : num) : result num :=
  match x, y with
  | NInt a, NInt b => Ok (NInt (a * b))
  | _, _ => let? a := as_float x in let? b := as_float y in Ok (NFloat (fmul a b))
  end.

(** [x / y]: the quotient of two [int]s is the correctly rounded exact
    quotient; otherwise both operands are converted first. *)
Definition num_truediv (x y : num) : result num :=
  match x, y with
  | NInt a, NInt b =>
      if Z.eqb b 0 then Raise (ZeroDivisionError "division by zero")
      else let f := fdiv (exact_Z a) (exact_Z b) in
           if is_inf f then Raise (OverflowError "integer division result too large for a float")
           else Ok (NFloat f)
  | _, _ =>
      let? a := as_float x in let? b := as_float y in
      if is_zero b then Raise (ZeroDivisionError "float division by zero")
      else Ok (NFloat (fdiv a b))
  end.

(** The exact comparison of an [int] with a [float] ([None]: unordered). *)
Definition compare_Z_float (z : Z) (f : float) : option comparison :=
  match f with
  | S754_nan => None
  | S754_infinity s => Some (if s then Gt else Lt)
  | S754_zero _ => Some (Z.compare z 0)
  | S754_finite _ _ _ => Some (Qcompare (inject_Z z) (to_Q f))
  end.

Definition num_compare (x y : num) : option comparison :=
  match x, y with
  | NInt a, NInt b => Some (Z.compare a b)
  | NFloat f, NFloat g => SFcompare f g
  | NInt a, NFloat g => compare_Z_float a g
  | NFloat f, NInt b => option_map CompOpp (compare_Z_float b f)
  end.

(** [x == y], [x <= y] and [x < y] *)
Definition num_eq (x y : num) : bool :=
  match num_compare x y with Some Eq => true | _ => false end.
Definition num_le (x y : num) : bool :=
  match num_compare x y with Some (Lt | Eq) => true | _ => false end.
Definition num_lt (x y : num) : bool :=
  match num_compare x y with Some Lt => true | _ => false end.

(** [round(f, 2)] for a float: the exact value is rounded half to even at
    two decimals and the decimal read back as the nearest double; a zero
    keeps the sign of [f]; infinities and NaN are returned unchanged. *)
Definition fround2 (f : float) : float :=
  match f with
  | S754_finite s _ _ =>
      match round_half_even (to_Q f * 100) with
      | Z0 => S754_zero s
      | k => fdiv (exact_Z k) (exact_Z 100)
      end
  | _ => f
  end.

(** [round(x, 2)]: an [int] is returned as it is. *)
Definition round2 (x : num) : num :=
  match x with NInt z => NInt z | NFloat f => NFloat (fround2 f) end.

(** [sum(xs)]: [0 + x1 + x2 + ...] from left to right (CPython 3.11). *)
Definition py_sum (xs : list num) : result num :=
  fold_left (fun acc x => let? a := acc in num_add a x) xs (Ok (NInt 0)).

(** *** [repr] of numbers

    [float.__repr__] prints the shortest decimal that reads back as the
    same double (ties between two such decimals go to the even last
    digit), in exponent form when the decimal exponent is below -4 or
    above 15. *)

Definition digit_char (d : Z) : ascii := ascii_of_nat (48 + Z.to_nat d).

Fixpoint digits_go (fuel : nat) (z : Z) (acc : string) : string :=
  match fuel with
  | O => acc
  | S f => let acc' := String (digit_char (z mod 10)) acc in
           if Z.ltb z 10 then acc' else digits_go f (z / 10) acc'
  end.

(** The decimal digits of [z >= 0]. *)
Definition digits_Z (z : Z) : string := digits_go (S (Z.to_nat (Z.log2 z))) z "".

(** [int.__repr__] *)
Definition int_repr (z : Z) : string :=
  if Z.ltb z 0 then "-" ++ digits_Z (- z) else digits_Z z.

Definition pow10Q (k : Z) : Q := if Z.leb 0 k then inject_Z (10 ^ k) else 1 # Z.to_pos (10 ^ (- k)).

(** [10 ^ E <= v < 10 ^ (E + 1)] for [v > 0]. *)
Definition dec_exponent (v : Q) : Z :=
  let e0 := (Z.of_nat (String.length (digits_Z (Qnum v))) -
             Z.of_nat (String.length (digits_Z (Zpos (Qden v)))))%Z in
  if Qle_bool (pow10Q e0) v then e0 else (e0 - 1)%Z.

(** The double nearest to [c * 10 ^ k] ([c > 0]), as [float('<c>e<k>')] reads it. *)
Definition read_decimal (c k : Z) : float :=
  if Z.leb 0 k then binary_normalize prec emax (c * 10 ^ k) 0 false
  else fdiv (exact_Z c) (exact_Z (10 ^ (- k))).

Definition same_float (f g : float) : bool :=
  match f, g with
  | S754_finite s m e, S754_finite s' m' e' => Bool.eqb s s' && Pos.eqb m m' && Z.eqb e e'
  | _, _ => false
  end.

(** The [n]-digit candidates around [v] that read back as [f], the nearest
    first (ties to an even last digit), or [None]. *)
Definition shortest_at (f : float) (v : Q) (n : Z) : option (Z * Z) :=
  let k := (dec_exponent v - n + 1)%Z in
  let scaled := (v / pow10Q k)%Q in
  let lo := Qfloor scaled in
  let hi := (lo + 1)%Z in
  let lo_ok := negb (Z.eqb lo 0) && same_float (read_decimal lo k) f in
  let hi_ok := same_float (read_decimal hi k) f in
  match lo_ok, hi_ok with
  | true, true =>
      match Qcompare (scaled - inject_Z lo)%Q (inject_Z hi - scaled)%Q with
      | Lt => Some (lo, k)
      | Gt => Some (hi, k)
      | Eq => if Z.even lo then Some (lo, k) else Some (hi, k)
      end
  | true, false => Some (lo, k)
  | false, true => Some (hi, k)
  | false, false => None
  end.

Fixpoint shortest_go (fuel : nat) (f : float) (v : Q) (n : Z) : Z * Z :=
  match fuel with
  | O => (0, 0)%Z
  | S fl => match shortest_at f v n with
            | Some r => r
            | None => shortest_go fl f v (n + 1)%Z
            end
  end.

(** Remove trailing zeros: [c * 10 ^ k] with [c] not a multiple of 10. *)
Fixpoint strip_zeros (fuel : nat) (c k : Z) : Z * Z :=
  match fuel with
  | O => (c, k)
  | S fl => if Z.eqb (c mod 10) 0 then strip_zeros fl (c / 10) (k + 1) else (c, k)
  end.

Definition zeros (n : Z) : string := string_of_list_ascii (repeat "0"%char (Z.to_nat n)).

(** [float.__repr__] of a finite non-zero magnitude, from its shortest digits. *)
Definition format_r (digits : string) (decpt : Z) : string :=
  let nd := Z.of_nat (String.length digits) in
  if Z.leb decpt (-4) || Z.ltb 16 decpt then
    let exp := (decpt - 1)%Z in
    substring 0 1 digits ++
    (if Z.ltb 1 nd then "." ++ substring 1 (Z.to_nat nd - 1) digits else "") ++
    "e" ++ (if Z.ltb exp 0 then "-" else "+") ++
    (if Z.ltb (Z.abs exp) 10 then "0" else "") ++ digits_Z (Z.abs exp)
  else if Z.leb decpt 0 then "0." ++ zeros (- decpt) ++ digits
  else if Z.ltb decpt nd then
    substring 0 (Z.to_nat decpt) digits ++ "." ++ substring (Z.to_nat decpt) (Z.to_nat (nd - decpt)) digits
  else digits ++ zeros (decpt - nd) ++ ".0".

Definition float_repr (f : float) : string :=
  match f with
  | S754_zero s => if s then "-0.0" else "0.0"
  | S754_infinity s => if s then "-inf" else "inf"
  | S754_nan => "nan"
  | S754_finite s m e =>
      let pos := S754_finite false m e in
      let v := to_Q pos in
      let '(c, k) := shortest_go 17 pos v 1 in
      let '(c', k') := strip_zeros 17 c k in
      let ds := digits_Z c' in
      (if s then "-" else "") ++ format_r ds (Z.of_nat (String.length ds) + k')
  end.

(** [str(z)] for an [int]: CPython 3.11 refuses more than 4300 digits. *)
Definition int_str (z : Z) : result string :=
  if Nat.ltb 4300 (String.length (digits_Z (Z.abs z)))
  then Raise (ValueError "Exceeds the limit (4300 digits) for integer string conversion; use sys.set_int_max_str_digits() to increase the limit")
  else Ok (int_repr z).

End PyNum.

(* ------------------------------------------------------------------ *)
(** ** Tax Calculation Engine: [app/agents/gst_calculator.py] *)

Module GSTCalculator.
Import PyNum.

(** An item dictionary; a missing key is [None]. *)
Record item := mk_item {
  name : option string;
  price : option num;
  quantity : option num;
  gst_rate : option num
}.

(** [VALID_RATES = [0, 5, 12, 18, 28]] *)
Definition VALID_RATES : list num := [NInt 0; NInt 5; NInt 12; NInt 18; NInt 28].

(** [x in VALID_RATES] (Python compares numbers by value, so [5.0] is in
    the list and NaN is not) *)
Definition in_valid_rates (r : num) : bool :=
  existsb (fun v => num_eq r v) VALID_RATES.

Definition item_prefix (idx : nat) : string :=
  "Item " ++ string_of_nat idx ++ ": ".

(** The errors [validate] appends for the item at position [idx]. *)
Definition item_errors (idx : nat) (it : item) : list string :=
  (if name it then [] else [item_prefix idx ++ "Missing 'name' field"]) ++
  (if price it then [] else [item_prefix idx ++ "Missing 'price' field"]) ++
  (if quantity it then [] else [item_prefix idx ++ "Missing 'quantity' field"]) ++
  (if gst_rate it then [] else [item_prefix idx ++ "Missing 'gst_rate' field"]) ++
  (match price it with
   | Some p => if num_le p (NInt 0) then [item_prefix idx ++ "Price must be positive"] else []
   | None => [] end) ++
  (match quantity it with
   | Some q => if num_le q (NInt 0) then [item_prefix idx ++ "Quantity must be positive"] else []
   | None => [] end) ++
  (match gst_rate it with
   | Some r => if in_valid_rates r then []
               else [item_prefix idx ++ "GST rate must be one of [0, 5, 12, 18, 28]"]
   | None => [] end).

(** [for idx, item in enumerate(items)] *)
Fixpoint errors_from (idx : nat) (items : list item) : list string :=
  match items with
  | [] => []
  | it :: rest => item_errors idx it ++ errors_from (S idx) rest
  end.

(** [validate(items)] returns [{'valid': ..., 'errors': ...}] *)
Definition validate (items : list item) : bool * list string :=
  match items with
  | [] => (false, ["Items list cannot be empty"])
  | _ => let errors := errors_from 0 items in
         (match errors with [] => true | _ => false end, errors)
  end.

(** One entry of [item_details]. *)
Record detail := mk_detail {
  d_name : string;
  d_price : num;
  d_quantity : num;
  d_gst_rate : num;
  d_subtotal : num;
  d_cgst : num;
  d_sgst : num;
  d_total_gst : num;
  d_total : num
}.

(** The dictionary returned by [calculate]. *)
Record calc_result := mk_result {
  r_items : list detail;
  r_subtotal : num;
  r_total_gst : num;
  r_grand_total : num;
  r_total_items : nat;
  r_total_quantity : num
}.

(** [item['key']]: a missing key raises [KeyError]. *)
Definition getk {A} (k : string) (o : option A) : result A :=
  match o with Some a => Ok a | None => Raise (KeyError k) end.

(** The body of the [for item in items] loop of [calculate]: the running
    [subtotal] and [total_gst] and the accumulated [item_details], each
    statement evaluated in the order of the source. *)
Fixpoint calc_loop (items : list item) (subtotal total_gst : num)
    (details : list detail) : result (num * num * list detail) :=
  match items with
  | [] => Ok (subtotal, total_gst, details)
  | it :: rest =>
      let? n := getk "name" (name it) in
      let? p := getk "price" (price it) in
      let? q := getk "quantity" (quantity it) in
      let? r := getk "gst_rate" (gst_rate it) in
      let? item_subtotal := num_mul p q in
      let? item_gst := (let? rate := num_truediv r (NInt 100) in num_mul item_subtotal rate) in
      let? item_total := num_add item_subtotal item_gst in
      let? cgst := num_truediv item_gst (NInt 2) in
      let? sgst := num_truediv item_gst (NInt 2) in
      let? subtotal' := num_add subtotal item_subtotal in
      let? total_gst' := num_add total_gst item_gst in
      calc_loop rest subtotal' total_gst'
        (details ++ [mk_detail n p q r (round2 item_subtotal) (round2 cgst)
                       (round2 sgst) (round2 item_gst) (round2 item_total)])
  end.

(** [sum(item['quantity'] for item in items)] *)
Definition sum_quantity (items : list item) : result num :=
  fold_left (fun acc it => let? a := acc in let? q := getk "quantity" (quantity it) in num_add a q)
    items (Ok (NInt 0)).

(** [calculate(items)]; the result dictionary is built key by key. *)
Definition calculate (items : list item) : result calc_result :=
  let (valid, errors) := validate items in
  if negb valid then Raise (ValueError ("Invalid input: " ++ join ", " errors))
  else
    let? acc := calc_loop items (NInt 0) (NInt 0) [] in
    let '(subtotal, total_gst, item_details) := acc in
    let? grand := num_add subtotal total_gst in
    let? tq := sum_quantity items in
    Ok (mk_result item_details (round2 subtotal) (round2 total_gst)
          (round2 grand) (length items) tq).

End GSTCalculator.

(** Input items of the stated form: every key present. *)
Module GSTSpec.
Import PyNum GSTCalculator.

Definition to_item (t : string * num * num * num) : item :=
  let '(n, p, q, r) := t in mk_item (Some n) (Some p) (Some q) (Some r).

(** The values of one item as the spec states them:
    [item_subtotal = price * quantity],
    [item_gst = item_subtotal * (gst_rate / 100)], [cgst = sgst = item_gst / 2]
    and [item_total = item_subtotal + item_gst], each reported rounded with
    [round(., 2)]; with the unrounded [item_subtotal] and [item_gst]. *)
Definition spec_item (t : string * num * num * num) : result (detail * num * num) :=
  let '(n, p, q, r) := t in
  let? item_subtotal := num_mul p q in
  let? item_gst := (let? rate := num_truediv r (NInt 100) in num_mul item_subtotal rate) in
  let? half := num_truediv item_gst (NInt 2) in
  let? item_total := num_add item_subtotal item_gst in
  Ok (mk_detail n p q r (round2 item_subtotal) (round2 half) (round2 half)
        (round2 item_gst) (round2 item_total), item_subtotal, item_gst).

(** [f] on every element, stopping at the first exception. *)
Fixpoint map_result {A B} (f : A -> result B) (xs : list A) : result (list B) :=
  match xs with
  | [] => Ok []
  | x :: xs' => let? y := f x in let? ys := map_result f xs' in Ok (y :: ys)
  end.

Definition t_quantity (t : string * num * num * num) : num :=
  let '(_, _, q, _) := t in q.

(** The result as the spec states it: the items' values; [subtotal] and
    [total_gst] the sums ([sum], left to right) of the unrounded item
    values, rounded; [grand_total] their sum, rounded; [total_items] the
    count and [total_quantity] the sum of the quantities. *)
Definition spec_calculate (ts : list (string * num * num * num)) : result calc_result :=
  let? vs := map_result spec_item ts in
  let? subtotal := py_sum (map (fun v => snd (fst v)) vs) in
  let? total_gst := py_sum (map snd vs) in
  let? grand := num_add subtotal total_gst in
  let? tq := py_sum (map t_quantity ts) in
  Ok (mk_result (map (fun v => fst (fst v)) vs) (round2 subtotal) (round2 total_gst)
        (round2 grand) (length ts) tq).

(** [p > 0], [q > 0] and [r] one of the valid rates. *)
Definition t_valid (t : string * num * num * num) : Prop :=
  let '(_, p, q, r) := t in
  num_lt (NInt 0) p = true /\ num_lt (NInt 0) q = true /\ in_valid_rates r = true.

(** An [int] of absolute value below [2 ^ b] (a [float] has no bound). *)
Definition small_num (b : Z) (x : num) : Prop :=
  match x with NInt z => (Z.abs z < 2 ^ b)%Z | NFloat _ => True end.

(** The price and the quantity are [int]s below [2 ^ 400] or [float]s. *)
Definition t_small (t : string * num * num * num) : Prop :=
  let '(_, p, q, _) := t in small_num 400 p /\ small_num 400 q.

(** An item passes [validate] iff all keys are present and the three
    checks succeed. *)
Definition item_ok (it : item) : bool :=
  match it with
  | mk_item (Some _) (Some p) (Some q) (Some r) =>
      negb (num_le p (NInt 0)) && negb (num_le q (NInt 0)) && in_valid_rates r
  | _ => false
  end.

End GSTSpec.

(* ------------------------------------------------------------------ *)
(** ** Python's [int(s)] on a string, and [s.split('-')[-1]] *)

Module PyInt.

Definition is_space (c : ascii) : bool :=
  match nat_of_ascii c with
  | 32 | 9 | 10 | 11 | 12 | 13 => true
  | _ => false
  end.

Definition digit_value (c : ascii) : option Z :=
  let n := nat_of_ascii c in
  if Nat.leb 48 n && Nat.leb n 57 then Some (Z.of_nat (n - 48)) else None.

Fixpoint strip_left (cs : list ascii) : list ascii :=
  match cs with
  | c :: rest => if is_space c then strip_left rest else cs
  | [] => []
  end.

Definition strip (cs : list ascii) : list ascii :=
  rev (strip_left (rev (strip_left cs))).

(** Digits, with single underscores allowed between two digits. *)
Fixpoint digits_go (acc : Z) (prev_digit : bool) (cs : list ascii) : option Z :=
  match cs with
  | [] => if prev_digit then Some acc else None
  | c :: rest =>
      match digit_value c with
      | Some d => digits_go (10 * acc + d)%Z true rest
      | None =>
          if Ascii.eqb c "_"%char then
            match rest with
            | c' :: _ => if prev_digit && bool_decide (is_Some (digit_value c'))
                         then digits_go acc false rest else None
            | [] => None
            end
          else None
      end
  end.

(** [int(s)] for base 10; [None] is the [ValueError] it raises. *)
Definition py_int (s : string) : option Z :=
  match strip (list_ascii_of_string s) with
  | c :: rest =>
      if Ascii.eqb c "-"%char then option_map Z.opp (digits_go 0 false rest)
      else if Ascii.eqb c "+"%char then digits_go 0 false rest
      else digits_go 0 false (c :: rest)
  | [] => None
  end.

(** [s.split('-')[-1]]: the text after the last ['-']. *)
Fixpoint last_segment_go (cur : list ascii) (cs : list ascii) : list ascii :=
  match cs with
  | [] => rev cur
  | c :: rest => if Ascii.eqb c "-"%char then last_segment_go [] rest
                 else last_segment_go (c :: cur) rest
  end.

Definition last_segment (s : string) : string :=
  string_of_list_ascii (last_segment_go [] (list_ascii_of_string s)).

End PyInt.

(* ------------------------------------------------------------------ *)
(** ** Persisted Invoice Orchestrator: [app/agents/invoice_agent_db.py]
    and [DatabaseOperations.get_next_invoice_number] *)

Module InvoiceAgentDB.
Local Open Scope Q_scope.

(** A keyword-argument call of [GSTCalculator(...)]: its [__init__(self)]
    takes no argument, so any keyword argument raises [TypeError]. *)
Definition GSTCalculator_new (kwargs : list (string * Q)) : result unit :=
  match kwargs with
  | [] => Ok tt
  | (k, _) :: _ =>
      Raise (TypeError ("GSTCalculator.__init__() got an unexpected keyword argument '"
                        ++ k ++ "'"))
  end.

(** [GSTCalculator.calculate(self, items)] called as [calculator.calculate()]. *)
Definition GSTCalculator_calculate_noargs : result unit :=
  Raise (TypeError "GSTCalculator.calculate() missing 1 required positional argument: 'items'").

(** The persisted invoice rows, in insertion (= [id]) order. *)
Record invoice_row := mk_invoice_row {
  invoice_number : string;
  inv_notes : string
}.

Definition store := list invoice_row.

(** [DatabaseOperations.get_next_invoice_number]: the last row by [id]. *)
Definition get_next_invoice_number (db : store) : Z :=
  match last db with
  | None => 1000
  | Some inv =>
      match PyInt.py_int (PyInt.last_segment (invoice_number inv)) with
      | Some n => n + 1
      | None => 1000
      end
  end%Z.

(** [f"INV-{year}-{next_number}"] *)
Definition _generate_invoice_number (year : nat) (db : store) : string :=
  "INV-" ++ string_of_nat year ++ "-" ++
  (let n := get_next_invoice_number db in
   if Z.ltb n 0 then "-" ++ string_of_nat (Z.to_nat (- n)) else string_of_nat (Z.to_nat n)).

(** The object built by [InvoiceAgentDB.__init__]. *)
Record agent := mk_agent { calculator : unit }.

(** [InvoiceAgentDB.__init__]: [InvoiceValidator()], then
    [GSTCalculator(base_price=0, gst_rate=0)], [DatabaseOperations()] and
    [init_database()]. *)
Definition __init__ : result agent :=
  let? calc := GSTCalculator_new [("base_price", 0); ("gst_rate", 0)] in
  Ok (mk_agent calc).

(** An item dictionary, as far as [create_invoice] reads it. *)
Record inv_item := mk_inv_item {
  i_name : option string;
  i_price : option Q;
  i_quantity : option Q;
  i_gst_rate : option Q
}.

(** The returned dictionary: [{'success': ..., 'error'/'message': ...}]. *)
Record response := mk_response {
  success : bool;
  text : string
}.

Definition getk {A} (k : string) (o : option A) : result A :=
  match o with Some a => Ok a | None => Raise (KeyError k) end.

Section CreateInvoice.

(** [InvoiceValidator.validate_customer_details] and
    [InvoiceValidator.validate_invoice_item] (regular-expression checks);
    they may also raise. *)
Variable customer : Type.
Variable validate_customer_details : customer -> result (bool * string).
Variable validate_invoice_item : inv_item -> result (bool * string).

(** [for i, item in enumerate(items)]: the first rejected item. *)
Fixpoint validate_items (i : nat) (items : list inv_item) : result (option response) :=
  match items with
  | [] => Ok None
  | it :: rest =>
      let? vm := validate_invoice_item it in
      let '(is_valid, msg) := vm in
      if is_valid then validate_items (S i) rest
      else Ok (Some (mk_response false
                       ("Item " ++ string_of_nat (S i) ++ " validation failed: " ++ msg)))
  end.

(** Step 3, the [for item in items] loop: each iteration evaluates the
    keyword arguments, constructs [GSTCalculator(...)] and calls
    [calculate()]. *)
Fixpoint calculate_items (items : list inv_item) : result unit :=
  match items with
  | [] => Ok tt
  | it :: rest =>
      let? p := getk "price" (i_price it) in
      let? r := getk "gst_rate" (i_gst_rate it) in
      let? q := getk "quantity" (i_quantity it) in
      let? _ := GSTCalculator_new [("base_price", p); ("gst_rate", r); ("quantity", q)] in
      let? _ := GSTCalculator_calculate_noargs in
      calculate_items rest
  end.

(** [create_invoice(customer, items, notes)], with [year] the current year.
    Steps 4 and 6 (totals and the invoice dictionary) are only reached
    after step 3, and only the invoice number and notes of the saved row
    are kept. *)
Definition create_invoice (year : nat) (db : store) (c : customer)
    (items : list inv_item) (notes : string) : result (response * store) :=
  let? vm := validate_customer_details c in
  let '(is_valid, msg) := vm in
  if negb is_valid then
    Ok (mk_response false ("Customer validation failed: " ++ msg), db)
  else match items with
  | [] => Ok (mk_response false "Invoice must have at least one item", db)
  | _ =>
      let? bad := validate_items 0 items in
      match bad with
      | Some resp => Ok (resp, db)
      | None =>
          let? _ := calculate_items items in
          let number := _generate_invoice_number year db in
          Ok (mk_response true ("Invoice " ++ number ++ " created successfully"),
              (db ++ [mk_invoice_row number notes])%list)
      end
  end.

End CreateInvoice.

End InvoiceAgentDB.

(* ------------------------------------------------------------------ *)
(** ** Payment Ledger Operations: [app/models/payment_operations.py] *)

Module PaymentOperations.
Import SpecFloat PyNum.

(** The columns of an [Invoice] row that [add_payment] reads or writes;
    [grand_total] is a [Float] column, read back as a Python [float]. *)
Record invoice := mk_invoice {
  id : Z;
  grand_total : float;
  payment_status : string;
  payment_method : option string
}.

(** A [Payment] row; [amount] is the [float] of the signature
    [amount: float]. *)
Record payment := mk_payment {
  invoice_id : Z;
  payment_date : string;
  payment_time : string;
  amount : float;
  p_payment_method : string;
  transaction_id : string;
  notes : string
}.

(** The committed content of the database; rows in insertion order. *)
Record db := mk_db {
  invoices : list invoice;
  payments : list payment
}.

(** [engine = create_engine("sqlite:///./gst_invoices.db", ...)] in
    [app/models/database.py] never issues [PRAGMA foreign_keys=ON], and
    SQLite leaves foreign keys unchecked by default. *)
Definition engine_foreign_keys : bool := false.

(** [db.query(Invoice).filter(Invoice.id == invoice_id).first()] *)
Definition find_invoice (d : db) (invoice_id : Z) : option invoice :=
  List.find (fun i => Z.eqb (id i) invoice_id) (invoices d).

(** [get_total_paid]: [sum(p.amount for p in payments)] over the rows of
    [invoice_id], in the order the query returns them (a scan of the
    unindexed [invoice_id] column: insertion order), in [float]
    arithmetic from the [int] [0]. *)
Definition get_total_paid (d : db) (inv_id : Z) : result num :=
  py_sum (map (fun p => NFloat (amount p))
            (List.filter (fun p => Z.eqb (invoice_id p) inv_id) (payments d))).

(** [db.commit()] of the pending [Payment] row (and of the updated
    invoice rows).  SQLite binds a NaN as NULL, which the
    [nullable=False] column [amount] refuses. *)
Definition commit_payment (d : db) (invs : list invoice) (pay : payment) : result db :=
  if is_nan (amount pay)
  then Raise (IntegrityError "NOT NULL constraint failed: payments.amount")
  else if engine_foreign_keys && negb (existsb (fun i => Z.eqb (id i) (invoice_id pay)) (invoices d))
  then Raise (IntegrityError "FOREIGN KEY constraint failed")
  else Ok (mk_db invs (payments d ++ [pay])%list).

(** The status rule of [add_payment]: [total_paid >= invoice.grand_total],
    then [total_paid > 0]. *)
Definition status_for (grand : float) (total_paid : num) : string :=
  if num_le (NFloat grand) total_paid then "Paid"
  else if num_lt (NInt 0) total_paid then "Partial"
  else "Pending".

(** [PaymentOperations.add_payment].  The session is opened with
    [autoflush=False] ([SessionLocal] in [app/models/database.py]), so the
    query in [get_total_paid] does not see the pending [Payment] row; the
    code adds [amount] itself.  [date] and [time] are [datetime.now()]. *)
Definition add_payment (d : db) (date time : string) (inv_id : Z) (amt : float)
    (method txn note : string) : result (payment * db) :=
  let pay := mk_payment inv_id date time amt method txn note in
  let? invs :=
    match find_invoice d inv_id with
    | Some inv =>
        let? paid := get_total_paid d inv_id in
        let? total_paid := num_add paid (NFloat amt) in
        Ok (map (fun i => if Z.eqb (id i) inv_id
                          then mk_invoice (id i) (grand_total i)
                                 (status_for (grand_total inv) total_paid) (Some method)
                          else i) (invoices d))
    | None => Ok (invoices d)
    end in
  let? d' := commit_payment d invs pay in
  Ok (pay, d').

(** A sequence of [add_payment] calls on one invoice; each call is
    [(date, time, amount, method, transaction_id, notes)]. *)
Fixpoint run_payments (d : db) (inv_id : Z)
    (calls : list (string * string * float * string * string * string)) : result db :=
  match calls with
  | [] => Ok d
  | (date, time, amt, method, txn, note) :: rest =>
      let? r := add_payment d date time inv_id amt method txn note in
      run_payments (snd r) inv_id rest
  end.

Definition call_amount (c : string * string * float * string * string * string) : float :=
  let '(_, _, amt, _, _, _) := c in amt.
Definition call_method (c : string * string * float * string * string * string) : string :=
  let '(_, _, _, method, _, _) := c in method.

(** A ledger with one invoice of grand total [1000.0] and no payment. *)
Definition ledger0 : db := mk_db [mk_invoice 1 (float_of_Q 1000) "Pending" None] [].

End PaymentOperations.

(* ------------------------------------------------------------------ *)
(** ** Search Agent: [app/agents/search_agent.py] *)

Module SearchAgent.
Local Open Scope Q_scope.

(** [str.lower()], [str.upper()] and [str.strip()] on ASCII text. *)
Definition lower_char (c : ascii) : ascii :=
  let n := nat_of_ascii c in
  if Nat.leb 65 n && Nat.leb n 90 then ascii_of_nat (Nat.add n 32) else c.
Definition upper_char (c : ascii) : ascii :=
  let n := nat_of_ascii c in
  if Nat.leb 97 n && Nat.leb n 122 then ascii_of_nat (Nat.sub n 32) else c.

Definition lower (s : string) : string :=
  string_of_list_ascii (map lower_char (list_ascii_of_string s)).
Definition upper (s : string) : string :=
  string_of_list_ascii (map upper_char (list_ascii_of_string s)).
Definition strip (s : string) : string :=
  string_of_list_ascii (PyInt.strip (list_ascii_of_string s)).

Fixpoint is_prefix (a b : string) : bool :=
  match a, b with
  | EmptyString, _ => true
  | String c a', String d b' => Ascii.eqb c d && is_prefix a' b'
  | _, _ => false
  end.

(** [a in b] on strings. *)
Fixpoint contains (a b : string) : bool :=
  is_prefix a b || match b with EmptyString => false | String _ b' => contains a b' end.

(** A date [(year, month, day)] and its day number since 1970-01-01. *)
Definition days_from_civil (y m d : Z) : Z :=
  let y' := if (m <=? 2)%Z then (y - 1)%Z else y in
  let era := (y' / 400)%Z in
  let yoe := (y' - era * 400)%Z in
  let mp := ((m + 9) mod 12)%Z in
  let doy := ((153 * mp + 2) / 5 + d - 1)%Z in
  let doe := (yoe * 365 + yoe / 4 - yoe / 100 + doy)%Z in
  (era * 146097 + doe - 719468)%Z.

Definition civil_from_days (z : Z) : Z * Z * Z :=
  let z' := (z + 719468)%Z in
  let era := (z' / 146097)%Z in
  let doe := (z' - era * 146097)%Z in
  let yoe := ((doe - doe / 1460 + doe / 36524 - doe / 146096) / 365)%Z in
  let doy := (doe - (365 * yoe + yoe / 4 - yoe / 100))%Z in
  let mp := ((5 * doy + 2) / 153)%Z in
  let d := (doy - (153 * mp + 2) / 5 + 1)%Z in
  let m := if (mp <? 10)%Z then (mp + 3)%Z else (mp - 9)%Z in
  let y := (yoe + era * 400 + (if (m <=? 2)%Z then 1 else 0))%Z in
  (y, m, d).

(** [date.weekday()]: Monday is 0; 1970-01-01 was a Thursday. *)
Definition weekday (y m d : Z) : Z := ((days_from_civil y m d + 3) mod 7)%Z.

Definition pad (width : nat) (s : string) : string :=
  (fix go (k : nat) (acc : string) :=
     match k with O => acc | S k' => go k' (String "0" acc) end)
    (Nat.sub width (String.length s)) s.

(** [strftime("%Y-%m-%d")] *)
Definition fmt_date (ymd : Z * Z * Z) : string :=
  let '(y, m, d) := ymd in
  pad 4 (string_of_nat (Z.to_nat y)) ++ "-" ++ pad 2 (string_of_nat (Z.to_nat m)) ++ "-" ++
  pad 2 (string_of_nat (Z.to_nat d)).

Definition minus_days (ymd : Z * Z * Z) (k : Z) : Z * Z * Z :=
  let '(y, m, d) := ymd in civil_from_days (days_from_civil y m d - k).

(** The invoice dictionary as the search functions read it. *)
Record invoice := mk_invoice {
  invoice_number : string;
  date : string;
  customer_name : string;
  items : list (string * Q);   (* [(item['name'], item['gst_rate'])] *)
  grand_total : Q;
  payment_status : string
}.

(** The [filters] dictionary; an absent key is [None]. *)
Record filters := mk_filters {
  date_preset : option string;
  start_date : option string;
  end_date : option string;
  min_amount : option Q;
  max_amount : option Q;
  payment_statuses : option (list string);
  gst_rates : option (list Q);
  customer_query : option string;
  fuzzy_search : option bool;
  f_invoice_number : option string;
  item_query : option string
}.

Definition no_filters : filters :=
  mk_filters None None None None None None None None None None None.

(** Python truthiness of an optional string or list. *)
Definition truthy_str (o : option string) : bool :=
  match o with Some "" | None => false | Some _ => true end.
Definition truthy_list {A} (o : option (list A)) : bool :=
  match o with Some (_ :: _) => true | _ => false end.

(** [filter_by_date_range]; [today] is [datetime.now().date()]. *)
Definition filter_by_date_range (today : Z * Z * Z) (invoices : list invoice)
    (start_date0 end_date0 preset : option string) : list invoice :=
  match invoices with
  | [] => []
  | _ =>
    let '(y, m, d) := today in
    let '(start_date, end_date) :=
      match preset with
      | Some "today" => (Some (fmt_date today), Some (fmt_date today))
      | Some "this_week" => (Some (fmt_date (minus_days today (weekday y m d))), Some (fmt_date today))
      | Some "this_month" => (Some (fmt_date (y, m, 1%Z)), Some (fmt_date today))
      | Some "this_quarter" =>
          let start_month := (((m - 1) / 3) * 3 + 1)%Z in
          (Some (fmt_date (y, start_month, 1%Z)), Some (fmt_date today))
      | Some "this_year" => (Some (fmt_date (y, 1%Z, 1%Z)), Some (fmt_date today))
      | Some "last_30_days" => (Some (fmt_date (minus_days today 30)), Some (fmt_date today))
      | _ => (start_date0, end_date0)
      end in
    if truthy_str start_date || truthy_str end_date then
      List.filter (fun inv =>
        negb (match start_date with
              | Some sd => truthy_str (Some sd) && String.ltb (date inv) sd
              | None => false end) &&
        negb (match end_date with
              | Some ed => truthy_str (Some ed) && String.ltb ed (date inv)
              | None => false end)) invoices
    else invoices
  end.

(** [filter_by_amount_range] *)
Definition filter_by_amount_range (invoices : list invoice)
    (min_amt max_amt : option Q) : list invoice :=
  match invoices with
  | [] => []
  | _ =>
    List.filter (fun inv =>
      negb (match min_amt with
            | Some lo => negb (Qle_bool lo (grand_total inv))
            | None => false end) &&
      negb (match max_amt with
            | Some hi => negb (Qle_bool (grand_total inv) hi)
            | None => false end)) invoices
  end.

(** [filter_by_payment_status] *)
Definition filter_by_payment_status (invoices : list invoice) (statuses : list string) :
    list invoice :=
  match invoices, statuses with
  | [], _ | _, [] => invoices
  | _, _ => List.filter (fun inv => existsb (String.eqb (payment_status inv)) statuses) invoices
  end.

(** [filter_by_gst_rate] *)
Definition filter_by_gst_rate (invoices : list invoice) (rates : list Q) : list invoice :=
  match invoices, rates with
  | [], _ | _, [] => invoices
  | _, _ => List.filter (fun inv =>
              existsb (fun it => existsb (Qeq_bool (snd it)) rates) (items inv)) invoices
  end.

(** [search_by_customer] *)
Definition search_by_customer (invoices : list invoice) (query : string) (fuzzy : bool) :
    list invoice :=
  match invoices, query with
  | [], _ | _, EmptyString => invoices
  | _, _ =>
    let q := strip (lower query) in
    if fuzzy then List.filter (fun inv => contains q (lower (customer_name inv))) invoices
    else List.filter (fun inv => String.eqb (lower (customer_name inv)) q) invoices
  end.

(** [search_by_invoice_number] *)
Definition search_by_invoice_number (invoices : list invoice) (query : string) : list invoice :=
  match invoices, query with
  | [], _ | _, EmptyString => invoices
  | _, _ =>
    let q := strip (upper query) in
    List.filter (fun inv => contains q (upper (invoice_number inv))) invoices
  end.

(** [search_by_item] *)
Definition search_by_item (invoices : list invoice) (query : string) : list invoice :=
  match invoices, query with
  | [], _ | _, EmptyString => invoices
  | _, _ =>
    let q := strip (lower query) in
    List.filter (fun inv => existsb (fun it => contains q (lower (fst it))) (items inv)) invoices
  end.

(** [advanced_search(invoices, filters)] *)
Definition advanced_search (today : Z * Z * Z) (invoices : list invoice) (f : filters) :
    list invoice :=
  let result := invoices in
  let result :=
    if truthy_str (date_preset f) || truthy_str (start_date f) || truthy_str (end_date f)
    then filter_by_date_range today result (start_date f) (end_date f) (date_preset f)
    else result in
  let result :=
    if bool_decide (is_Some (min_amount f)) || bool_decide (is_Some (max_amount f))
    then filter_by_amount_range result (min_amount f) (max_amount f)
    else result in
  let result :=
    match payment_statuses f with
    | Some ((_ :: _) as sts) => filter_by_payment_status result sts
    | _ => result end in
  let result :=
    match gst_rates f with
    | Some ((_ :: _) as rs) => filter_by_gst_rate result rs
    | _ => result end in
  let result :=
    match customer_query f with
    | Some ((String _ _) as q) =>
        search_by_customer result q (match fuzzy_search f with Some b => b | None => true end)
    | _ => result end in
  let result :=
    match f_invoice_number f with
    | Some ((String _ _) as q) => search_by_invoice_number result q
    | _ => result end in
  let result :=
    match item_query f with
    | Some ((String _ _) as q) => search_by_item result q
    | _ => result end in
  result.

(** The fixture of the claim: one [Paid] invoice of 2360 and one [Pending]
    invoice of 5600, and the filters [{payment_statuses: ["Paid"],
    min_amount: 10000}]. *)
Definition inv_paid : invoice :=
  mk_invoice "INV-2025-1001" "2025-02-01" "John Doe" [("Laptop", 18)] 2360 "Paid".
Definition inv_pending : invoice :=
  mk_invoice "INV-2025-1002" "2025-02-15" "Jane Smith" [("Mouse", 12)] 5600 "Pending".
Definition fixture_filters : filters :=
  mk_filters None None None (Some 10000) None (Some ["Paid"]) None None None None None.

End SearchAgent.

(* ------------------------------------------------------------------ *)
(** ** Security Agent: [app/agents/security_agent.py] *)

Module SecurityAgent.
Local Open Scope Q_scope.

Record limit_config := mk_config { requests : nat; window : Q }.

(** [self.RATE_LIMITS] *)
Definition RATE_LIMITS : list (string * limit_config) :=
  [("default", mk_config 100 60); ("auth", mk_config 5 60); ("search", mk_config 30 60);
   ("export", mk_config 10 60); ("email", mk_config 20 60)].

(** [self.RATE_LIMITS.get(limit_type, self.RATE_LIMITS['default'])] *)
Definition get_config (limit_type : string) : limit_config :=
  match List.find (fun kv => String.eqb (fst kv) limit_type) RATE_LIMITS with
  | Some (_, c) => c
  | None => mk_config 100 60
  end.

(** [self.request_counts] (a [defaultdict(list)]) and [self.blocked_ips]. *)
Record state := mk_state {
  request_counts : gmap string (list Q);
  blocked_ips : gset string
}.

(** [self.request_counts[identifier]] read through the [defaultdict]. *)
Definition counts_of (st : state) (identifier : string) : list Q :=
  match request_counts st !! identifier with Some l => l | None => [] end.

(** [int(x)] of a float: truncation toward zero. *)
Definition py_int_of (x : Q) : Z := Z.quot (Qnum x) (Zpos (Qden x)).

(** [min(xs)]; [min([])] raises [ValueError]. *)
Definition py_min (xs : list Q) : result Q :=
  match xs with
  | [] => Raise (ValueError "min() arg is an empty sequence")
  | x :: rest => Ok (fold_left (fun cur y => if negb (Qle_bool cur y) then y else cur) rest x)
  end.

(** The dictionary returned by [check_rate_limit]. *)
Inductive decision : Type :=
  | Blocked (retry_after : Z)
  | Exceeded (retry_after : Z) (current_count limit : nat)
  | Allowed (current_count limit : nat) (remaining : Z) (reset_at : Z).

(** [check_rate_limit(identifier, limit_type)], with [now = time.time()]. *)
Definition check_rate_limit (st : state) (identifier limit_type : string) (now : Q) :
    result (decision * state) :=
  if bool_decide (identifier ∈ blocked_ips st) then Ok (Blocked 3600, st)
  else
    let config := get_config limit_type in
    let max_requests := requests config in
    let window_seconds := window config in
    let cutoff_time := now - window_seconds in
    let kept := List.filter (fun req_time => negb (Qle_bool req_time cutoff_time))
                  (counts_of st identifier) in
    let st1 := mk_state (<[identifier := kept]> (request_counts st)) (blocked_ips st) in
    let current_count := length kept in
    if Nat.leb max_requests current_count then
      let? oldest_request := py_min kept in
      let retry_after := py_int_of (oldest_request + window_seconds - now) in
      Ok (Exceeded (Z.max retry_after 1) current_count max_requests, st1)
    else
      Ok (Allowed (S current_count) max_requests
            (Z.of_nat max_requests - Z.of_nat current_count - 1)%Z
            (py_int_of (now + window_seconds)),
          mk_state (<[identifier := (kept ++ [now])%list]> (request_counts st)) (blocked_ips st)).

(** The decision of a call, forgetting the new state. *)
Definition is_allowed (r : result (decision * state)) : bool :=
  match r with Ok (Allowed _ _ _ _, _) => true | _ => false end.

Definition retry_after_of (r : result (decision * state)) : option Z :=
  match r with
  | Ok (Blocked ra, _) | Ok (Exceeded ra _ _, _) => Some ra
  | _ => None
  end.

(** One identifier with 100 requests at times 0, 0.5, ..., 49.5. *)
Definition st_full : state :=
  mk_state {[ "10.0.0.1" := List.map (fun k : nat => (inject_Z (Z.of_nat k) / 2)) (seq 0 100) ]} ∅.

End SecurityAgent.

(* ------------------------------------------------------------------ *)
(** ** Audit Agent: [app/agents/audit_agent.py] *)

Module AuditAgent.
Import SpecFloat PyNum.
Local Set Warnings "-register-all".

(** The Python values a [details] dictionary can hold, as far as
    [json.dumps] treats them: [None], [bool], [int], [float], [str], [list]
    (or [tuple]), [dict] (its items in insertion order, keys of any of these
    types), and any other object ([PObj], named by its type, such as a
    [datetime] or a [set]), which [json.dumps] refuses.  Containers are
    trees: a container holding itself is not represented. *)
Inductive pyval : Type :=
  | PNone
  | PBool (b : bool)
  | PInt (z : Z)
  | PFloat (f : float)
  | PStr (s : string)
  | PList (xs : list pyval)
  | PDict (kv : list (pyval * pyval))
  | PObj (tyname : string).

(** [type(v).__name__] *)
Definition type_name (v : pyval) : string :=
  match v with
  | PNone => "NoneType"
  | PBool _ => "bool"
  | PInt _ => "int"
  | PFloat _ => "float"
  | PStr _ => "str"
  | PList _ => "list"
  | PDict _ => "dict"
  | PObj ty => ty
  end.

Definition chr (n : nat) : string := String (ascii_of_nat n) EmptyString.

Definition hex_digit (n : nat) : ascii :=
  if Nat.ltb n 10 then ascii_of_nat (48 + n) else ascii_of_nat (87 + n).

(** One character of [json.encoder.py_encode_basestring_ascii]
    ([ensure_ascii=True]): quote, backslash and the five named control
    characters get their short escapes, the printable range [' '..'~'] is
    kept, everything else becomes [\u00XX]. *)
Definition escape_char (c : ascii) : string :=
  let n := nat_of_ascii c in
  if Nat.eqb n 34 then chr 92 ++ chr 34
  else if Nat.eqb n 92 then chr 92 ++ chr 92
  else if Nat.eqb n 10 then chr 92 ++ "n"
  else if Nat.eqb n 13 then chr 92 ++ "r"
  else if Nat.eqb n 9 then chr 92 ++ "t"
  else if Nat.eqb n 8 then chr 92 ++ "b"
  else if Nat.eqb n 12 then chr 92 ++ "f"
  else if Nat.leb 32 n && Nat.leb n 126 then String c EmptyString
  else chr 92 ++ "u00" ++ String (hex_digit (n / 16)) (String (hex_digit (n mod 16)) EmptyString).

Fixpoint escape_string (s : string) : string :=
  match s with
  | EmptyString => ""
  | String c s' => escape_char c ++ escape_string s'
  end.

Definition encode_string (s : string) : string := chr 34 ++ escape_string s ++ chr 34.

Definition string_of_Z (z : Z) : string :=
  if Z.ltb z 0 then "-" ++ string_of_nat (Z.to_nat (- z)) else string_of_nat (Z.to_nat z).

(** [encoder_encode_float] with [allow_nan=True]: the non-finite values
    are written as the JavaScript names, the others with [float.__repr__]. *)
Definition encode_float (f : float) : string :=
  match f with
  | S754_nan => "NaN"
  | S754_infinity s => if s then "-Infinity" else "Infinity"
  | _ => float_repr f
  end.

(** A dictionary key: a [str] as it is, a [float] as [encode_float], the
    three constants as their JSON names, an [int] as its [repr]; any other
    key raises [TypeError] ([skipkeys=False]). *)
Definition encode_key (k : pyval) : result string :=
  match k with
  | PStr s => Ok s
  | PFloat f => Ok (encode_float f)
  | PBool true => Ok "true"
  | PBool false => Ok "false"
  | PNone => Ok "null"
  | PInt z => int_str z
  | _ => Raise (TypeError ("keys must be str, int, float, bool or None, not " ++ type_name k))
  end.

Definition recursion_msg : string :=
  "maximum recursion depth exceeded while encoding a JSON object".

(** [json.dumps(v)] with the default arguments (the C encoder,
    separators [', '] and [': ']).  [depth] is the number of nested
    containers the interpreter's recursion limit still allows; each list
    or dictionary entered uses one, and the next one raises
    [RecursionError]. *)
Fixpoint json_dumps_val (depth : nat) (v : pyval) : result string :=
  match v with
  | PNone => Ok "null"
  | PBool true => Ok "true"
  | PBool false => Ok "false"
  | PInt z => int_str z
  | PFloat f => Ok (encode_float f)
  | PStr s => Ok (encode_string s)
  | PList xs =>
      match depth with
      | O => Raise (RecursionError recursion_msg)
      | S d =>
          let fix go (xs : list pyval) : result (list string) :=
            match xs with
            | [] => Ok []
            | x :: xs' => let? s := json_dumps_val d x in let? ss := go xs' in Ok (s :: ss)
            end in
          let? ss := go xs in Ok ("[" ++ join ", " ss ++ "]")
      end
  | PDict kv =>
      match depth with
      | O => Raise (RecursionError recursion_msg)
      | S d =>
          let fix go (kv : list (pyval * pyval)) : result (list string) :=
            match kv with
            | [] => Ok []
            | (k, x) :: kv' =>
                let? ks := encode_key k in
                let? s := json_dumps_val d x in
                let? ss := go kv' in Ok ((encode_string ks ++ ": " ++ s) :: ss)
            end in
          let? ss := go kv in Ok ("{" ++ join ", " ss ++ "}")
      end
  | PObj ty => Raise (TypeError ("Object of type " ++ ty ++ " is not JSON serializable"))
  end.

(** Modelled from the spec: the [AuditLog] entity of the persistence schema
    (identifier, timestamp, acting user, action code, optional entity
    type/id, optional JSON-encoded details blob, optional source IP,
    status).  [audit_agent.py] imports [AuditLog] from
    [app/models/database.py], which does not define it. *)
Record audit_log := mk_audit_log {
  log_id : nat;
  timestamp : Q;
  log_user : string;
  log_action_code : string;
  log_entity_type : option string;
  log_entity_id : option string;
  log_details : option string;
  log_ip_address : option string;
  log_status : string
}.

(** Modelled from the spec: the table is append-only and its integer primary
    key is assigned as one more than the largest one present. *)
Definition next_id (db : list audit_log) : nat :=
  S (fold_left (fun m r => Nat.max m (log_id r)) db 0).

(** [str(e)] of a caught exception. *)
Definition str_exn (e : exn) : string :=
  match e with
  | TypeError m | ValueError m | IntegrityError m
  | OperationalError m | UnicodeEncodeError m | JWTError m
  | OverflowError m | ZeroDivisionError m | RecursionError m => m
  | KeyError k => "'" ++ k ++ "'"
  end.

(** What the environment answers to one call of [log_action]: the
    recursion depth left to [json.dumps], and for each session method
    whether it raises (a locked or read-only database file, a full disk, a
    lost connection, ...). *)
Record runtime := mk_runtime {
  json_depth : nat;
  commit_fault : option exn;
  refresh_fault : option exn;
  rollback_fault : option exn;
  close_fault : option exn
}.

Definition raise_if (fault : option exn) : result unit :=
  match fault with None => Ok tt | Some e => Raise e end.

(** [db.add(log); db.commit()]: the row is in the table once the commit
    succeeds. *)
Definition commit (rt : runtime) (db : list audit_log) (log : audit_log) :
    result (list audit_log) :=
  let? _ := raise_if (commit_fault rt) in Ok (db ++ [log])%list.

(** [db.refresh(log)], [db.rollback()] and [db.close()]: they do not change
    the committed rows. *)
Definition refresh (rt : runtime) : result unit := raise_if (refresh_fault rt).
Definition rollback (rt : runtime) : result unit := raise_if (rollback_fault rt).
Definition close (rt : runtime) : result unit := raise_if (close_fault rt).

(** The dictionary returned by [log_action]. *)
Inductive log_response : Type :=
  | LogOk (log_id : nat) (message : string)
  | LogFailed (error : string).

(** [json.dumps(details) if details else None]: an empty dictionary is
    falsy. *)
Definition details_column (depth : nat) (details : option (list (pyval * pyval))) :
    result (option string) :=
  match details with
  | Some ((_ :: _) as kv) => let? s := json_dumps_val depth (PDict kv) in Ok (Some s)
  | _ => Ok None
  end.

(** [AuditAgent.log_action]; [now] is the row's default timestamp.  The
    result is the table afterwards (a committed row stays, whatever
    follows) and the returned dictionary or the raised exception.  The
    [try] block builds the row, commits it and refreshes it; the
    [except Exception] branch calls [db.rollback()] and returns a failure
    dictionary; the [finally] branch calls [db.close()], whose exception
    replaces the result. *)
Definition log_action (rt : runtime) (now : Q) (db : list audit_log)
    (user action : string) (entity_type entity_id : option string)
    (details : option (list (pyval * pyval))) (ip_address : option string)
    (status : string) : list audit_log * result log_response :=
  let '(db1, attempt) :=
    match details_column (json_depth rt) details with
    | Raise e => (db, Raise e)
    | Ok d =>
        let log := mk_audit_log (next_id db) now user action entity_type entity_id
                     d ip_address status in
        match commit rt db log with
        | Raise e => (db, Raise e)
        | Ok db' => (db', let? _ := refresh rt in Ok (LogOk (log_id log) "Action logged"))
        end
    end in
  let handled :=
    match attempt with
    | Ok r => Ok r
    | Raise e => let? _ := rollback rt in Ok (LogFailed (str_exn e))
    end in
  (db1, let? _ := close rt in handled).

End AuditAgent.

(* ------------------------------------------------------------------ *)
(** ** Authentication Agent: [app/agents/auth_agent.py] *)

Module AuthAgent.
Local Open Scope Z_scope.
Local Open Scope list_scope.

(** A Python [str] as its list of code points, a [bytes] value as its list
    of byte values. *)
Definition pystr := list Z.

(** An ASCII string literal as a [str]. *)
Definition lit (s : string) : pystr :=
  List.map (fun c => Z.of_nat (nat_of_ascii c)) (list_ascii_of_string s).

Definition is_surrogate (c : Z) : bool := Z.leb 55296 c && Z.leb c 57343.

(** The UTF-8 bytes of one code point. *)
Definition utf8_char (c : Z) : list Z :=
  if Z.ltb c 128 then [c]
  else if Z.ltb c 2048 then [192 + c / 64; 128 + c mod 64]
  else if Z.ltb c 65536 then [224 + c / 4096; 128 + (c / 64) mod 64; 128 + c mod 64]
  else [240 + c / 262144; 128 + (c / 4096) mod 64; 128 + (c / 64) mod 64; 128 + c mod 64].

(** The number of surrogates at the head of a string. *)
Fixpoint surrogate_run (s : pystr) : nat :=
  match s with
  | c :: s' => if is_surrogate c then S (surrogate_run s') else O
  | [] => O
  end.

Definition hex4 (c : Z) : string :=
  let d k := AuditAgent.hex_digit (Z.to_nat ((c / k) mod 16)) in
  String (d 4096) (String (d 256) (String (d 16) (String (d 1) EmptyString))).

(** [str(UnicodeEncodeError)] for the run of [len] surrogates starting at
    [pos], the first of which is [c]. *)
Definition surrogate_message (pos : nat) (c : Z) (len : nat) : string :=
  if Nat.eqb len 1 then
    "'utf-8' codec can't encode character '\u" ++ hex4 c ++ "' in position " ++
    string_of_nat pos ++ ": surrogates not allowed"
  else
    "'utf-8' codec can't encode characters in position " ++ string_of_nat pos ++ "-" ++
    string_of_nat (Nat.add pos (Nat.sub len 1)) ++ ": surrogates not allowed".

Fixpoint utf8_go (pos : nat) (s : pystr) : result (list Z) :=
  match s with
  | [] => Ok []
  | c :: s' =>
      if is_surrogate c then Raise (UnicodeEncodeError (surrogate_message pos c (surrogate_run s)))
      else let? bs := utf8_go (S pos) s' in Ok (utf8_char c ++ bs)
  end.

(** [s.encode('utf-8')]: the strict error handler refuses surrogates. *)
Definition encode_utf8 (s : pystr) : result (list Z) := utf8_go 0 s.

(** [bytes.hex()] / [hexdigest()]: two lowercase hex digits per byte. *)
Definition hex_char (n : Z) : Z := if Z.ltb n 10 then 48 + n else 87 + n.

Definition hex_byte (b : Z) : pystr := [hex_char (b / 16); hex_char (b mod 16)].

Definition hexdigest (bs : list Z) : pystr := List.flat_map hex_byte bs.

(** The claims of a JWT: [sub], [role], [email] and the [exp] NumericDate
    (whole seconds). *)
Record claims := mk_claims {
  sub : option pystr;
  role : option pystr;
  email : option pystr;
  exp : Z
}.

(** The cryptographic libraries used by the agent: [hashlib.sha256] (the
    digest bytes), [bcrypt.hashpw] and [bcrypt.checkpw], and python-jose's
    [jwt.encode] and its signature check and claim parsing, which yields
    [None] on a [JWTError].  The token itself is only ever passed around, so
    its type is left to the implementation. *)
Record crypto := mk_crypto {
  sha256 : list Z -> list Z;
  bcrypt_hashpw : list Z -> list Z -> list Z;
  bcrypt_checkpw : list Z -> list Z -> bool;
  token : Type;
  jwt_encode : claims -> token;
  jwt_decode_sig : token -> option claims
}.

Definition is_byte (b : Z) : Prop := 0 <= b < 256.
Definition is_ascii (b : Z) : Prop := 0 <= b < 128.

(** The properties the agent relies on: SHA-256 maps bytes to bytes without
    collisions, bcrypt hashes ASCII to ASCII and [checkpw] accepts exactly
    the hashed password, and a signed token decodes to its claims. *)
Record ideal (cr : crypto) : Prop := {
  sha256_bytes : forall b, Forall is_byte b -> Forall is_byte (sha256 cr b);
  sha256_inj : forall b1 b2, Forall is_byte b1 -> Forall is_byte b2 ->
                 sha256 cr b1 = sha256 cr b2 -> b1 = b2;
  hashpw_ascii : forall pw salt, Forall is_ascii pw -> Forall is_ascii (bcrypt_hashpw cr pw salt);
  checkpw_hashpw : forall pw salt, bcrypt_checkpw cr pw (bcrypt_hashpw cr pw salt) = true;
  checkpw_only : forall pw pw' salt,
                   bcrypt_checkpw cr pw' (bcrypt_hashpw cr pw salt) = true -> pw' = pw;
  jwt_roundtrip : forall c, jwt_decode_sig cr (jwt_encode cr c) = Some c
}.

(** [ACCESS_TOKEN_EXPIRE_MINUTES = 60 * 24], in seconds. *)
Definition ACCESS_TOKEN_EXPIRE_SECONDS : Z := 60 * 24 * 60.

(** A row of the [users] table. *)
Record user_row := mk_user {
  u_id : nat;
  u_username : pystr;
  u_email : pystr;
  u_hashed_password : pystr;
  u_full_name : pystr;
  u_is_active : pystr;
  u_role : pystr
}.

(** [db.query(User).filter(...).first()].  The sqlite3 driver binds a [str]
    parameter through its UTF-8 encoding, which raises on surrogates. *)
Definition query_first (key : pystr) (field : user_row -> pystr) (db : list user_row) :
    result (option user_row) :=
  let? _ := encode_utf8 key in
  Ok (List.find (fun r => bool_decide (field r = key)) db).

Definition next_user_id (db : list user_row) : nat :=
  S (fold_left (fun m r => Nat.max m (u_id r)) db 0%nat).

Section Agent.
Variable cr : crypto.

(** [_hash_password_sha256] *)
Definition _hash_password_sha256 (password : pystr) : result pystr :=
  let? b := encode_utf8 password in Ok (hexdigest (sha256 cr b)).

(** [hash_password]; [salt] is [bcrypt.gensalt()], and the bcrypt result,
    ASCII, is stored through [.decode('utf-8')]. *)
Definition hash_password (salt : list Z) (password : pystr) : result pystr :=
  let? sha256_hash := _hash_password_sha256 password in
  let? pw := encode_utf8 sha256_hash in
  Ok (bcrypt_hashpw cr pw salt).

(** [verify_password]: any exception gives [False]. *)
Definition verify_password (plain_password hashed_password : pystr) : bool :=
  match (let? sha256_hash := _hash_password_sha256 plain_password in
         let? pw := encode_utf8 sha256_hash in
         let? h := encode_utf8 hashed_password in
         Ok (bcrypt_checkpw cr pw h)) with
  | Ok b => b
  | Raise _ => false
  end.

(** [create_access_token(data)] at time [now] (no [expires_delta]). *)
Definition create_access_token (now : Z) (data : claims) : token cr :=
  jwt_encode cr (mk_claims (sub data) (role data) (email data)
                   (now + ACCESS_TOKEN_EXPIRE_SECONDS)).

(** python-jose's [jwt.decode] at time [now]: a bad signature or an [exp]
    in the past ([exp < now], no leeway) raises a [JWTError]. *)
Definition jwt_decode (now : Z) (t : token cr) : result claims :=
  match jwt_decode_sig cr t with
  | None => Raise (JWTError "Signature verification failed.")
  | Some c => if Z.ltb (exp c) now then Raise (JWTError "Signature has expired.") else Ok c
  end.

(** [verify_token]: [{"username": sub, "role": role or "user"}] or [None]. *)
Definition verify_token (now : Z) (t : token cr) : result (option (pystr * pystr)) :=
  match jwt_decode now t with
  | Ok payload =>
      match sub payload with
      | None => Ok None
      | Some username =>
          Ok (Some (username, match role payload with Some r => r | None => lit "user" end))
      end
  | Raise (JWTError _) => Ok None
  | Raise e => Raise e
  end.

Inductive reg_response : Type :=
  | RegOk (message : pystr) (user : user_row)
  | RegFail (error : pystr).

Inductive login_response : Type :=
  | LoginOk (message : pystr) (access_token : token cr) (user : user_row)
  | LoginFail (error : pystr).

Definition reg_success (r : result (reg_response * list user_row)) : bool :=
  match r with Ok (RegOk _ _, _) => true | _ => false end.

(** [register_user]; the [except Exception] branch returns the message, and
    closing the session discards the uncommitted insert. *)
Definition register_user (salt : list Z) (db : list user_row)
    (username email password full_name role : pystr) : result (reg_response * list user_row) :=
  let attempt :=
    let? existing_user := query_first username u_username db in
    match existing_user with
    | Some _ => Ok (RegFail (lit "Username '" ++ username ++ lit "' already exists"), db)
    | None =>
        let? existing_email := query_first email u_email db in
        match existing_email with
        | Some _ => Ok (RegFail (lit "Email '" ++ email ++ lit "' already registered"), db)
        | None =>
            let? hashed_password := hash_password salt password in
            let user := mk_user (next_user_id db) username email hashed_password full_name
                          (lit "true") role in
            let? _ := encode_utf8 full_name in
            let? _ := encode_utf8 role in
            Ok (RegOk (lit "User '" ++ username ++ lit "' registered successfully!") user,
                db ++ [user])
        end
    end in
  match attempt with
  | Ok r => Ok r
  | Raise e => Ok (RegFail (lit (AuditAgent.str_exn e)), db)
  end.

Definition generic_login_error : pystr := lit "Invalid username or password".

(** [login_user] at time [now]. *)
Definition login_user (now : Z) (db : list user_row) (username password : pystr) :
    result login_response :=
  let attempt :=
    let? found := query_first username u_username db in
    match found with
    | None => Ok (LoginFail generic_login_error)
    | Some user =>
        if negb (verify_password password (u_hashed_password user)) then
          Ok (LoginFail generic_login_error)
        else if negb (bool_decide (u_is_active user = lit "true")) then
          Ok (LoginFail (lit "Account is deactivated"))
        else
          let access_token :=
            create_access_token now
              (mk_claims (Some (u_username user)) (Some (u_role user)) (Some (u_email user)) 0) in
          let shown := match u_full_name user with [] => u_username user | n => n end in
          Ok (LoginOk (lit "Welcome back, " ++ shown ++ lit "!") access_token user)
    end in
  match attempt with
  | Ok r => Ok r
  | Raise e => Ok (LoginFail (lit (AuditAgent.str_exn e)))
  end.

End Agent.

Arguments LoginOk {cr} message access_token user.
Arguments LoginFail {cr} error.


(** A Python [str] has its code points in [0 .. 0x10FFFF]; [no_surrogates]
    further excludes [U+D800 .. U+DFFF]. *)
Definition py_str (s : pystr) : bool := forallb (fun c => Z.leb 0 c && Z.leb c 1114111) s.
Definition no_surrogates (s : pystr) : bool := forallb (fun c => negb (is_surrogate c)) s.

(** A stand-in implementation of the primitives: identity hashes and
    unsigned tokens that carry their claims. *)
Definition toy_crypto : crypto :=
  {| sha256 := fun b => b;
     bcrypt_hashpw := fun pw _ => pw;
     bcrypt_checkpw := fun pw h => bool_decide (pw = h);
     token := claims;
     jwt_encode := fun c => c;
     jwt_decode_sig := fun c => Some c |}.

End AuthAgent.

(* ------------------------------------------------------------------ *)
(** ** Security Agent, continued: blocking, statistics and repeated calls *)

Module SecurityAgentOps.
Import SecurityAgent.
Local Open Scope Q_scope.

(** [block_ip(ip_address, duration_hours)]: [{'success': True, 'message': ...}]. *)
Definition block_ip (st : state) (ip_address : string) (duration_hours : Z) :
    (bool * string) * state :=
  ((true, "IP " ++ ip_address ++ " blocked for " ++ AuditAgent.string_of_Z duration_hours ++ " hours"),
   mk_state (request_counts st) ({[ ip_address ]} ∪ blocked_ips st)).

(** [unblock_ip(ip_address)] *)
Definition unblock_ip (st : state) (ip_address : string) : (bool * string) * state :=
  if bool_decide (ip_address ∈ blocked_ips st) then
    ((true, "IP " ++ ip_address ++ " unblocked"),
     mk_state (request_counts st) (blocked_ips st ∖ {[ ip_address ]}))
  else ((false, "IP " ++ ip_address ++ " was not blocked"), st).

Definition allowed_d (d : decision) : bool :=
  match d with Allowed _ _ _ _ => true | _ => false end.

(** Successive calls [check_rate_limit(identifier, limit_type)] at the
    times [times] (the values [time.time()] returns), threading the agent's
    state; an exception stops the sequence. *)
Fixpoint run_checks (st : state) (identifier limit_type : string) (times : list Q) :
    result (list decision * state) :=
  match times with
  | [] => Ok ([], st)
  | now :: rest =>
      let? r := check_rate_limit st identifier limit_type now in
      let '(d, st1) := r in
      let? r2 := run_checks st1 identifier limit_type rest in
      let '(ds, st2) := r2 in
      Ok (d :: ds, st2)
  end.

(** The number of accepted calls of a history (call time, accepted) that
    fall in the window [(lo, hi]]. *)
Definition window_count (hist : list (Q * bool)) (lo hi : Q) : nat :=
  length (List.filter (fun p => snd p && negb (Qle_bool (fst p) lo) && Qle_bool (fst p) hi) hist).

End SecurityAgentOps.

(* ------------------------------------------------------------------ *)
(** ** Search Agent, continued *)

Module SearchAgentOps.
Import SearchAgent.

(** A string of ASCII characters only, on which Python's [str.lower] and
    [str.upper] act as [lower] and [upper] do. *)
Definition ascii_str (s : string) : bool :=
  forallb (fun c => Nat.ltb (nat_of_ascii c) 128) (list_ascii_of_string s).

End SearchAgentOps.

(* ------------------------------------------------------------------ *)
(** ** Tax Calculation Engine, continued: [GSTCalculator.get_invoice_line] *)

Module GSTCalculatorOps.
Import PyNum GSTCalculator.



End GSTCalculatorOps.

(* ------------------------------------------------------------------ *)
(** ** Input Validator: [app/agents/validator.py]

    A Python [str] is modelled as its list of code points ([pystr]);
    [cps] reads a Rocq string literal (one byte per character) as one.
    The character classes that depend on Unicode are those of CPython 3.11
    (Unicode 14.0.0): [\d] of a [str] pattern matches the decimal digits
    (category Nd), and [str.isspace] (also used by [str.strip]) holds for
    the whitespace characters.  Numbers in the item dictionaries are the
    values the API passes: [int], [float] (a finite float, by its exact
    value), [bool] and [None]. *)

Module Validator.
Local Open Scope list_scope.

(** A Python [str]: its code points. *)
Definition pystr : Type := list Z.

(** The [str] of a string literal. *)
Definition cps (s : string) : pystr :=
  map (fun c => Z.of_nat (nat_of_ascii c)) (list_ascii_of_string s).

Definition in_ranges (rs : list (Z * Z)) (c : Z) : bool :=
  existsb (fun r => Z.leb (fst r) c && Z.leb c (snd r)) rs.

(** The code points of category Nd (Unicode 14.0.0): [\d]. *)
Definition DECIMAL_RANGES : list (Z * Z) :=
  [(48, 57); (1632, 1641); (1776, 1785); (1984, 1993); (2406, 2415); (2534, 2543);
   (2662, 2671); (2790, 2799); (2918, 2927); (3046, 3055); (3174, 3183); (3302, 3311);
   (3430, 3439); (3558, 3567); (3664, 3673); (3792, 3801); (3872, 3881); (4160, 4169);
   (4240, 4249); (6112, 6121); (6160, 6169); (6470, 6479); (6608, 6617); (6784, 6793);
   (6800, 6809); (6992, 7001); (7088, 7097); (7232, 7241); (7248, 7257); (42528, 42537);
   (43216, 43225); (43264, 43273); (43472, 43481); (43504, 43513); (43600, 43609);
   (44016, 44025); (65296, 65305); (66720, 66729); (68912, 68921); (69734, 69743);
   (69872, 69881); (69942, 69951); (70096, 70105); (70384, 70393); (70736, 70745);
   (70864, 70873); (71248, 71257); (71360, 71369); (71472, 71481); (71904, 71913);
   (72016, 72025); (72784, 72793); (73040, 73049); (73120, 73129); (92768, 92777);
   (92864, 92873); (93008, 93017); (120782, 120831); (123200, 123209); (123632, 123641);
   (125264, 125273); (130032, 130041)]%Z.

(** The code points for which [str.isspace] holds (Unicode 14.0.0). *)
Definition SPACE_RANGES : list (Z * Z) :=
  [(9, 13); (28, 32); (133, 133); (160, 160); (5760, 5760); (8192, 8202); (8232, 8233);
   (8239, 8239); (8287, 8287); (12288, 12288)]%Z.

(** [str.isspace] of one code point. *)
Definition py_isspace (c : Z) : bool := in_ranges SPACE_RANGES c.

(** [\d] *)
Definition py_isdecimal (c : Z) : bool := in_ranges DECIMAL_RANGES c.

Fixpoint lstrip_go (cs : pystr) : pystr :=
  match cs with
  | c :: rest => if py_isspace c then lstrip_go rest else cs
  | [] => []
  end.

(** [s.strip()] *)
Definition py_strip (s : pystr) : pystr := rev (lstrip_go (rev (lstrip_go s))).

(** [not s] *)
Definition is_empty (s : pystr) : bool := match s with [] => true | _ => false end.

Definition in_range (lo hi : Z) (c : Z) : bool := Z.leb lo c && Z.leb c hi.

Definition is_digit : Z -> bool := in_range 48 57.
Definition is_upper : Z -> bool := in_range 65 90.
Definition is_lower : Z -> bool := in_range 97 122.
Definition is_char (x : Z) (c : Z) : bool := Z.eqb c x.

(** A compiled pattern: a sequence of character classes, each repeated
    between [min] and [max] times ([None]: no upper bound), and [$]. *)
Inductive atom : Type :=
  | AClass (cls : Z -> bool) (min : nat) (max : option nat)
  | AEnd.

(** The number of leading characters of [s] in the class. *)
Fixpoint class_run (cls : Z -> bool) (s : pystr) : nat :=
  match s with
  | c :: rest => if cls c then S (class_run cls rest) else O
  | [] => O
  end.

(** [re.match(pattern, s) is not None] for a pattern starting with [^]:
    some way of consuming the repetitions from the start of [s] leads to
    the end of the pattern; [$] matches at the end of [s] or before a final
    newline. *)
Fixpoint rmatch (atoms : list atom) (s : pystr) : bool :=
  match atoms with
  | [] => true
  | AEnd :: rest =>
      match s with
      | [] => rmatch rest s
      | [c] => Z.eqb c 10 && rmatch rest s
      | _ => false
      end
  | AClass cls mn mx :: rest =>
      let run := class_run cls s in
      let hi := match mx with Some m => Nat.min m run | None => run end in
      existsb (fun k => rmatch rest (skipn k s)) (seq mn (hi + 1 - mn))
  end.

(** [GST_PATTERN = r'^[0-9]{2}[A-Z]{5}[0-9]{4}[A-Z]{1}[1-9A-Z]{1}Z[0-9A-Z]{1}$'] *)
Definition GST_PATTERN : list atom :=
  [AClass is_digit 2 (Some 2); AClass is_upper 5 (Some 5); AClass is_digit 4 (Some 4);
   AClass is_upper 1 (Some 1); AClass (fun c => in_range 49 57 c || is_upper c) 1 (Some 1);
   AClass (is_char 90) 1 (Some 1); AClass (fun c => is_digit c || is_upper c) 1 (Some 1);
   AEnd].

(** The class required at each of the 15 positions of a GST number, as
    the pattern above reads position by position. *)
Definition GST_POSITIONS : list (Z -> bool) :=
  repeat is_digit 2 ++ repeat is_upper 5 ++ repeat is_digit 4 ++
  [is_upper; (fun c => in_range 49 57 c || is_upper c); is_char 90;
   (fun c => is_digit c || is_upper c)].

(** [PHONE_PATTERN = r'^[6-9]\d{9}$'] *)
Definition PHONE_PATTERN : list atom :=
  [AClass (in_range 54 57) 1 (Some 1); AClass py_isdecimal 9 (Some 9); AEnd].

(** [a-zA-Z0-9._%+-] and [a-zA-Z0-9.-] *)
Definition email_local (c : Z) : bool :=
  is_lower c || is_upper c || is_digit c || is_char 46 c || is_char 95 c ||
  is_char 37 c || is_char 43 c || is_char 45 c.
Definition email_domain (c : Z) : bool :=
  is_lower c || is_upper c || is_digit c || is_char 46 c || is_char 45 c.

(** [EMAIL_PATTERN = r'^[a-zA-Z0-9._%+-]+@[a-zA-Z0-9.-]+\.[a-zA-Z]{2,}$'] *)
Definition EMAIL_PATTERN : list atom :=
  [AClass email_local 1 None; AClass (is_char 64) 1 (Some 1); AClass email_domain 1 None;
   AClass (is_char 46) 1 (Some 1); AClass (fun c => is_lower c || is_upper c) 2 None; AEnd].

(** [validate_customer_name(name)] *)
Definition validate_customer_name (name : pystr) : bool * string :=
  if is_empty name || is_empty (py_strip name) then
    (false, "Customer name cannot be empty")
  else if Nat.ltb (length (py_strip name)) 2 then
    (false, "Customer name must be at least 2 characters")
  else if Nat.ltb 100 (length name) then
    (false, "Customer name too long (max 100 characters)")
  else (true, "Valid").

(** [phone.replace(" ", "").replace("-", "")] *)
Definition phone_clean (phone : pystr) : pystr :=
  List.filter (fun c => negb (Z.eqb c 45)) (List.filter (fun c => negb (Z.eqb c 32)) phone).

(** [validate_phone(phone)] *)
Definition validate_phone (phone : pystr) : bool * string :=
  if negb (rmatch PHONE_PATTERN (phone_clean phone)) then
    (false, "Invalid phone number (must be 10 digits starting with 6-9)")
  else (true, "Valid").

(** [validate_email(email)] *)
Definition validate_email (email : pystr) : bool * string :=
  if is_empty email || is_empty (py_strip email) then (false, "Email cannot be empty")
  else if negb (rmatch EMAIL_PATTERN email) then
    (false, "Invalid email format")
  else (true, "Valid").

(** [validate_gst_number(gst_number)] *)
Definition validate_gst_number (gst_number : pystr) : bool * string :=
  if is_empty gst_number then (true, "Valid")
  else if negb (rmatch GST_PATTERN gst_number) then
    (false, "Invalid GST number format (must be 15 characters)")
  else (true, "Valid").

(** [validate_item_name(name)] *)
Definition validate_item_name (name : pystr) : bool * string :=
  if is_empty name || is_empty (py_strip name) then
    (false, "Item name cannot be empty")
  else if Nat.ltb (length (py_strip name)) 2 then
    (false, "Item name must be at least 2 characters")
  else if Nat.ltb 200 (length name) then
    (false, "Item name too long (max 200 characters)")
  else (true, "Valid").

(** A number of an item dictionary. *)
Inductive pynum : Type :=
  | NInt (z : Z)
  | NFloat (x : Q)
  | NBool (b : bool)
  | NNone.

(** [float(v)]; [None] is the [TypeError] of [float(None)]. *)
Definition py_float (v : pynum) : option Q :=
  match v with
  | NInt z => Some (inject_Z z)
  | NFloat x => Some x
  | NBool b => Some (if b then 1 else 0)%Q
  | NNone => None
  end.

(** [int(v)]: a float is truncated toward zero; [None] is the [TypeError]
    of [int(None)]. *)
Definition py_int_num (v : pynum) : option Z :=
  match v with
  | NInt z => Some z
  | NFloat x => Some (SecurityAgent.py_int_of x)
  | NBool b => Some (if b then 1 else 0)%Z
  | NNone => None
  end.

(** [validate_price(price)] *)
Definition validate_price (price : pynum) : bool * string :=
  match py_float price with
  | None => (false, "Price must be a number")
  | Some price_float =>
      if negb (Qle_bool 0 price_float) then (false, "Price cannot be negative")
      else if negb (Qle_bool price_float 10000000) then
        (false, "Price too high (max ‚Çπ1,00,00,000)")
      else (true, "Valid")
  end.

(** [validate_quantity(quantity)] *)
Definition validate_quantity (quantity : pynum) : bool * string :=
  match py_int_num quantity with
  | None => (false, "Quantity must be a whole number")
  | Some qty_int =>
      if Z.leb qty_int 0 then (false, "Quantity must be positive")
      else if Z.ltb 100000 qty_int then (false, "Quantity too high (max 1,00,000)")
      else (true, "Valid")
  end.

(** [rate in VALID_GST_RATES] compares by [==]: [None] equals no number. *)
Definition validate_gst_rate (rate : pynum) : bool * string :=
  let found := match py_float rate with
               | Some x => existsb (fun v => Qeq_bool x (inject_Z v)) [0; 5; 12; 18; 28]%Z
               | None => false
               end in
  if negb found then (false, "GST rate must be one of [0, 5, 12, 18, 28]")
  else (true, "Valid").

(** An item dictionary; a missing key is [None]. *)
Record vitem := mk_vitem {
  v_name : option pystr;
  v_price : option pynum;
  v_quantity : option pynum;
  v_gst_rate : option pynum
}.

Definition get_or {A} (o : option A) (d : A) : A := match o with Some a => a | None => d end.

(** [validate_invoice_item(item)], with the defaults of [item.get]. *)
Definition validate_invoice_item (item : vitem) : bool * string :=
  let (ok1, msg1) := validate_item_name (get_or (v_name item) []) in
  if negb ok1 then (false, "Item name error: " ++ msg1)%string else
  let (ok2, msg2) := validate_price (get_or (v_price item) (NInt 0)) in
  if negb ok2 then (false, "Price error: " ++ msg2)%string else
  let (ok3, msg3) := validate_quantity (get_or (v_quantity item) (NInt 0)) in
  if negb ok3 then (false, "Quantity error: " ++ msg3)%string else
  let (ok4, msg4) := validate_gst_rate (get_or (v_gst_rate item) (NInt 0)) in
  if negb ok4 then (false, "GST rate error: " ++ msg4)%string else
  (true, "Valid").

End Validator.

(* ------------------------------------------------------------------ *)
(** ** Authentication, continued: [get_current_user] *)

Module AuthAgentOps.
Import AuthAgent.
Local Open Scope Z_scope.
Local Open Scope list_scope.

Section Agent.
Variable cr : crypto.

(** [get_current_user(token)] at time [now]: the [id], [username],
    [email], [full_name] and [role] of the first user named by the token.
    Only [finally: db.close()] surrounds the query, so its exceptions
    propagate. *)
Definition get_current_user (now : Z) (db : list user_row) (t : token cr) :
    result (option (nat * pystr * pystr * pystr * pystr)) :=
  let? token_data := verify_token cr now t in
  match token_data with
  | None => Ok None
  | Some (username, _) =>
      let? user := query_first username u_username db in
      match user with
      | None => Ok None
      | Some u => Ok (Some (u_id u, u_username u, u_email u, u_full_name u, u_role u))
      end
  end.

End Agent.

End AuthAgentOps.

(* ------------------------------------------------------------------ *)
(** ** Database operations: [create_or_get_customer] in
    [app/models/db_operations.py] *)

Module CustomerOps.
Local Open Scope list_scope.

(** A row of the [customers] table ([app/models/database.py]); the
    timestamps are the [datetime.now()] of their writes. *)
Record customer_row := mk_customer_row {
  c_id : nat;
  c_name : string;
  c_phone : string;
  c_email : string;
  c_address : string;
  c_gst_number : string;
  c_state : string;
  c_created_at : Q;
  c_updated_at : Q
}.

(** SQLite's integer primary key of a new row: one more than the largest. *)
Definition next_customer_id (db : list customer_row) : nat :=
  S (fold_left (fun m r => Nat.max m (c_id r)) db 0%nat).

(** [customer_data.get(k, default)] of a dictionary of strings. *)
Definition dget (data : gmap string string) (k : string) (default : string) : string :=
  match data !! k with Some v => v | None => default end.

(** [DatabaseOperations.create_or_get_customer(db, customer_data)] at time
    [now]: the first customer with the same phone is updated (a missing
    optional key keeps its value), otherwise a new row is inserted with the
    defaults of the code.  A missing ['phone'] or ['name'] raises
    [KeyError]. *)
Definition create_or_get_customer (now : Q) (db : list customer_row)
    (customer_data : gmap string string) : result (customer_row * list customer_row) :=
  let? phone := InvoiceAgentDB.getk "phone" (customer_data !! "phone") in
  match List.find (fun r => String.eqb (c_phone r) phone) db with
  | Some existing =>
      let? name := InvoiceAgentDB.getk "name" (customer_data !! "name") in
      let updated :=
        mk_customer_row (c_id existing) name (c_phone existing)
          (dget customer_data "email" (c_email existing))
          (dget customer_data "address" (c_address existing))
          (dget customer_data "gst_number" (c_gst_number existing))
          (dget customer_data "state" (c_state existing))
          (c_created_at existing) now in
      Ok (updated, map (fun r => if Nat.eqb (c_id r) (c_id existing) then updated else r) db)
  | None =>
      let? name := InvoiceAgentDB.getk "name" (customer_data !! "name") in
      let customer :=
        mk_customer_row (next_customer_id db) name phone
          (dget customer_data "email" "") (dget customer_data "address" "")
          (dget customer_data "gst_number" "") (dget customer_data "state" "Telangana")
          now now in
      Ok (customer, db ++ [customer])
  end.

End CustomerOps.

(* ================================================================== *)
(** * Proofs *)

Module StringFacts.

Lemma append_cons (c : ascii) (s t : string) :
  (String c s ++ t)%string = String c (s ++ t).
Proof. reflexivity. Qed.

Lemma append_nil_r (s : string) : (s ++ "")%string = s.
Proof. induction s as [|c s IH]; [reflexivity|]. now rewrite append_cons, IH. Qed.

Lemma append_assoc (a b c : string) : (a ++ (b ++ c))%string = ((a ++ b) ++ c)%string.
Proof. induction a as [|x a IH]; [reflexivity|]. now rewrite !append_cons, IH. Qed.

(** Every element of [xs] occurs in [sep.join(xs)]. *)
Lemma join_contains (sep e : string) (xs : list string) :
  In e xs -> exists pre post, join sep xs = (pre ++ e ++ post)%string.
Proof.
  induction xs as [|x xs IH]; intros Hin; [destruct Hin|].
  destruct Hin as [<- | Hin].
  - destruct xs as [|y ys].
    + exists "", "". simpl. now rewrite append_nil_r.
    + exists "", (sep ++ join sep (y :: ys))%string. reflexivity.
  - destruct (IH Hin) as (pre & post & Hj).
    destruct xs as [|y ys]; [destruct Hin|].
    exists (x ++ sep ++ pre)%string, post.
    change (join sep (x :: y :: ys)) with (x ++ sep ++ join sep (y :: ys))%string.
    rewrite Hj. now rewrite !append_assoc.
Qed.

End StringFacts.


(** Facts about the error monad and Python's numbers. *)
Module PyNumFacts.
Import SpecFloat PyNum.

Lemma bind_assoc {A B C} (m : result A) (f : A -> result B) (g : B -> result C) :
  bind (bind m f) g = bind m (fun a => bind (f a) g).
Proof. now destruct m. Qed.

Lemma bind_ext {A B} (m : result A) (f g : A -> result B) :
  (forall a, f a = g a) -> bind m f = bind m g.
Proof. intros H. destruct m; simpl; auto. Qed.

#[export] Instance bind_proper {A B} :
  Proper (eq ==> pointwise_relation A eq ==> eq) (@bind A B).
Proof. intros m ? <- f g H. now apply bind_ext. Qed.

(** The only exception the conversions of [int] operands raise. *)
Definition E_ov : exn := OverflowError "int too large to convert to float".

(** [m] succeeds or raises [E_ov]. *)
Definition only_ov {A} (m : result A) : Prop :=
  match m with Ok _ => True | Raise e => e = E_ov end.

Lemma only_ov_bind {A B} (m : result A) (f : A -> result B) :
  only_ov m -> (forall a, only_ov (f a)) -> only_ov (bind m f).
Proof. destruct m; simpl; auto. Qed.

(** Two computations that can only raise [E_ov] commute. *)
Lemma bind_swap {A B C} (m1 : result A) (m2 : result B) (k : A -> B -> result C) :
  only_ov m1 -> only_ov m2 ->
  (let? a := m1 in let? b := m2 in k a b) = (let? b := m2 in let? a := m1 in k a b).
Proof. destruct m1, m2; simpl; intros; subst; reflexivity. Qed.

Lemma int_to_float_ov (z : Z) : only_ov (int_to_float z).
Proof. unfold int_to_float. now destruct (Z.ltb _ _). Qed.

Lemma as_float_ov (x : num) : only_ov (as_float x).
Proof. destruct x; simpl; [apply int_to_float_ov | exact I]. Qed.

Lemma num_add_ov (x y : num) : only_ov (num_add x y).
Proof.
  destruct x, y; simpl; try exact I;
    repeat (apply only_ov_bind; [apply as_float_ov || apply int_to_float_ov || exact I|intros ?]);
    exact I.
Qed.

Lemma num_mul_ov (x y : num) : only_ov (num_mul x y).
Proof.
  destruct x, y; simpl; try exact I;
    repeat (apply only_ov_bind; [apply as_float_ov || apply int_to_float_ov || exact I|intros ?]);
    exact I.
Qed.

(** [a + x1 + x2 + ...] from left to right; [py_sum] starts from [0]. *)
Definition sum_from (a : num) (xs : list num) : result num :=
  fold_left (fun acc x => let? a := acc in num_add a x) xs (Ok a).

Lemma py_sum_from (xs : list num) : py_sum xs = sum_from (NInt 0) xs.
Proof. reflexivity. Qed.

Lemma fold_sum_bind (xs : list num) (m : result num) :
  fold_left (fun acc x => let? a := acc in num_add a x) xs m = bind m (fun a => sum_from a xs).
Proof.
  revert m; induction xs as [|x xs IH]; intros m; simpl.
  - now destruct m.
  - rewrite IH. destruct m as [a|e]; simpl; [|reflexivity].
    unfold sum_from. simpl. now rewrite IH.
Qed.

Lemma sum_from_cons (a x : num) (xs : list num) :
  sum_from a (x :: xs) = let? b := num_add a x in sum_from b xs.
Proof. unfold sum_from at 1. simpl. apply fold_sum_bind. Qed.

Lemma sum_from_snoc (a x : num) (xs : list num) :
  sum_from a (xs ++ [x]) = let? b := sum_from a xs in num_add b x.
Proof. unfold sum_from. now rewrite fold_left_app. Qed.

Lemma sum_from_ov (a : num) (xs : list num) : only_ov (sum_from a xs).
Proof.
  revert a; induction xs as [|x xs IH]; intros a; [exact I|].
  rewrite sum_from_cons. apply only_ov_bind; [apply num_add_ov | apply IH].
Qed.

Lemma int_to_float_0 : int_to_float 0 = Ok (S754_zero false).
Proof. reflexivity. Qed.

Lemma sum_from_floats (a : float) (xs : list float) :
  sum_from (NFloat a) (map NFloat xs) = Ok (NFloat (fold_left fadd xs a)).
Proof.
  revert a; induction xs as [|x xs IH]; intros a; [reflexivity|].
  simpl map. rewrite sum_from_cons. simpl. apply IH.
Qed.

(** The sum of a non-empty list of floats never raises. *)
Lemma py_sum_floats (x : float) (xs : list float) :
  py_sum (map NFloat (x :: xs)) = Ok (NFloat (fold_left fadd xs (fadd (S754_zero false) x))).
Proof.
  rewrite py_sum_from. simpl map. rewrite sum_from_cons. simpl.
  apply sum_from_floats.
Qed.

(** An [int] of absolute value at most [b]; a float has no bound. *)
Definition bounded (b : Z) (x : num) : Prop :=
  match x with NInt z => (Z.abs z <= b)%Z | NFloat _ => True end.

Lemma int_to_float_ok (z : Z) : (Z.abs z < float_limit)%Z -> exists f, int_to_float z = Ok f.
Proof. intros H. unfold int_to_float. apply Z.ltb_lt in H. rewrite H. eauto. Qed.

Lemma as_float_ok (b : Z) (x : num) :
  bounded b x -> (b < float_limit)%Z -> exists f, as_float x = Ok f.
Proof. destruct x as [z|f]; simpl; [intros; apply int_to_float_ok; lia | eauto]. Qed.

Lemma num_add_bounded (a b : Z) (x y : num) :
  bounded a x -> bounded b y -> (a < float_limit)%Z -> (b < float_limit)%Z ->
  exists r, num_add x y = Ok r /\ bounded (a + b) r.
Proof.
  intros Hx Hy Ha Hb.
  destruct x as [zx|fx], y as [zy|fy]; simpl in *.
  - eexists. split; [reflexivity|]. simpl. lia.
  - destruct (int_to_float_ok zx) as [f ->]; [lia|]. simpl. eauto.
  - destruct (int_to_float_ok zy) as [f ->]; [lia|]. simpl. eauto.
  - eauto.
Qed.

Lemma num_mul_bounded (a b : Z) (x y : num) :
  bounded a x -> bounded b y -> (a < float_limit)%Z -> (b < float_limit)%Z ->
  exists r, num_mul x y = Ok r /\ bounded (a * b) r.
Proof.
  intros Hx Hy Ha Hb.
  destruct x as [zx|fx], y as [zy|fy]; simpl in *.
  - eexists. split; [reflexivity|]. simpl. rewrite Z.abs_mul. apply Z.mul_le_mono_nonneg; lia.
  - destruct (int_to_float_ok zx) as [f ->]; [lia|]. simpl. eauto.
  - destruct (int_to_float_ok zy) as [f ->]; [lia|]. simpl. eauto.
  - eauto.
Qed.

Lemma sum_from_bounded (b : Z) (xs : list num) :
  forall (B : Z) (a : num),
  List.Forall (bounded b) xs -> bounded B a -> (0 <= b)%Z -> (0 <= B)%Z ->
  (B + Z.of_nat (length xs) * b < float_limit)%Z ->
  exists r, sum_from a xs = Ok r /\ bounded (B + Z.of_nat (length xs) * b) r.
Proof.
  induction xs as [|x xs IH]; intros B a Hxs Ha Hb HB Hlt.
  - exists a. split; [reflexivity|]. simpl. now rewrite Z.add_0_r.
  - inversion Hxs as [|? ? Hx Hxs']; subst.
    simpl length in *. rewrite Nat2Z.inj_succ in *.
    destruct (num_add_bounded B b a x) as (c & Hc & Hcb); [assumption|assumption|nia|nia|].
    rewrite sum_from_cons, Hc. simpl.
    destruct (IH (B + b)%Z c Hxs' Hcb) as (r & Hr & Hrb); [assumption|lia|nia|].
    exists r. split; [exact Hr|].
    replace (B + Z.succ (Z.of_nat (length xs)) * b)%Z
      with (B + b + Z.of_nat (length xs) * b)%Z by ring.
    exact Hrb.
Qed.

(** The sign bit of a float is clear (NaN counts as such). *)
Definition sign_pos (f : float) : Prop :=
  match f with
  | S754_zero s | S754_infinity s | S754_finite s _ _ => s = false
  | S754_nan => True
  end.

Lemma binary_round_aux_pos (m e : Z) (l : location) :
  sign_pos (binary_round_aux prec emax false m e l).
Proof.
  unfold binary_round_aux.
  destruct (shr_fexp prec emax m e l) as [r1 e1].
  destruct (shr_fexp prec emax _ e1 loc_Exact) as [r2 e2].
  destruct (shr_m r2); simpl; try exact I; try reflexivity.
  destruct (Z.leb _ _); reflexivity.
Qed.

Lemma binary_normalize_pos (z : Z) :
  (0 <= z)%Z -> sign_pos (binary_normalize prec emax z 0 false).
Proof.
  intros Hz. destruct z as [|p|p]; simpl; [reflexivity| |lia].
  unfold binary_round. destruct (shl_align _ _ _). apply binary_round_aux_pos.
Qed.

Lemma fmul_pos (f g : float) : sign_pos f -> sign_pos g -> sign_pos (fmul f g).
Proof.
  destruct f as [sf|sf| |sf mf ef], g as [sg|sg| |sg mg eg]; simpl; intros Hf Hg;
    subst; simpl; try reflexivity; try exact I.
  apply binary_round_aux_pos.
Qed.

Lemma fdiv_pos (f g : float) : sign_pos f -> sign_pos g -> sign_pos (fdiv f g).
Proof.
  destruct f as [sf|sf| |sf mf ef], g as [sg|sg| |sg mg eg]; simpl; intros Hf Hg;
    subst; simpl; try reflexivity; try exact I.
  unfold fdiv, SFdiv. destruct (SFdiv_core_binary _ _ _ _ _ _) as [[mz ez] lz].
  apply binary_round_aux_pos.
Qed.

Lemma sign_pos_not_negzero (f : float) : sign_pos f -> f <> S754_zero true.
Proof. destruct f; simpl; congruence. Qed.

Lemma negzero_dec (f : float) : {f = S754_zero true} + {f <> S754_zero true}.
Proof. destruct f as [[]|s| |s m e]; [left; reflexivity|right; discriminate ..]. Qed.

(** Adding [0.0] on the left changes nothing but a negative zero. *)
Lemma fadd_zero_l (f : float) : f <> S754_zero true -> fadd (S754_zero false) f = f.
Proof. destruct f as [[]|[]| |s m e]; simpl; congruence. Qed.

(** The sign of a zero added to a float with a clear sign bit does not matter. *)
Lemma fadd_zero_sign (f : float) (s : bool) :
  sign_pos f -> fadd f (S754_zero s) = fadd f (S754_zero false).
Proof. destruct f as [sf|sf| |sf m e]; simpl; intros H; subst; destruct s; reflexivity. Qed.

Lemma to_Q_finite_neg (m : positive) (e : Z) : (to_Q (S754_finite true m e) < 0)%Q.
Proof.
  unfold to_Q, Qlt. destruct e as [|p|p]; simpl; try lia;
    (assert (0 < 2 ^ Z.pos p)%Z by (apply Z.pow_pos_nonneg; lia); nia).
Qed.

Lemma to_Q_finite_pos (m : positive) (e : Z) : (0 < to_Q (S754_finite false m e))%Q.
Proof.
  unfold to_Q, Qlt. destruct e as [|p|p]; simpl; try lia;
    (assert (0 < 2 ^ Z.pos p)%Z by (apply Z.pow_pos_nonneg; lia); nia).
Qed.

(** A number greater than [0] converts to a float with a clear sign bit. *)
Lemma positive_sign (x : num) (f : float) :
  num_lt (NInt 0) x = true -> as_float x = Ok f -> sign_pos f.
Proof.
  unfold num_lt. destruct x as [z|g]; simpl.
  - intros Hz Hf. unfold int_to_float in Hf. destruct (Z.ltb _ _); [|discriminate].
    injection Hf as <-. apply binary_normalize_pos.
    destruct z; simpl in Hz; try discriminate; lia.
  - intros Hg [= <-]. destruct g as [s|s| |s m e]; simpl in *; try discriminate;
      destruct s; try reflexivity; try discriminate.
    destruct (Qcompare _ _) eqn:E; try discriminate.
    apply Qlt_alt in E. exfalso. apply (Qlt_irrefl 0).
    apply Qlt_trans with (to_Q (S754_finite true m e)); [exact E | apply to_Q_finite_neg].
Qed.

End PyNumFacts.

Module GSTCalculatorFacts.
Import SpecFloat PyNum PyNumFacts GSTCalculator GSTSpec.
Local Open Scope list_scope.

Lemma item_errors_nil (idx : nat) (it : item) :
  item_errors idx it = [] <-> item_ok it = true.
Proof.
  destruct it as [[n|] [p|] [q|] [r|]]; unfold item_errors, item_ok; simpl;
    try (split; [discriminate | discriminate]).
  destruct (num_le p (NInt 0)), (num_le q (NInt 0)), (in_valid_rates r); simpl;
    split; congruence.
Qed.

Lemma errors_from_nil (idx : nat) (items : list item) :
  errors_from idx items = [] <-> forallb item_ok items = true.
Proof.
  revert idx; induction items as [|it rest IH]; intros idx; simpl; [tauto|].
  rewrite app_nil, item_errors_nil, IH, andb_true_iff. tauto.
Qed.

Lemma validate_valid (items : list item) :
  fst (validate items) = true <-> items <> [] /\ forallb item_ok items = true.
Proof.
  destruct items as [|it rest]; simpl.
  - split; [discriminate | intros [H _]; congruence].
  - rewrite <- (errors_from_nil 0 (it :: rest)). simpl.
    destruct (item_errors 0 it ++ errors_from 1 rest)%list; simpl.
    + split; [intros _; split; [discriminate | reflexivity] | reflexivity].
    + split; [discriminate | intros [_ H]; discriminate].
Qed.

Lemma calculate_invalid (items : list item) :
  fst (validate items) = false ->
  calculate items = Raise (ValueError ("Invalid input: " ++ join ", " (snd (validate items)))%string).
Proof.
  intros Hv. unfold calculate. destruct (validate items) as [valid errors].
  simpl in *. now subst valid.
Qed.

Lemma errors_from_invalid_rate (idx : nat) (items : list item) (it : item) (r : num) :
  In it items -> gst_rate it = Some r -> in_valid_rates r = false ->
  errors_from idx items <> [].
Proof.
  intros Hin Hr Hbad Hnil. apply errors_from_nil in Hnil.
  rewrite forallb_forall in Hnil. specialize (Hnil it Hin).
  destruct it as [[n|] [p|] [q|] [r'|]]; simpl in *; try discriminate.
  injection Hr as ->. rewrite Hbad, andb_false_r in Hnil. discriminate.
Qed.

(** A valid rate is one of the five [int]s, or a float equal to one. *)
Lemma in_valid_rates_cases (r : num) :
  in_valid_rates r = true ->
  r = NInt 0 \/ r = NInt 5 \/ r = NInt 12 \/ r = NInt 18 \/ r = NInt 28 \/
  exists f, r = NFloat f /\ f <> S754_nan.
Proof.
  unfold in_valid_rates, VALID_RATES. destruct r as [z|f].
  - intros H. apply existsb_exists in H as (v & Hin & Hv). unfold num_eq in Hv.
    destruct Hin as [<-|[<-|[<-|[<-|[<-|[]]]]]]; simpl in Hv;
      destruct (Z.compare z _) eqn:E; try discriminate; apply Z.compare_eq in E; subst;
      [left | right; left | right; right; left | right; right; right; left
      | right; right; right; right; left]; reflexivity.
  - intros H. right; right; right; right; right. exists f. split; [reflexivity|].
    intros ->. revert H. vm_compute. discriminate.
Qed.

Lemma in_valid_rates_nan : in_valid_rates (NFloat S754_nan) = false.
Proof. reflexivity. Qed.

(** [gst_rate / 100] never raises for a valid rate, and gives a float. *)
Lemma valid_rate_div (r : num) :
  in_valid_rates r = true -> exists f, num_truediv r (NInt 100) = Ok (NFloat f).
Proof.
  intros Hr. apply in_valid_rates_cases in Hr as [->|[->|[->|[->|[->|(f & -> & _)]]]]];
    eexists; reflexivity.
Qed.

Lemma num_mul_float_r (x y : num) (f : float) :
  num_mul x (NFloat f) = Ok y -> exists g, y = NFloat g.
Proof.
  destruct x as [z|g]; simpl.
  - destruct (int_to_float z); simpl; [intros [= <-]; eauto | discriminate].
  - intros [= <-]. eauto.
Qed.

Lemma half_ok (g : float) :
  num_truediv (NFloat g) (NInt 2) = Ok (NFloat (fdiv g (binary_normalize prec emax 2 0 false))).
Proof. reflexivity. Qed.

Lemma t_rate_ok (n : string) (p q r : num) :
  in_valid_rates r = true -> only_ov (spec_item (n, p, q, r)).
Proof.
  intros Hr. destruct (valid_rate_div r Hr) as [f Hf]. unfold spec_item.
  rewrite Hf. cbn [bind].
  destruct (num_mul p q) as [s|e] eqn:Hs; [|pose proof (num_mul_ov p q) as H; rewrite Hs in H; exact H].
  cbn [bind]. destruct (num_mul s (NFloat f)) as [g|e] eqn:Hg;
    [|pose proof (num_mul_ov s (NFloat f)) as H; rewrite Hg in H; exact H].
  destruct (num_mul_float_r s g f Hg) as [gf ->]. cbn [bind]. rewrite half_ok. cbn [bind].
  apply only_ov_bind; [apply num_add_ov | intros; exact I].
Qed.

Definition t_rate (t : string * num * num * num) : num :=
  let '(_, _, _, r) := t in r.

Lemma map_result_ov (ts : list (string * num * num * num)) :
  List.Forall (fun t => in_valid_rates (t_rate t) = true) ts ->
  only_ov (map_result spec_item ts).
Proof.
  induction ts as [|[[[n p] q] r] ts IH]; intros Hts; [exact I|].
  inversion Hts as [|? ? Hr Hts']; subst. simpl.
  apply only_ov_bind; [now apply t_rate_ok | intros v].
  apply only_ov_bind; [now apply IH | intros; exact I].
Qed.

(** The loop of [calculate] on items with a valid rate: the spec's item
    values, and the running totals as sums of them. *)
Lemma calc_loop_spec (ts : list (string * num * num * num)) (s g : num) (ds : list detail) :
  List.Forall (fun t => in_valid_rates (t_rate t) = true) ts ->
  calc_loop (map to_item ts) s g ds =
    (let? vs := map_result spec_item ts in
     let? s' := sum_from s (map (fun v => snd (fst v)) vs) in
     let? g' := sum_from g (map snd vs) in
     Ok (s', g', ds ++ map (fun v => fst (fst v)) vs)).
Proof.
  revert s g ds; induction ts as [|[[[n p] q] r] ts IH]; intros s g ds Hts.
  - simpl. now rewrite app_nil_r.
  - inversion Hts as [|? ? Hr Hts']; subst. simpl in Hr.
    destruct (valid_rate_div r Hr) as [f Hf].
    pose proof (map_result_ov ts Hts') as Hov.
    cbn [map to_item calc_loop getk bind map_result spec_item name price quantity gst_rate].
    rewrite Hf. cbn [bind].
    destruct (num_mul p q) as [sub|e] eqn:Hs; cbn [bind]; [|reflexivity].
    destruct (num_mul sub (NFloat f)) as [gst|e] eqn:Hg; cbn [bind]; [|reflexivity].
    destruct (num_mul_float_r sub gst f Hg) as [gf ->].
    rewrite half_ok. cbn [bind].
    destruct (num_add sub (NFloat gf)) as [tot|e] eqn:Ht; cbn [bind]; [|reflexivity].
    rewrite bind_assoc. cbn [bind map fst snd].
    setoid_rewrite sum_from_cons.
    destruct (num_add s sub) as [s2|e] eqn:Hs2; cbn [bind].
    + destruct (num_add g (NFloat gf)) as [g2|e] eqn:Hg2; cbn [bind].
      * rewrite IH by exact Hts'. apply bind_ext. intros vs.
        apply bind_ext. intros s'. apply bind_ext. intros g'.
        now rewrite <- app_assoc.
      * pose proof (num_add_ov g (NFloat gf)) as He. rewrite Hg2 in He. simpl in He. subst e.
        destruct (map_result spec_item ts) as [vs|e'] eqn:Hm; cbn [bind];
          [|simpl in Hov; now subst e'].
        pose proof (sum_from_ov s2 (map (fun v => snd (fst v)) vs)) as Hs3.
        destruct (sum_from s2 _); simpl in *; congruence.
    + pose proof (num_add_ov s sub) as He. rewrite Hs2 in He. simpl in He. subst e.
      destruct (map_result spec_item ts) as [vs|e'] eqn:Hm; cbn [bind];
        [reflexivity | simpl in Hov; now subst e'].
Qed.

Lemma sum_quantity_spec (ts : list (string * num * num * num)) :
  sum_quantity (map to_item ts) = py_sum (map t_quantity ts).
Proof.
  unfold sum_quantity, py_sum. generalize (Ok (NInt 0) : result num) as m.
  induction ts as [|[[[n p] q] r] ts IH]; intros m; [reflexivity|].
  simpl. rewrite IH. f_equal; now destruct m.
Qed.

(** Items that pass [validate] are [to_item]s with valid rates. *)
Lemma items_ok_inv (items : list item) :
  forallb item_ok items = true ->
  exists ts, items = map to_item ts /\
             List.Forall (fun t => in_valid_rates (t_rate t) = true) ts.
Proof.
  induction items as [|it items IH]; intros H; [exists []; split; [reflexivity | constructor]|].
  simpl in H. apply andb_true_iff in H as [Hit H].
  destruct (IH H) as (ts & -> & Hts).
  destruct it as [[n|] [p|] [q|] [r|]]; try discriminate Hit.
  exists ((n, p, q, r) :: ts). split; [reflexivity|]. constructor; [|exact Hts].
  simpl in Hit. simpl. now destruct (in_valid_rates r); [|rewrite andb_false_r in Hit].
Qed.

(** On items that pass [validate], [calculate] computes what the spec
    states, in Python's arithmetic. *)
Lemma calculate_spec (ts : list (string * num * num * num)) :
  fst (validate (map to_item ts)) = true ->
  calculate (map to_item ts) = spec_calculate ts.
Proof.
  intros Hval. pose proof Hval as Hv. apply validate_valid in Hv as [_ Hok].
  destruct (items_ok_inv _ Hok) as (ts' & Heq & Hts').
  assert (ts' = ts) as ->.
  { clear -Heq. revert ts' Heq; induction ts as [|[[[n p] q] r] ts IH]; intros [|t' ts'] Heq;
      try discriminate; [reflexivity|].
    destruct t' as [[[n' p'] q'] r']. simpl in Heq. injection Heq as -> -> -> -> Heq.
    f_equal. now apply IH. }
  unfold calculate. destruct (validate (map to_item ts)) as [valid errors].
  simpl in Hval. subst valid. cbn [negb].
  rewrite calc_loop_spec by exact Hts'. rewrite sum_quantity_spec.
  unfold spec_calculate. rewrite !py_sum_from, bind_assoc. apply bind_ext. intros vs.
  rewrite bind_assoc. apply bind_ext. intros s.
  rewrite bind_assoc. apply bind_ext. intros g. cbn [bind].
  now rewrite length_map.
Qed.

Lemma spec_calculate_ov (ts : list (string * num * num * num)) :
  List.Forall (fun t => in_valid_rates (t_rate t) = true) ts -> only_ov (spec_calculate ts).
Proof.
  intros Hts. unfold spec_calculate.
  apply only_ov_bind; [now apply map_result_ov | intros vs].
  apply only_ov_bind; [rewrite py_sum_from; apply sum_from_ov | intros s].
  apply only_ov_bind; [rewrite py_sum_from; apply sum_from_ov | intros g].
  apply only_ov_bind; [apply num_add_ov | intros gr].
  apply only_ov_bind; [rewrite py_sum_from; apply sum_from_ov | intros; exact I].
Qed.

(** After validation, [calculate] can only raise the [OverflowError] of an
    [int] too large for a float. *)
Lemma calculate_valid_ov (items : list item) :
  fst (validate items) = true -> only_ov (calculate items).
Proof.
  intros Hval. pose proof Hval as Hv. apply validate_valid in Hv as [_ Hok].
  destruct (items_ok_inv _ Hok) as (ts & -> & Hts).
  rewrite calculate_spec by exact Hval. now apply spec_calculate_ov.
Qed.

(** Claim C4. [calculate] raises a [ValueError] exactly when [validate]
    reports the list invalid; the message is ["Invalid input: "] followed by
    every reported error joined with [", "], so it contains each of them;
    an item whose [gst_rate] is not one of 0, 5, 12, 18, 28 makes the
    calculation fail whatever its price and quantity; and [validate []] is
    invalid with a non-empty error list. *)
Theorem calculate_raises_iff_invalid :
  (forall items : list item,
     (exists msg, calculate items = Raise (ValueError msg)) <-> fst (validate items) = false) /\
  (forall items : list item, fst (validate items) = false ->
     calculate items = Raise (ValueError ("Invalid input: " ++ join ", " (snd (validate items)))%string) /\
     (forall e, In e (snd (validate items)) -> exists pre post,
        ("Invalid input: " ++ join ", " (snd (validate items)))%string = (pre ++ e ++ post)%string)) /\
  (forall (items : list item) (it : item) (r : num),
     In it items -> gst_rate it = Some r -> in_valid_rates r = false ->
     exists msg, calculate items = Raise (ValueError msg)) /\
  (fst (validate []) = false /\ snd (validate []) <> []).
Proof.
  split; [|split; [|split]].
  - intros items. split.
    + intros [msg Hm]. destruct (fst (validate items)) eqn:E; [|reflexivity].
      pose proof (calculate_valid_ov items E) as Hov. rewrite Hm in Hov. discriminate Hov.
    + intros Hv. eexists. now apply calculate_invalid.
  - intros items Hv. split; [now apply calculate_invalid|].
    intros e Hin. destruct (StringFacts.join_contains ", " e _ Hin) as (pre & post & Hj).
    exists ("Invalid input: " ++ pre)%string, post. rewrite Hj.
    now rewrite StringFacts.append_assoc.
  - intros items it r Hin Hr Hbad. eexists. apply calculate_invalid.
    destruct items as [|i0 rest]; [reflexivity|].
    unfold validate.
    pose proof (errors_from_invalid_rate 0 (i0 :: rest) it r Hin Hr Hbad) as Hne.
    destruct (errors_from 0 (i0 :: rest)); [congruence | reflexivity].
  - split; [reflexivity | discriminate].
Qed.

Lemma calculate_raises_iff_invalid_witness :
  in_valid_rates (NInt 99) = false /\
  exists msg, calculate [mk_item (Some "Item") (Some (NInt 1000)) (Some (NInt 1)) (Some (NInt 99))]
              = Raise (ValueError msg).
Proof.
  split; [reflexivity|].
  apply (proj1 (proj2 (proj2 calculate_raises_iff_invalid))
           [mk_item (Some "Item") (Some (NInt 1000)) (Some (NInt 1)) (Some (NInt 99))]
           (mk_item (Some "Item") (Some (NInt 1000)) (Some (NInt 1)) (Some (NInt 99))) (NInt 99)).
  - left. reflexivity.
  - reflexivity.
  - reflexivity.
Defined.

Lemma num_lt_0_le (x : num) : num_lt (NInt 0) x = true -> num_le x (NInt 0) = false.
Proof.
  unfold num_lt, num_le. destruct x as [z|f]; simpl.
  - destruct z; simpl; congruence.
  - now destruct (compare_Z_float 0 f) as [[]|].
Qed.

Lemma to_item_ok (t : string * num * num * num) : t_valid t -> item_ok (to_item t) = true.
Proof.
  destruct t as [[[n p] q] r]. simpl. intros (Hp & Hq & Hr).
  now rewrite (num_lt_0_le p Hp), (num_lt_0_le q Hq), Hr.
Qed.

Lemma valid_validate (ts : list (string * num * num * num)) :
  ts <> [] -> List.Forall t_valid ts -> fst (validate (map to_item ts)) = true.
Proof.
  intros Hne Hv. apply validate_valid. split.
  - destruct ts; [congruence | discriminate].
  - apply forallb_forall. intros it Hin. apply in_map_iff in Hin as (t & <- & Ht).
    apply to_item_ok. rewrite List.Forall_forall in Hv. now apply Hv.
Qed.

(** The bound of [float] conversions, far above the sums below. *)
Lemma float_limit_big : (2 ^ 901 < float_limit)%Z.
Proof. reflexivity. Qed.

Lemma spec_item_ok (t : string * num * num * num) :
  t_valid t -> t_small t ->
  exists d sub gst, spec_item t = Ok (d, sub, gst) /\ bounded (2 ^ 800) sub /\ bounded 0 gst.
Proof.
  destruct t as [[[n p] q] r]. intros (_ & _ & Hr) (Hp & Hq).
  pose proof float_limit_big as Hlim.
  assert (H4 : (2 ^ 400 * 2 ^ 400 = 2 ^ 800)%Z) by reflexivity.
  assert (H49 : (2 ^ 800 < 2 ^ 901)%Z) by reflexivity.
  assert (Hp' : bounded (2 ^ 400) p) by (destruct p; simpl in *; lia).
  assert (Hq' : bounded (2 ^ 400) q) by (destruct q; simpl in *; lia).
  destruct (num_mul_bounded _ _ p q Hp' Hq') as (sub & Hs & Hsb); [lia|lia|].
  rewrite H4 in Hsb.
  destruct (valid_rate_div r Hr) as [f Hf].
  destruct (num_mul_bounded (2 ^ 800) 0 sub (NFloat f) Hsb I) as (gst & Hg & _); [lia|lia|].
  destruct (num_mul_float_r _ _ _ Hg) as [gf ->].
  destruct (num_add_bounded (2 ^ 800) 0 sub (NFloat gf) Hsb I) as (tot & Ht & _); [lia|lia|].
  unfold spec_item. rewrite Hs. cbn [bind]. rewrite Hf. cbn [bind]. rewrite Hg. cbn [bind].
  rewrite half_ok. cbn [bind]. rewrite Ht. cbn [bind].
  do 3 eexists. split; [reflexivity|]. split; [exact Hsb | exact I].
Qed.

Lemma map_result_ok (ts : list (string * num * num * num)) :
  List.Forall t_valid ts -> List.Forall t_small ts ->
  exists vs, map_result spec_item ts = Ok vs /\ length vs = length ts /\
    List.Forall (fun v => bounded (2 ^ 800) (snd (fst v)) /\ bounded 0 (snd v)) vs.
Proof.
  induction ts as [|t ts IH]; intros Hv Hs; [exists []; repeat constructor|].
  inversion Hv as [|? ? Hv1 Hv']; inversion Hs as [|? ? Hs1 Hs']; subst.
  destruct (spec_item_ok t Hv1 Hs1) as (d & sub & gst & Ht & Hb1 & Hb2).
  destruct (IH Hv' Hs') as (vs & Hvs & Hlen & Hb).
  exists ((d, sub, gst) :: vs). simpl. rewrite Ht, Hvs. simpl.
  split; [reflexivity|]. split; [now rewrite Hlen|]. constructor; [split; assumption | exact Hb].
Qed.

Lemma spec_calculate_ok (ts : list (string * num * num * num)) :
  List.Forall t_valid ts -> List.Forall t_small ts ->
  (Z.of_nat (length ts) < 2 ^ 100)%Z ->
  exists res, spec_calculate ts = Ok res.
Proof.
  intros Hv Hs Hlen. pose proof float_limit_big as Hlim.
  assert (Hpow : (2 ^ 100 * 2 ^ 800 = 2 ^ 900)%Z) by reflexivity.
  assert (Hpow' : (2 ^ 100 * 2 ^ 400 <= 2 ^ 900)%Z) by (vm_compute; discriminate).
  assert (H9 : (2 ^ 900 + 2 ^ 900 <= 2 ^ 901)%Z) by (vm_compute; discriminate).
  assert (H800 : (0 <= 2 ^ 800)%Z) by (vm_compute; discriminate).
  assert (H400 : (0 <= 2 ^ 400)%Z) by (vm_compute; discriminate).
  destruct (map_result_ok ts Hv Hs) as (vs & Hvs & Hl & Hb).
  unfold spec_calculate. rewrite Hvs. cbn [bind].
  destruct (sum_from_bounded (2 ^ 800) (map (fun v => snd (fst v)) vs) 0 (NInt 0))
    as (s & Hsum & Hsb); [| simpl; lia | lia | lia | |].
  { apply List.Forall_map. eapply List.Forall_impl; [|exact Hb]. intros v [H _]. exact H. }
  { rewrite length_map, Hl. nia. }
  destruct (sum_from_bounded 0 (map snd vs) 0 (NInt 0)) as (g & Hgs & Hgb);
    [| simpl; lia | lia | lia | |].
  { apply List.Forall_map. eapply List.Forall_impl; [|exact Hb]. intros v [_ H]. exact H. }
  { rewrite length_map. lia. }
  rewrite py_sum_from, Hsum. cbn [bind]. rewrite py_sum_from, Hgs. cbn [bind].
  rewrite length_map, Hl in Hsb. rewrite length_map in Hgb.
  destruct (num_add_bounded _ _ s g Hsb Hgb) as (gr & Hgr & _); [nia|lia|].
  rewrite Hgr. cbn [bind].
  destruct (sum_from_bounded (2 ^ 400) (map t_quantity ts) 0 (NInt 0)) as (tq & Htq & _);
    [| simpl; lia | lia | lia | |].
  { apply List.Forall_map. eapply List.Forall_impl; [|exact Hs].
    intros [[[n p] q] r] [_ H]. simpl. destruct q; simpl in *; lia. }
  { rewrite length_map. nia. }
  rewrite py_sum_from, Htq. cbn [bind]. eauto.
Qed.

(** The values of a single item, in the aggregates of its calculation. *)
Lemma spec_calculate_single (n : string) (p q r : num) (res : calc_result) :
  t_valid (n, p, q, r) -> spec_calculate [(n, p, q, r)] = Ok res ->
  exists d sub gst, spec_item (n, p, q, r) = Ok (d, sub, gst) /\
    r_items res = [d] /\ d_cgst d = d_sgst d /\
    r_subtotal res = d_subtotal d /\ r_grand_total res = d_total d /\
    (r_total_gst res = d_total_gst d \/
     (d_total_gst d = NFloat (S754_zero true) /\ r_total_gst res = NFloat (S754_zero false))).
Proof.
  intros (Hp & Hq & Hr) Hres. destruct (valid_rate_div r Hr) as [f Hf].
  unfold spec_calculate in Hres. cbn [map_result] in Hres.
  unfold spec_item in *.
  rewrite Hf in *. cbn [bind] in *.
  destruct (num_mul p q) as [sub|e] eqn:Hs; cbn [bind] in Hres; [|discriminate].
  destruct (num_mul sub (NFloat f)) as [gst|e] eqn:Hg; cbn [bind] in Hres; [|discriminate].
  destruct (num_mul_float_r _ _ _ Hg) as [gf ->].
  rewrite half_ok in *. cbn [bind] in *.
  destruct (num_add sub (NFloat gf)) as [tot|e] eqn:Ht; cbn [bind] in Hres; [|discriminate].
  do 3 eexists. split.
  { rewrite Hg. cbn [bind]. rewrite half_ok. cbn [bind]. rewrite Ht. reflexivity. }
  (* the item subtotal is not a negative zero *)
  assert (Hsub : match sub with NFloat sf => sign_pos sf | NInt z => (0 < z)%Z end).
  { destruct p as [zp|fp], q as [zq|fq]; simpl in Hs.
    - injection Hs as <-. unfold num_lt in Hp, Hq. simpl in Hp, Hq.
      destruct zp, zq; try discriminate; lia.
    - destruct (int_to_float zp) as [a|] eqn:Ha; [|discriminate]. injection Hs as <-.
      apply fmul_pos; [apply (positive_sign (NInt zp)); [exact Hp | exact Ha]|].
      apply (positive_sign (NFloat fq)); [exact Hq | reflexivity].
    - destruct (int_to_float zq) as [b|] eqn:Hb; [|discriminate]. injection Hs as <-.
      apply fmul_pos; [apply (positive_sign (NFloat fp)); [exact Hp | reflexivity]|].
      apply (positive_sign (NInt zq)); [exact Hq | exact Hb].
    - injection Hs as <-. apply fmul_pos.
      + apply (positive_sign (NFloat fp)); [exact Hp | reflexivity].
      + apply (positive_sign (NFloat fq)); [exact Hq | reflexivity]. }
  unfold py_sum in Hres. cbn [fold_left map fst snd t_quantity bind] in Hres.
  assert (Hs0 : num_add (NInt 0) sub = Ok sub).
  { destruct sub as [z|sf]; [reflexivity|]. simpl. f_equal. f_equal.
    apply fadd_zero_l, sign_pos_not_negzero, Hsub. }
  rewrite Hs0 in Hres. cbn [bind] in Hres.
  destruct (negzero_dec gf) as [->|Hne].
  - change (num_add (NInt 0) (NFloat (S754_zero true)))
      with (Ok (NFloat (S754_zero false)) : result num) in Hres.
    cbn [bind] in Hres.
    destruct (num_add sub (NFloat (S754_zero false))) as [gr|e] eqn:Hgr;
      cbn [bind] in Hres; [|discriminate].
    destruct (num_add (NInt 0) q) as [tq|e]; cbn [bind] in Hres; [|discriminate].
    injection Hres as <-.
    cbn [r_items r_subtotal r_grand_total r_total_gst d_cgst d_sgst d_subtotal d_total
         d_total_gst fst snd map].
    split; [reflexivity|]. split; [reflexivity|]. split; [reflexivity|].
    assert (E : num_add sub (NFloat (S754_zero false)) = num_add sub (NFloat (S754_zero true))).
    { destruct sub as [z|sf]; simpl.
      - destruct (int_to_float z) as [a|] eqn:Ha; [|reflexivity]. simpl.
        f_equal. f_equal. symmetry. apply fadd_zero_sign.
        apply (positive_sign (NInt z)); [|exact Ha]. unfold num_lt. simpl.
        destruct z; simpl in Hsub; try lia; reflexivity.
      - f_equal. f_equal. symmetry. apply fadd_zero_sign, Hsub. }
    split; [congruence|]. right. split; reflexivity.
  - assert (Hg0 : num_add (NInt 0) (NFloat gf) = Ok (NFloat gf)).
    { simpl. f_equal. f_equal. now apply fadd_zero_l. }
    rewrite Hg0 in Hres. cbn [bind] in Hres. rewrite Ht in Hres. cbn [bind] in Hres.
    destruct (num_add (NInt 0) q) as [tq|e]; cbn [bind] in Hres; [|discriminate].
    injection Hres as <-.
    cbn [r_items r_subtotal r_grand_total r_total_gst d_cgst d_sgst d_subtotal d_total
         d_total_gst fst snd map].
    split; [reflexivity|]. split; [reflexivity|]. split; [reflexivity|].
    split; [reflexivity|]. left. reflexivity.
Qed.

(** Claim C1 (as amended).  Python computes the values in its own
    arithmetic: [int]s exactly, [float]s in binary64.  (1) For a non-empty
    list of items, each with a name, a price [p > 0], a quantity [q > 0]
    and a rate [r] equal to one of 0, 5, 12, 18, 28, [calculate] computes
    what the spec states, step by step: each item's rounded
    [item_subtotal = p * q], [item_gst = item_subtotal * (r / 100)],
    [cgst = sgst = item_gst / 2] and [item_total = item_subtotal + item_gst];
    [subtotal] and [total_gst] the rounded left-to-right sums of the
    unrounded values, [grand_total] their rounded sum, [total_items] the
    count and [total_quantity] the sum of the quantities; it can only fail
    with the [OverflowError] of an [int] too large for a float.
    (2) It succeeds when the [int] prices and quantities are below
    [2 ^ 400] and there are fewer than [2 ^ 100] items.
    (3) For a single item, [subtotal], [grand_total] and [total_gst] are the
    item's own rounded subtotal, total and GST (up to the sign of a zero
    GST), and [cgst = sgst]. *)
Theorem calculate_valid_items :
  (forall ts : list (string * num * num * num),
     ts <> [] -> List.Forall t_valid ts ->
     calculate (map to_item ts) = spec_calculate ts /\ only_ov (calculate (map to_item ts))) /\
  (forall ts : list (string * num * num * num),
     ts <> [] -> List.Forall t_valid ts -> List.Forall t_small ts ->
     (Z.of_nat (length ts) < 2 ^ 100)%Z ->
     exists res, calculate (map to_item ts) = Ok res) /\
  (forall (n : string) (p q r : num) (res : calc_result),
     t_valid (n, p, q, r) -> calculate [to_item (n, p, q, r)] = Ok res ->
     exists d sub gst, spec_item (n, p, q, r) = Ok (d, sub, gst) /\
       r_items res = [d] /\ d_cgst d = d_sgst d /\
       r_subtotal res = d_subtotal d /\ r_grand_total res = d_total d /\
       (r_total_gst res = d_total_gst d \/
        (d_total_gst d = NFloat (S754_zero true) /\ r_total_gst res = NFloat (S754_zero false)))).
Proof.
  split; [|split].
  - intros ts Hne Hv. pose proof (valid_validate ts Hne Hv) as Hval.
    split; [now apply calculate_spec | now apply calculate_valid_ov].
  - intros ts Hne Hv Hs Hlen. rewrite calculate_spec by now apply valid_validate.
    now apply spec_calculate_ok.
  - intros n p q r res Hv Hres.
    change [to_item (n, p, q, r)] with (map to_item [(n, p, q, r)]) in Hres.
    rewrite calculate_spec in Hres
      by (apply (valid_validate [(n, p, q, r)]); [discriminate | now constructor]).
    now apply spec_calculate_single.
Qed.

Lemma calculate_valid_items_witness :
  t_valid ("Laptop", NInt 50000, NInt 1, NInt 18) /\
  t_small ("Laptop", NInt 50000, NInt 1, NInt 18) /\
  calculate [to_item ("Laptop", NInt 50000, NInt 1, NInt 18)] =
    spec_calculate [("Laptop", NInt 50000, NInt 1, NInt 18)] /\
  (exists res, calculate [to_item ("Laptop", NInt 50000, NInt 1, NInt 18)] = Ok res) /\
  (forall res, calculate [to_item ("Laptop", NInt 50000, NInt 1, NInt 18)] = Ok res ->
     exists d sub gst, spec_item ("Laptop", NInt 50000, NInt 1, NInt 18) = Ok (d, sub, gst) /\
       r_items res = [d] /\ d_cgst d = d_sgst d /\
       r_subtotal res = d_subtotal d /\ r_grand_total res = d_total d /\
       (r_total_gst res = d_total_gst d \/
        (d_total_gst d = NFloat (S754_zero true) /\ r_total_gst res = NFloat (S754_zero false)))).
Proof.
  assert (Hv : t_valid ("Laptop", NInt 50000, NInt 1, NInt 18)).
  { split; [reflexivity | split; reflexivity]. }
  assert (Hs : t_small ("Laptop", NInt 50000, NInt 1, NInt 18)).
  { split; simpl; vm_compute; reflexivity. }
  split; [exact Hv|]. split; [exact Hs|]. split; [|split].
  - apply (proj1 (proj1 calculate_valid_items [("Laptop", NInt 50000, NInt 1, NInt 18)]
                   ltac:(discriminate) ltac:(constructor; [exact Hv | constructor]))).
  - apply (proj1 (proj2 calculate_valid_items) [("Laptop", NInt 50000, NInt 1, NInt 18)]).
    + discriminate.
    + exact ltac:(constructor; [exact Hv | constructor]).
    + exact ltac:(constructor; [exact Hs | constructor]).
    + vm_compute. reflexivity.
  - intros res Hres. exact (proj2 (proj2 calculate_valid_items) "Laptop" _ _ _ res Hv Hres).
Defined.

(** Claim C1 as stated fails: the empty list (every item of which is well
    formed) is rejected; for [p = 1], [q = 1], [r = 5] ([int]s) the item's
    [cgst] is [round(0.05 / 2, 2) = 0.03] (the float [0.05] lies above
    [5/100]) while [total_gst / 2 = 0.025]; and for the [int] price
    [10 ** 400] the calculation raises [OverflowError]. *)
Lemma calculate_claim_counterexample :
  (exists e, calculate [] = Raise e) /\
  (exists res d h,
     calculate [to_item ("a", NInt 1, NInt 1, NInt 5)] = Ok res /\ r_items res = [d] /\
     num_truediv (r_total_gst res) (NInt 2) = Ok h /\
     num_eq (d_cgst d) (NFloat (float_of_Q (3 # 100))) = true /\
     num_eq h (NFloat (float_of_Q (25 # 1000))) = true /\
     num_eq (d_cgst d) h = false) /\
  (t_valid ("a", NInt (10 ^ 400), NInt 1, NInt 5) /\
   calculate [to_item ("a", NInt (10 ^ 400), NInt 1, NInt 5)] =
     Raise (OverflowError "int too large to convert to float")).
Proof.
  split; [|split].
  - eexists. reflexivity.
  - do 3 eexists. split; [reflexivity|]. split; [reflexivity|]. split; [reflexivity|].
    vm_compute. repeat split.
  - split; [split; [reflexivity | split; reflexivity] | vm_compute; reflexivity].
Qed.

End GSTCalculatorFacts.

Module InvoiceAgentDBFacts.
Import InvoiceAgentDB.

(** Claim C2 (code defect).  Constructing the persisted orchestrator,
    [InvoiceAgentDB()], raises a [TypeError]: its [__init__] calls
    [GSTCalculator(base_price=0, gst_rate=0)] while [GSTCalculator.__init__]
    takes no argument.  No dictionary is returned to the caller. *)
Theorem InvoiceAgentDB_init_raises :
  InvoiceAgentDB.__init__ =
    Raise (TypeError "GSTCalculator.__init__() got an unexpected keyword argument 'base_price'").
Proof. reflexivity. Qed.

Lemma calculate_items_cons_raises (it : inv_item) (rest : list inv_item) :
  is_raise (calculate_items (it :: rest)) = true.
Proof.
  destruct it as [n [p|] [q|] [r|]]; reflexivity.
Qed.

(** Claim C5 (code defect).  Whatever the validators answer, whatever the
    current store, customer, items, notes and year, [create_invoice] never
    reports success: it either returns [{'success': False, ...}] with the
    store unchanged, or raises (the [TypeError] of step 3).  So no invoice
    is ever inserted through the persisted orchestrator, and from an empty
    store no first, second, ... invoice number is ever issued. *)
Theorem create_invoice_never_succeeds :
  forall (customer : Type)
    (validate_customer_details : customer -> result (bool * string))
    (validate_invoice_item : inv_item -> result (bool * string))
    (year : nat) (db : store) (c : customer) (items : list inv_item) (notes : string),
  match create_invoice customer validate_customer_details validate_invoice_item
          year db c items notes with
  | Ok (resp, db') => success resp = false /\ db' = db
  | Raise _ => True
  end.
Proof.
  intros customer vc vi year db c items notes. unfold create_invoice.
  destruct (vc c) as [[is_valid msg]|e]; simpl; [|exact I].
  destruct is_valid; simpl; [|split; reflexivity].
  destruct items as [|it rest]; [split; reflexivity|].
  destruct (validate_items vi 0 (it :: rest)) as [bad|e] eqn:Ev; simpl; [|exact I].
  destruct bad as [resp|].
  - split; [|reflexivity].
    revert Ev. generalize 0. generalize (it :: rest) as l.
    induction l as [|i l IH]; intros k Ev; simpl in Ev; [discriminate|].
    destruct (vi i) as [[v m]|e]; simpl in Ev; [|discriminate].
    destruct v; [eapply IH; exact Ev|]. now injection Ev as <-.
  - destruct it as [n [p|] [q|] [r|]]; simpl; exact I.
Qed.

(** Numbering, as [get_next_invoice_number] implements it. *)
Lemma get_next_invoice_number_empty : get_next_invoice_number [] = 1000%Z.
Proof. reflexivity. Qed.

Lemma get_next_invoice_number_parsed (db : store) (inv : invoice_row) (n : Z) :
  last db = Some inv -> PyInt.py_int (PyInt.last_segment (invoice_number inv)) = Some n ->
  get_next_invoice_number db = (n + 1)%Z.
Proof. intros Hl Hp. unfold get_next_invoice_number. now rewrite Hl, Hp. Qed.

Lemma get_next_invoice_number_unparsed (db : store) (inv : invoice_row) :
  last db = Some inv -> PyInt.py_int (PyInt.last_segment (invoice_number inv)) = None ->
  get_next_invoice_number db = 1000%Z.
Proof. intros Hl Hp. unfold get_next_invoice_number. now rewrite Hl, Hp. Qed.

End InvoiceAgentDBFacts.

Module PaymentOperationsFacts.
Import SpecFloat PyNum PyNumFacts PaymentOperations.
Local Open Scope list_scope.

(** One [add_payment] call: [(date, time, amount, method, transaction_id, notes)]. *)
Definition call : Type := (string * string * float * string * string * string)%type.

(** The last call of a sequence, for an empty one this placeholder. *)
Definition no_call : call := ("", "", S754_zero false, "", "", "").

(** Python's [sum] of the amounts of a sequence of calls. *)
Definition running_total (calls : list call) : result num :=
  py_sum (map (fun c => NFloat (call_amount c)) calls).

(** The exact sum of the values of the amounts. *)
Definition sum_amounts (calls : list call) : Q :=
  fold_right (fun c acc => (to_Q (call_amount c) + acc)%Q) 0%Q calls.

(** A running total continued with the amounts of [calls]. *)
Definition paid_from (start : result num) (calls : list call) : result num :=
  fold_left (fun acc c => let? a := acc in num_add a (NFloat (call_amount c))) calls start.

Lemma get_total_paid_shape (d : db) (j : Z) :
  get_total_paid d j = Ok (NInt 0) \/ exists f, get_total_paid d j = Ok (NFloat f).
Proof.
  unfold get_total_paid.
  destruct (List.filter (fun p => Z.eqb (invoice_id p) j) (payments d)) as [|p ps];
    [left; reflexivity|right].
  replace (map (fun p => NFloat (amount p)) (p :: ps)) with (map NFloat (amount p :: map amount ps))
    by (cbn [map]; now rewrite map_map).
  rewrite py_sum_floats. eauto.
Qed.

Lemma total_after_ok (d : db) (j : Z) (a : float) :
  exists g, (let? t := get_total_paid d j in num_add t (NFloat a)) = Ok (NFloat g).
Proof.
  destruct (get_total_paid_shape d j) as [H|[f H]]; rewrite H; cbn [bind]; eexists; reflexivity.
Qed.

(** The total of the invoice of a new row is the previous one plus its
    amount; the totals of the other invoices do not change. *)
Lemma get_total_paid_snoc (d : db) (invs : list invoice) (pay : payment) (j : Z) :
  invoice_id pay = j ->
  get_total_paid (mk_db invs (payments d ++ [pay])) j =
  (let? t := get_total_paid d j in num_add t (NFloat (amount pay))).
Proof.
  intros <-. unfold get_total_paid, py_sum. cbn [payments].
  rewrite List.filter_app. cbn [List.filter]. rewrite Z.eqb_refl.
  rewrite map_app, fold_left_app. reflexivity.
Qed.

Lemma get_total_paid_snoc_other (d : db) (invs : list invoice) (pay : payment) (j : Z) :
  invoice_id pay <> j ->
  get_total_paid (mk_db invs (payments d ++ [pay])) j = get_total_paid d j.
Proof.
  intros Hj. unfold get_total_paid. cbn [payments].
  rewrite List.filter_app. cbn [List.filter].
  replace (Z.eqb (invoice_id pay) j) with false by (symmetry; now apply Z.eqb_neq).
  now rewrite app_nil_r.
Qed.

Lemma add_payment_eq (d : db) (date time : string) (inv_id : Z) (amt : float)
    (method txn note : string) :
  is_nan amt = false ->
  exists tot,
    (let? t := get_total_paid d inv_id in num_add t (NFloat amt)) = Ok tot /\
    add_payment d date time inv_id amt method txn note =
    Ok (mk_payment inv_id date time amt method txn note,
        mk_db (match find_invoice d inv_id with
               | Some inv =>
                   map (fun i => if Z.eqb (id i) inv_id
                                 then mk_invoice (id i) (grand_total i)
                                        (status_for (grand_total inv) tot) (Some method)
                                 else i) (invoices d)
               | None => invoices d
               end)
              (payments d ++ [mk_payment inv_id date time amt method txn note])).
Proof.
  intros Hn. destruct (total_after_ok d inv_id amt) as [g Hg].
  exists (NFloat g). split; [exact Hg|].
  unfold add_payment. destruct (find_invoice d inv_id) as [inv|].
  - destruct (get_total_paid d inv_id) as [v|e]; cbn [bind] in Hg |- *; [|discriminate].
    rewrite Hg. cbn [bind]. unfold commit_payment. cbn [amount]. rewrite Hn. reflexivity.
  - cbn [bind]. unfold commit_payment. cbn [amount]. rewrite Hn. reflexivity.
Qed.

(** A NaN amount is refused by the commit, whether the invoice exists or
    not. *)
Lemma add_payment_nan (d : db) (date time : string) (inv_id : Z) (amt : float)
    (method txn note : string) :
  is_nan amt = true ->
  add_payment d date time inv_id amt method txn note =
    Raise (IntegrityError "NOT NULL constraint failed: payments.amount").
Proof.
  intros Hn. destruct (total_after_ok d inv_id amt) as [g Hg].
  unfold add_payment. destruct (find_invoice d inv_id) as [inv|].
  - destruct (get_total_paid d inv_id) as [v|e]; cbn [bind] in Hg |- *; [|discriminate].
    rewrite Hg. cbn [bind]. unfold commit_payment. cbn [amount]. rewrite Hn. reflexivity.
  - cbn [bind]. unfold commit_payment. cbn [amount]. rewrite Hn. reflexivity.
Qed.

Lemma find_invoice_update (invs : list invoice) (inv_id : Z) (inv : invoice)
    (st : string) (m : option string) :
  List.find (fun i => Z.eqb (id i) inv_id) invs = Some inv ->
  List.find (fun i => Z.eqb (id i) inv_id)
    (map (fun i => if Z.eqb (id i) inv_id then mk_invoice (id i) (grand_total i) st m else i) invs)
  = Some (mk_invoice (id inv) (grand_total inv) st m).
Proof.
  induction invs as [|i invs IH]; simpl; [discriminate|].
  destruct (Z.eqb (id i) inv_id) eqn:E.
  - intros H. injection H as <-. simpl. now rewrite E.
  - intros H. rewrite E. now apply IH.
Qed.

(** One step of the ledger on an existing invoice. *)
Lemma add_payment_existing (d : db) (inv : invoice) (date time : string) (inv_id : Z)
    (amt : float) (method txn note : string) :
  find_invoice d inv_id = Some inv -> is_nan amt = false ->
  exists d' tot,
    add_payment d date time inv_id amt method txn note =
      Ok (mk_payment inv_id date time amt method txn note, d') /\
    get_total_paid d' inv_id = Ok tot /\
    get_total_paid d' inv_id = (let? t := get_total_paid d inv_id in num_add t (NFloat amt)) /\
    find_invoice d' inv_id =
      Some (mk_invoice (id inv) (grand_total inv) (status_for (grand_total inv) tot) (Some method)).
Proof.
  intros Hf Hn.
  destruct (add_payment_eq d date time inv_id amt method txn note Hn) as (tot & Htot & Heq).
  rewrite Heq, Hf. eexists _, tot. split; [reflexivity|].
  erewrite get_total_paid_snoc by reflexivity. cbn [amount]. rewrite Htot.
  split; [reflexivity|]. split; [reflexivity|].
  unfold find_invoice. cbn [invoices]. now apply find_invoice_update.
Qed.

Lemma paid_from_cons (s : result num) (c : call) (cs : list call) :
  paid_from s (c :: cs) = paid_from (let? a := s in num_add a (NFloat (call_amount c))) cs.
Proof. reflexivity. Qed.

Lemma paid_from_running (calls : list call) :
  forall s, paid_from s calls =
    fold_left (fun acc x => let? a := acc in num_add a x)
      (map (fun c => NFloat (call_amount c)) calls) s.
Proof. induction calls as [|c cs IH]; intros s; [reflexivity|]. apply IH. Qed.

Lemma run_payments_spec (calls : list call) :
  forall (d : db) (inv_id : Z) (inv : invoice),
  find_invoice d inv_id = Some inv -> calls <> [] ->
  Forall (fun c => is_nan (call_amount c) = false) calls ->
  exists d' inv' tot,
    run_payments d inv_id calls = Ok d' /\
    find_invoice d' inv_id = Some inv' /\
    grand_total inv' = grand_total inv /\
    get_total_paid d' inv_id = Ok tot /\
    get_total_paid d' inv_id = paid_from (get_total_paid d inv_id) calls /\
    payment_status inv' = status_for (grand_total inv) tot /\
    payment_method inv' = Some (call_method (List.last calls no_call)).
Proof.
  induction calls as [|c rest IH]; intros d inv_id inv Hf Hne Hnan; [congruence|].
  inversion Hnan as [|c' rest' Hc Hrest]; subst c' rest'.
  destruct c as [[[[[date time] amt] method] txn] note]. cbn [call_amount] in Hc.
  destruct (add_payment_existing d inv date time inv_id amt method txn note Hf Hc)
    as (d1 & tot1 & Hstep & Ht1 & Hp1 & Hf1).
  cbn [run_payments]. rewrite Hstep. cbn [bind snd].
  rewrite paid_from_cons. cbn [call_amount]. rewrite <- Hp1.
  destruct rest as [|c2 rest'].
  - exists d1, (mk_invoice (id inv) (grand_total inv) (status_for (grand_total inv) tot1)
                  (Some method)), tot1.
    split; [reflexivity|]. split; [exact Hf1|].
    split; [reflexivity|]. split; [exact Ht1|]. split; [reflexivity|].
    split; reflexivity.
  - destruct (IH d1 inv_id _ Hf1 ltac:(discriminate) Hrest)
      as (d' & inv' & tot & Hrun & Hf' & Hg & Ht & Hp & Hs & Hm).
    exists d', inv', tot. split; [exact Hrun|]. split; [exact Hf'|].
    split; [exact Hg|]. split; [exact Ht|]. split; [exact Hp|].
    split; [exact Hs|]. exact Hm.
Qed.

Lemma status_for_spec (g : float) (t : num) :
  (status_for g t = "Paid" <-> num_le (NFloat g) t = true) /\
  (status_for g t = "Partial" <-> num_lt (NInt 0) t = true /\ num_le (NFloat g) t = false) /\
  (status_for g t = "Pending" <-> num_lt (NInt 0) t = false /\ num_le (NFloat g) t = false).
Proof.
  unfold status_for.
  destruct (num_le (NFloat g) t), (num_lt (NInt 0) t);
    repeat split; intros; try discriminate; try tauto; try (destruct H; discriminate).
Qed.

Lemma SFcompare_antisym (f g : float) :
  SFcompare g f = option_map CompOpp (SFcompare f g).
Proof.
  destruct f as [s|s| |s m e], g as [s'|s'| |s' m' e']; try destruct s; try destruct s';
    try reflexivity; cbn [SFcompare option_map CompOpp].
  all: rewrite (Z.compare_antisym e e'); destruct (Z.compare e e'); try reflexivity.
  all: cbn [CompOpp].
  all: rewrite !Pos.compare_cont_spec, Pos.compare_antisym.
  all: destruct (Pos.compare m m'); reflexivity.
Qed.

(** Away from NaN, the comparisons the code makes are total. *)
Lemma compare_total (g f : float) :
  is_nan g = false -> is_nan f = false ->
  (num_le (NFloat g) (NFloat f) = false <-> num_lt (NFloat f) (NFloat g) = true) /\
  (num_lt (NInt 0) (NFloat f) = false <-> num_le (NFloat f) (NInt 0) = true).
Proof.
  intros Hg Hf. unfold num_le, num_lt. cbn [num_compare].
  rewrite (SFcompare_antisym g f).
  assert (Hs : SFcompare g f <> None)
    by (destruct g, f; try discriminate; cbn [SFcompare]; discriminate).
  assert (Hz : compare_Z_float 0 f <> None)
    by (destruct f; try discriminate; cbn [compare_Z_float]; discriminate).
  split.
  - destruct (SFcompare g f) as [[]|]; [..|exfalso; congruence];
      cbn [option_map CompOpp]; split; intros H; (reflexivity || discriminate H).
  - destruct (compare_Z_float 0 f) as [[]|]; [..|exfalso; congruence];
      cbn [option_map CompOpp]; split; intros H; (reflexivity || discriminate H).
Qed.

(** Claim C3 (as amended).  For an invoice with grand total [G] and no
    payment yet, after a non-empty sequence of [add_payment] calls with
    amounts that are not NaN, the recorded total [S] is the [float] that
    Python's [sum] gives for the amounts, left to right (also the sum of
    all the invoice's payment rows), and the invoice's status is [Paid]
    iff [S >= G], [Partial] iff [S > 0] and not [S >= G], [Pending] iff
    neither; unless [G] or [S] is a NaN, [Partial] iff [0 < S < G] and
    [Pending] iff [S <= 0] and [S < G].  [payment_method] is the method
    of the last call. *)
Theorem add_payment_status_sequence (d : db) (inv_id : Z) (inv : invoice) (calls : list call) :
  find_invoice d inv_id = Some inv -> get_total_paid d inv_id = Ok (NInt 0) -> calls <> [] ->
  Forall (fun c => is_nan (call_amount c) = false) calls ->
  exists d' inv' S,
    run_payments d inv_id calls = Ok d' /\
    find_invoice d' inv_id = Some inv' /\
    running_total calls = Ok (NFloat S) /\
    get_total_paid d' inv_id = Ok (NFloat S) /\
    (payment_status inv' = "Paid" <-> num_le (NFloat (grand_total inv)) (NFloat S) = true) /\
    (payment_status inv' = "Partial" <->
       num_lt (NInt 0) (NFloat S) = true /\ num_le (NFloat (grand_total inv)) (NFloat S) = false) /\
    (payment_status inv' = "Pending" <->
       num_lt (NInt 0) (NFloat S) = false /\ num_le (NFloat (grand_total inv)) (NFloat S) = false) /\
    (is_nan (grand_total inv) = false -> is_nan S = false ->
       (payment_status inv' = "Partial" <->
          num_lt (NInt 0) (NFloat S) = true /\ num_lt (NFloat S) (NFloat (grand_total inv)) = true) /\
       (payment_status inv' = "Pending" <->
          num_le (NFloat S) (NInt 0) = true /\ num_lt (NFloat S) (NFloat (grand_total inv)) = true)) /\
    payment_method inv' = Some (call_method (List.last calls no_call)).
Proof.
  intros Hf H0 Hne Hnan.
  destruct (run_payments_spec calls d inv_id inv Hf Hne Hnan)
    as (d' & inv' & tot & Hrun & Hf' & _ & Ht & Hp & Hs & Hm).
  assert (Hr : running_total calls = Ok tot).
  { rewrite <- Ht, Hp, H0, paid_from_running. reflexivity. }
  destruct calls as [|c cs]; [congruence|].
  assert (HS : exists S, tot = NFloat S).
  { unfold running_total in Hr.
    replace (map (fun c => NFloat (call_amount c)) (c :: cs))
      with (map NFloat (call_amount c :: map call_amount cs)) in Hr
      by (cbn [map]; now rewrite map_map).
    rewrite py_sum_floats in Hr. injection Hr as <-. eauto. }
  destruct HS as [S ->].
  destruct (status_for_spec (grand_total inv) (NFloat S)) as (Pd & Pt & Pn).
  rewrite <- Hs in Pd, Pt, Pn.
  exists d', inv', S. split; [exact Hrun|]. split; [exact Hf'|]. split; [exact Hr|].
  split; [exact Ht|]. split; [exact Pd|]. split; [exact Pt|]. split; [exact Pn|].
  split; [|exact Hm].
  intros HG HSn. destruct (compare_total _ _ HG HSn) as [C1 C2].
  rewrite Pt, Pn, C1, C2. tauto.
Qed.

Definition inv0 : invoice := mk_invoice 1 (float_of_Q 1000) "Pending" None.

Definition calls0 : list call :=
  [("2026-01-05", "10:00:00", float_of_Q 400, "UPI", "", "");
   ("2026-01-06", "11:00:00", float_of_Q 600, "Cash", "", "")].

Lemma add_payment_status_sequence_witness :
  Forall (fun c => is_nan (call_amount c) = false) calls0 /\
  exists d' inv' S,
    run_payments ledger0 1 calls0 = Ok d' /\
    find_invoice d' 1 = Some inv' /\
    running_total calls0 = Ok (NFloat S) /\
    get_total_paid d' 1 = Ok (NFloat S) /\
    (payment_status inv' = "Paid" <-> num_le (NFloat (grand_total inv0)) (NFloat S) = true) /\
    (payment_status inv' = "Partial" <->
       num_lt (NInt 0) (NFloat S) = true /\ num_le (NFloat (grand_total inv0)) (NFloat S) = false) /\
    (payment_status inv' = "Pending" <->
       num_lt (NInt 0) (NFloat S) = false /\ num_le (NFloat (grand_total inv0)) (NFloat S) = false) /\
    (is_nan (grand_total inv0) = false -> is_nan S = false ->
       (payment_status inv' = "Partial" <->
          num_lt (NInt 0) (NFloat S) = true /\ num_lt (NFloat S) (NFloat (grand_total inv0)) = true) /\
       (payment_status inv' = "Pending" <->
          num_le (NFloat S) (NInt 0) = true /\ num_lt (NFloat S) (NFloat (grand_total inv0)) = true)) /\
    payment_method inv' = Some (call_method (List.last calls0 no_call)).
Proof.
  assert (Hn : Forall (fun c => is_nan (call_amount c) = false) calls0)
    by (repeat constructor).
  split; [exact Hn|].
  apply (add_payment_status_sequence ledger0 1 inv0 calls0).
  - reflexivity.
  - reflexivity.
  - discriminate.
  - exact Hn.
Defined.

Definition tenth_calls : list call :=
  repeat ("2026-01-05", "10:00:00", float_of_Q (1 # 10), "UPI", "", "") 10.

(** Claim C3 as stated fails.  A single payment of [-5] on an invoice of
    [1000] leaves it [Pending] although the payments sum to [-5], not 0;
    on an invoice of grand total 0 a payment of 0 makes it [Paid]; and ten
    payments of [0.1] on an invoice of [1.0] leave it [Partial], because
    the [float] sum is [0.9999999999999999], although the exact sum of the
    ten amounts (each a little above one tenth) is above [1]. *)
Lemma add_payment_status_counterexample :
  (exists d' inv',
     run_payments ledger0 1 [("2026-01-05", "10:00:00", float_of_Q (-5), "Cash", "", "")] = Ok d' /\
     find_invoice d' 1 = Some inv' /\ payment_status inv' = "Pending" /\
     ~ (sum_amounts [("2026-01-05", "10:00:00", float_of_Q (-5), "Cash", "", "")] == 0)%Q) /\
  (exists d' inv',
     run_payments (mk_db [mk_invoice 7 (S754_zero false) "Pending" None] []) 7
       [("2026-01-05", "10:00:00", S754_zero false, "Cash", "", "")] = Ok d' /\
     find_invoice d' 7 = Some inv' /\ payment_status inv' = "Paid" /\
     (sum_amounts [("2026-01-05", "10:00:00", S754_zero false, "Cash", "", "")] == 0)%Q) /\
  (exists d' inv',
     run_payments (mk_db [mk_invoice 1 (float_of_Q 1) "Pending" None] []) 1 tenth_calls = Ok d' /\
     find_invoice d' 1 = Some inv' /\ payment_status inv' = "Partial" /\
     (to_Q (float_of_Q 1) < sum_amounts tenth_calls)%Q).
Proof.
  split; [|split].
  - eexists _, _. split; [vm_compute; reflexivity|]. split; [vm_compute; reflexivity|].
    split; [vm_compute; reflexivity|]. vm_compute. discriminate.
  - eexists _, _. split; [vm_compute; reflexivity|]. split; [vm_compute; reflexivity|].
    split; [vm_compute; reflexivity|]. vm_compute. reflexivity.
  - eexists _, _. split; [vm_compute; reflexivity|]. split; [vm_compute; reflexivity|].
    split; [vm_compute; reflexivity|]. vm_compute. reflexivity.
Qed.



End PaymentOperationsFacts.

Module SearchAgentFacts.
Import SearchAgent.
Local Open Scope Q_scope.

(** Claim C8 as stated fails: on the fixture the search does not return
    the [Paid] invoice. *)
Lemma advanced_search_fixture_counterexample :
  advanced_search (2026, 10, 15)%Z [inv_paid; inv_pending] fixture_filters <> [inv_paid].
Proof. vm_compute. discriminate. Qed.

(** Claim C8 (as amended).  On any day, [advanced_search] with
    [{payment_statuses: ["Paid"], min_amount: 10000}] on the two-invoice
    fixture (Paid 2360, Pending 5600) returns the empty list: the amount
    filter, applied first, drops both invoices since both totals are
    below 10000. *)
Theorem advanced_search_fixture_empty :
  forall today : Z * Z * Z,
  filter_by_amount_range [inv_paid; inv_pending] (Some 10000) None = [] /\
  advanced_search today [inv_paid; inv_pending] fixture_filters = [].
Proof. intros [[y m] d]. split; reflexivity. Qed.

End SearchAgentFacts.

Module SecurityAgentFacts.
Import SecurityAgent.
Local Open Scope Q_scope.
Local Open Scope list_scope.

Lemma get_config_default : get_config "default" = mk_config 100 60.
Proof. reflexivity. Qed.

(** An accepted call records its own timestamp. *)
Lemma check_rate_limit_records (st : state) (identifier limit_type : string) (now : Q)
    (c l : nat) (rem ra : Z) (st' : state) :
  check_rate_limit st identifier limit_type now = Ok (Allowed c l rem ra, st') ->
  exists kept, counts_of st' identifier = kept ++ [now].
Proof.
  unfold check_rate_limit. case_bool_decide; [discriminate|].
  destruct (Nat.leb _ _).
  - destruct (py_min _); simpl; discriminate.
  - intros Hr. injection Hr as _ _ _ _ <-. unfold counts_of. simpl.
    rewrite lookup_insert_eq. eauto.
Qed.

(** Claim C9.  With the ['default'] limit (100 requests per 60 s): a
    blocked identifier is always rejected with [retry_after = 3600] and its
    state untouched, whatever its history (and whatever the limit type);
    an unblocked identifier with at least 100 recorded requests inside the
    current window is rejected with [retry_after > 0]; and an unblocked
    identifier all of whose recorded requests are at least 60 s old is
    accepted. *)
Theorem check_rate_limit_default :
  (forall (st : state) (identifier limit_type : string) (now : Q),
     identifier ∈ blocked_ips st ->
     check_rate_limit st identifier limit_type now = Ok (Blocked 3600, st)) /\
  (forall (st : state) (identifier : string) (now : Q),
     identifier ∉ blocked_ips st ->
     (100 <= length (List.filter (fun t => negb (Qle_bool t (now - 60)))
                       (counts_of st identifier)))%nat ->
     exists ra c st',
       check_rate_limit st identifier "default" now = Ok (Exceeded ra c 100, st') /\
       (0 < ra)%Z) /\
  (forall (st : state) (identifier : string) (now : Q),
     identifier ∉ blocked_ips st ->
     Forall (fun t => t <= now - 60) (counts_of st identifier) ->
     is_allowed (check_rate_limit st identifier "default" now) = true).
Proof.
  split; [|split].
  - intros st identifier limit_type now Hb. unfold check_rate_limit.
    now rewrite bool_decide_eq_true_2.
  - intros st identifier now Hb Hlen. unfold check_rate_limit.
    rewrite bool_decide_eq_false_2 by exact Hb. rewrite get_config_default. simpl requests. simpl window.
    apply Nat.leb_le in Hlen. rewrite Hlen.
    destruct (List.filter (fun req_time => negb (Qle_bool req_time (now - 60)))
                (counts_of st identifier)) as [|t0 rest] eqn:Ek.
    + simpl in Hlen. discriminate.
    + simpl. eexists _, _, _. split; [reflexivity|]. lia.
  - intros st identifier now Hb Hall. unfold check_rate_limit.
    rewrite bool_decide_eq_false_2 by exact Hb. rewrite get_config_default. simpl requests. simpl window.
    assert (Hk : List.filter (fun req_time => negb (Qle_bool req_time (now - 60)))
                   (counts_of st identifier) = []).
    { induction Hall as [|t ts Ht Hts IH]; [reflexivity|]. simpl.
      rewrite (proj2 (Qle_bool_iff t (now - 60)) Ht). exact IH. }
    rewrite Hk. reflexivity.
Qed.

Lemma check_rate_limit_default_witness :
  ("10.0.0.1" ∉ blocked_ips st_full) /\
  (exists ra c st',
     check_rate_limit st_full "10.0.0.1" "default" 50 = Ok (Exceeded ra c 100, st') /\ (0 < ra)%Z) /\
  is_allowed (check_rate_limit st_full "10.0.0.1" "default" 200) = true /\
  check_rate_limit (mk_state ∅ {[ "6.6.6.6" ]}) "6.6.6.6" "auth" 0 =
    Ok (Blocked 3600, mk_state ∅ {[ "6.6.6.6" ]}).
Proof.
  assert (Hnb : "10.0.0.1" ∉ blocked_ips st_full) by (simpl; set_solver).
  split; [exact Hnb|]. split; [|split].
  - apply (proj1 (proj2 check_rate_limit_default) st_full "10.0.0.1" 50 Hnb).
    vm_compute. lia.
  - apply (proj2 (proj2 check_rate_limit_default) st_full "10.0.0.1" 200 Hnb).
    vm_compute. repeat constructor; discriminate.
  - apply (proj1 check_rate_limit_default). simpl. set_solver.
Defined.

End SecurityAgentFacts.

Module AuditAgentFacts.
Import SpecFloat PyNum AuditAgent.

(** The details blob of the row: [json.dumps(details)] for a non-empty
    dictionary, nothing otherwise. *)
Definition details_spec (depth : nat) (dt : option (list (pyval * pyval))) (d : option string) : Prop :=
  match dt with
  | Some ((_ :: _) as kv) => exists j, d = Some j /\ json_dumps_val depth (PDict kv) = Ok j
  | _ => d = None
  end.

(** An environment in which nothing fails. *)
Definition rt_ok : runtime := mk_runtime 1000 None None None None.

Definition db_locked : exn := OperationalError "database is locked".

(** Claim C6: when [db.rollback()] and [db.close()] do not raise,
    [log_action] never raises.  Either the commit and the refresh go
    through: exactly one row, carrying the caller's fields, is appended
    with the details serialized by [json.dumps] when they are a non-empty
    dictionary (and no details blob otherwise), and a success dictionary
    is returned.  Or a failure dictionary carries [str(e)] of the first
    exception, and the table is unchanged when [json.dumps] or the commit
    raised, but keeps the committed row when [db.refresh] raised.  The
    success branch is taken exactly when the commit and the refresh
    succeed and the details are serializable. *)
Theorem log_action_outcome rt now db u a et ei dt ip st :
  rollback_fault rt = None -> close_fault rt = None ->
  match log_action rt now db u a et ei dt ip st with
  | (_, Raise _) => False
  | (db', Ok (LogOk id msg)) =>
      commit_fault rt = None /\ refresh_fault rt = None /\ id = next_id db /\
      msg = "Action logged" /\
      exists d, db' = (db ++ [mk_audit_log id now u a et ei d ip st])%list /\
                details_spec (json_depth rt) dt d
  | (db', Ok (LogFailed err)) =>
      (db' = db /\
       ((exists kv e, dt = Some kv /\ kv <> [] /\ json_dumps_val (json_depth rt) (PDict kv) = Raise e /\
                      err = str_exn e) \/
        (exists e, commit_fault rt = Some e /\ err = str_exn e))) \/
      (exists d e, commit_fault rt = None /\ refresh_fault rt = Some e /\ err = str_exn e /\
                   details_spec (json_depth rt) dt d /\
                   db' = (db ++ [mk_audit_log (next_id db) now u a et ei d ip st])%list)
  end /\
  ((exists id db', log_action rt now db u a et ei dt ip st = (db', Ok (LogOk id "Action logged")))
   <-> commit_fault rt = None /\ refresh_fault rt = None /\
       (forall kv, dt = Some kv -> kv <> [] -> exists j, json_dumps_val (json_depth rt) (PDict kv) = Ok j)).
Proof.
  intros Hrb Hcl.
  unfold log_action, rollback, close, refresh, commit. rewrite Hrb, Hcl.
  destruct (details_column (json_depth rt) dt) as [d|e] eqn:Hd.
  - assert (Hs : details_spec (json_depth rt) dt d /\
                 (forall kv, dt = Some kv -> kv <> [] -> exists j, json_dumps_val (json_depth rt) (PDict kv) = Ok j)).
    { unfold details_column in Hd. unfold details_spec.
      destruct dt as [[|kx kv]|]; cbn [bind] in Hd.
      - injection Hd as <-. split; [reflexivity|]. intros kv [= <-]. congruence.
      - destruct (json_dumps_val (json_depth rt) (PDict (kx :: kv))) as [j|e] eqn:Hj;
          cbn [bind] in Hd; [|discriminate].
        injection Hd as <-. split; [eauto|]. intros kv' [= <-] _. eauto.
      - injection Hd as <-. split; [reflexivity|]. intros kv [=]. }
    destruct Hs as [Hs Hser].
    destruct (commit_fault rt) as [ec|] eqn:Hc; cbn [raise_if bind].
    + split; [left; split; [reflexivity | right; eauto]|].
      split; [intros (id & db' & H); discriminate H | intros [H _]; discriminate H].
    + destruct (refresh_fault rt) as [er|] eqn:Hr; cbn [raise_if bind].
      * split; [right; exists d, er; auto|].
        split; [intros (id & db' & H); discriminate H | intros (_ & H & _); discriminate H].
      * split; [repeat split; eauto|].
        split; [intros _; auto | intros _; eauto].
  - assert (Hj : exists kv, dt = Some kv /\ kv <> [] /\ json_dumps_val (json_depth rt) (PDict kv) = Raise e).
    { unfold details_column in Hd.
      destruct dt as [[|kx kv]|]; cbn [bind] in Hd; try discriminate.
      exists (kx :: kv). split; [reflexivity|]. split; [discriminate|].
      destruct (json_dumps_val (json_depth rt) (PDict (kx :: kv))); cbn [bind] in Hd; congruence. }
    destruct Hj as (kv & Hdt & Hne & Hj). cbn [bind].
    split; [left; split; [reflexivity | left; exists kv, e; auto]|].
    split; [intros (id & db' & H); discriminate H|].
    intros (_ & _ & H). destruct (H kv Hdt Hne) as [j Hj']. congruence.
Qed.

(** A witness for [log_action_outcome]: a logged search with its details. *)
Lemma log_action_outcome_witness :
  rollback_fault rt_ok = None /\ close_fault rt_ok = None /\
  exists id db', log_action rt_ok 0%Q [] "admin" "SEARCH" None None
                   (Some [(PStr "query", PStr "Raj")]) None "success" =
                 (db', Ok (LogOk id "Action logged")).
Proof.
  split; [reflexivity|]. split; [reflexivity|].
  apply (proj2 (log_action_outcome rt_ok 0%Q [] "admin" "SEARCH" None None
                  (Some [(PStr "query", PStr "Raj")]) None "success" eq_refl eq_refl)).
  split; [reflexivity|]. split; [reflexivity|].
  intros kv [= <-] _. eexists; reflexivity.
Defined.

(** Counterexample to claim C6 as stated.  An empty [details] dictionary
    is provided, and [json.dumps({})] is ["{}"], but the row stores no
    details blob, because [{}] is falsy.  When [db.refresh] raises after a
    successful commit, the row is in the table and yet a failure
    dictionary is returned: the rollback cannot undo a commit.  And an
    exception of [db.rollback()] in the [except] branch, or of
    [db.close()] in the [finally] branch, reaches the caller. *)
Lemma log_action_claim_counterexample :
  (json_dumps_val 1 (PDict []) = Ok "{}" /\
   log_action rt_ok 0%Q [] "admin" "SEARCH" None None (Some []) None "success" =
     ([mk_audit_log 1 0%Q "admin" "SEARCH" None None None None "success"],
      Ok (LogOk 1 "Action logged"))) /\
  log_action (mk_runtime 1000 None (Some db_locked) None None) 0%Q [] "admin" "SEARCH"
      None None None None "success" =
    ([mk_audit_log 1 0%Q "admin" "SEARCH" None None None None "success"],
     Ok (LogFailed "database is locked")) /\
  log_action (mk_runtime 1000 (Some db_locked) None (Some db_locked) None) 0%Q [] "admin"
      "SEARCH" None None None None "success" = ([], Raise db_locked) /\
  log_action (mk_runtime 1000 None None None (Some db_locked)) 0%Q [] "admin" "SEARCH"
      None None None None "success" =
    ([mk_audit_log 1 0%Q "admin" "SEARCH" None None None None "success"], Raise db_locked).
Proof. repeat split; reflexivity. Qed.

(** [json.dumps] of a [float] value writes a NaN as [NaN], which is not
    JSON; the row is stored with it. *)
Lemma log_action_nan_details :
  log_action rt_ok 0%Q [] "admin" "EXPORT_DATA" None None
    (Some [(PStr "amount", PFloat S754_nan)]) None "success" =
  ([mk_audit_log 1 0%Q "admin" "EXPORT_DATA" None None
      (Some ("{" ++ chr 34 ++ "amount" ++ chr 34 ++ ": NaN}")) None "success"], Ok (LogOk 1 "Action logged")).
Proof. reflexivity. Qed.

End AuditAgentFacts.

Module AuthAgentFacts.
Import AuthAgent.
Local Open Scope Z_scope.
Local Open Scope list_scope.

Lemma not_surrogate_ascii c : 0 <= c < 128 -> is_surrogate c = false.
Proof.
  intros Hc. unfold is_surrogate. rewrite (proj2 (Z.leb_gt 55296 c)) by lia. reflexivity.
Qed.

Lemma utf8_go_ascii pos s : Forall is_ascii s -> utf8_go pos s = Ok s.
Proof.
  revert pos; induction s as [| c s IH]; intros pos H; [reflexivity |].
  inversion H as [| ? ? Hc Hs]; subst. unfold is_ascii in Hc.
  cbn [utf8_go]. rewrite not_surrogate_ascii by lia. rewrite IH by assumption.
  cbn [bind]. unfold utf8_char. rewrite (proj2 (Z.ltb_lt c 128)) by lia. reflexivity.
Qed.

Lemma hex_char_ascii n : 0 <= n < 16 -> is_ascii (hex_char n).
Proof.
  intros Hn. unfold hex_char, is_ascii. destruct (Z.ltb_spec n 10); lia.
Qed.

Lemma hex_char_inj n m : 0 <= n < 16 -> 0 <= m < 16 -> hex_char n = hex_char m -> n = m.
Proof.
  intros Hn Hm. unfold hex_char. destruct (Z.ltb_spec n 10), (Z.ltb_spec m 10); lia.
Qed.

Lemma hexdigest_ascii bs : Forall is_byte bs -> Forall is_ascii (hexdigest bs).
Proof.
  induction bs as [| b bs IH]; intros H; [constructor |].
  inversion H as [| ? ? Hb Hbs]; subst. unfold is_byte in Hb.
  cbn [hexdigest List.flat_map hex_byte app].
  constructor; [apply hex_char_ascii; Z.div_mod_to_equations; lia |].
  constructor; [apply hex_char_ascii; Z.div_mod_to_equations; lia |].
  apply IH; assumption.
Qed.

Lemma hexdigest_inj b1 b2 :
  Forall is_byte b1 -> Forall is_byte b2 -> hexdigest b1 = hexdigest b2 -> b1 = b2.
Proof.
  revert b2; induction b1 as [| x b1 IH]; intros [| y b2] H1 H2 H; try reflexivity;
    cbn [hexdigest List.flat_map hex_byte app] in H; try discriminate H.
  inversion H1 as [| ? ? Hx Hb1]; subst. inversion H2 as [| ? ? Hy Hb2]; subst.
  unfold is_byte in Hx, Hy.
  injection H as Hhi Hlo H.
  apply hex_char_inj in Hhi; [| Z.div_mod_to_equations; lia ..].
  apply hex_char_inj in Hlo; [| Z.div_mod_to_equations; lia ..].
  f_equal; [Z.div_mod_to_equations; lia |]. apply IH; assumption.
Qed.

Lemma utf8_char_bytes c : 0 <= c <= 1114111 -> Forall is_byte (utf8_char c).
Proof.
  intros Hc. unfold utf8_char, is_byte.
  destruct (Z.ltb_spec c 128), (Z.ltb_spec c 2048), (Z.ltb_spec c 65536);
    repeat constructor; Z.div_mod_to_equations; lia.
Qed.

Lemma utf8_char_cons c : exists b r, utf8_char c = b :: r.
Proof.
  unfold utf8_char.
  destruct (Z.ltb c 128), (Z.ltb c 2048), (Z.ltb c 65536); eauto.
Qed.

Ltac peel H := repeat (let Ha := fresh "Ha" in injection H as Ha H).

Lemma utf8_char_inj c1 c2 r1 r2 :
  0 <= c1 <= 1114111 -> 0 <= c2 <= 1114111 ->
  utf8_char c1 ++ r1 = utf8_char c2 ++ r2 -> c1 = c2 /\ r1 = r2.
Proof.
  intros H1 H2 H. unfold utf8_char in H.
  destruct (Z.ltb_spec c1 128), (Z.ltb_spec c1 2048), (Z.ltb_spec c1 65536),
    (Z.ltb_spec c2 128), (Z.ltb_spec c2 2048), (Z.ltb_spec c2 65536);
    cbn [app] in H; peel H;
    (first
       [ exfalso; Z.div_mod_to_equations; lia
       | assert (Heq : c1 = c2) by (Z.div_mod_to_equations; lia); subst c2;
         split; [reflexivity | assumption] ]).
Qed.

Lemma utf8_go_ok pos s :
  py_str s = true -> no_surrogates s = true ->
  exists bs, utf8_go pos s = Ok bs /\ Forall is_byte bs.
Proof.
  revert pos; induction s as [| c s IH]; intros pos Hs Hn; [exists []; split; constructor |].
  cbn [py_str no_surrogates forallb] in Hs, Hn.
  apply andb_prop in Hs as [Hc Hs]. apply andb_prop in Hn as [Hcn Hn].
  apply andb_prop in Hc as [Hc0 Hc1]. apply Z.leb_le in Hc0, Hc1.
  apply negb_true_iff in Hcn.
  destruct (IH (S pos) Hs Hn) as [bs [Hbs Hb]].
  cbn [utf8_go]. rewrite Hcn, Hbs. cbn [bind].
  eexists; split; [reflexivity |]. apply Forall_app; split; [apply utf8_char_bytes; lia | exact Hb].
Qed.

Lemma utf8_go_bytes pos s bs : py_str s = true -> utf8_go pos s = Ok bs -> Forall is_byte bs.
Proof.
  revert pos bs; induction s as [| c s IH]; intros pos bs Hs H.
  - injection H as <-. constructor.
  - cbn [py_str forallb] in Hs. apply andb_prop in Hs as [Hc Hs].
    apply andb_prop in Hc as [Hc0 Hc1]. apply Z.leb_le in Hc0, Hc1.
    cbn [utf8_go] in H. destruct (is_surrogate c); [discriminate H |].
    destruct (utf8_go (S pos) s) as [bs' |] eqn:E; cbn [bind] in H; [| discriminate H].
    injection H as <-. apply Forall_app; split; [apply utf8_char_bytes; lia | eauto].
Qed.

Lemma utf8_go_inj p1 p2 s1 s2 bs :
  py_str s1 = true -> py_str s2 = true ->
  utf8_go p1 s1 = Ok bs -> utf8_go p2 s2 = Ok bs -> s1 = s2.
Proof.
  revert p1 p2 s2 bs; induction s1 as [| c1 s1 IH]; intros p1 p2 [| c2 s2] bs Hs1 Hs2 H1 H2;
    try reflexivity.
  - injection H1 as <-. cbn [utf8_go] in H2. destruct (is_surrogate c2); [discriminate H2 |].
    destruct (utf8_go (S p2) s2); cbn [bind] in H2; [| discriminate H2].
    injection H2 as H2. destruct (utf8_char_cons c2) as (b & r & Hc).
    rewrite Hc in H2. discriminate H2.
  - injection H2 as <-. cbn [utf8_go] in H1. destruct (is_surrogate c1); [discriminate H1 |].
    destruct (utf8_go (S p1) s1); cbn [bind] in H1; [| discriminate H1].
    injection H1 as H1. destruct (utf8_char_cons c1) as (b & r & Hc).
    rewrite Hc in H1. discriminate H1.
  - cbn [py_str forallb] in Hs1, Hs2.
    apply andb_prop in Hs1 as [Hc1 Hs1]. apply andb_prop in Hs2 as [Hc2 Hs2].
    apply andb_prop in Hc1 as [Hc10 Hc11]. apply andb_prop in Hc2 as [Hc20 Hc21].
    apply Z.leb_le in Hc10, Hc11, Hc20, Hc21.
    cbn [utf8_go] in H1, H2.
    destruct (is_surrogate c1); [discriminate H1 |].
    destruct (is_surrogate c2); [discriminate H2 |].
    destruct (utf8_go (S p1) s1) as [b1 |] eqn:E1; cbn [bind] in H1; [| discriminate H1].
    destruct (utf8_go (S p2) s2) as [b2 |] eqn:E2; cbn [bind] in H2; [| discriminate H2].
    injection H1 as <-. injection H2 as H2.
    apply utf8_char_inj in H2 as [-> ->]; [| lia ..].
    f_equal. eapply IH; eauto.
Qed.

Lemma find_snoc_fresh (f : user_row -> bool) db x :
  List.find f db = None -> List.find f (db ++ [x]) = if f x then Some x else None.
Proof.
  induction db as [| y db IH]; intros H; [reflexivity |].
  cbn [List.find app] in *. destruct (f y); [discriminate H | auto].
Qed.

(** Claim C7, for passwords and identifiers without surrogate code points
    and for ideal cryptographic primitives: registering a fresh username and
    email succeeds and appends one user; logging in with the same password
    returns a token that verifies to the username until it expires, and to
    nothing afterwards; any other password gets the generic error; and every
    token whose [exp] lies in the past verifies to nothing. *)
Theorem auth_round_trip (cr : crypto) (Hcr : ideal cr) (salt : list Z) (db : list user_row)
    (u e p : pystr) (t_login t_verify : Z)
    (Hu : py_str u && no_surrogates u = true)
    (He : py_str e && no_surrogates e = true)
    (Hp : py_str p && no_surrogates p = true)
    (Hfresh_u : List.find (fun r => bool_decide (u_username r = u)) db = None)
    (Hfresh_e : List.find (fun r => bool_decide (u_email r = e)) db = None)
    (Hexp : t_verify <= t_login + ACCESS_TOKEN_EXPIRE_SECONDS) :
  exists hashed,
    let row := mk_user (next_user_id db) u e hashed [] (lit "true") (lit "user") in
    register_user cr salt db u e p [] (lit "user") =
      Ok (RegOk (lit "User '" ++ u ++ lit "' registered successfully!") row, db ++ [row]) /\
    (exists tok,
       login_user cr t_login (db ++ [row]) u p =
         Ok (LoginOk (lit "Welcome back, " ++ u ++ lit "!") tok row) /\
       verify_token cr t_verify tok = Ok (Some (u, lit "user")) /\
       (forall t, t_login + ACCESS_TOKEN_EXPIRE_SECONDS < t -> verify_token cr t tok = Ok None)) /\
    (forall p' t, py_str p' = true -> p' <> p ->
       login_user cr t (db ++ [row]) u p' = Ok (LoginFail generic_login_error)) /\
    (forall tok c now, jwt_decode_sig cr tok = Some c -> exp c < now ->
       verify_token cr now tok = Ok None).
Proof.
  apply andb_prop in Hu as [Hu1 Hu2]. apply andb_prop in He as [He1 He2].
  apply andb_prop in Hp as [Hp1 Hp2].
  destruct (utf8_go_ok 0 u Hu1 Hu2) as [bu [Hbu _]].
  destruct (utf8_go_ok 0 e He1 He2) as [be [Hbe _]].
  destruct (utf8_go_ok 0 p Hp1 Hp2) as [bp [Hbp Hbp_bytes]].
  set (h := hexdigest (sha256 cr bp)).
  assert (Hh_ascii : Forall is_ascii h)
    by (apply hexdigest_ascii, (sha256_bytes _ Hcr), Hbp_bytes).
  assert (Hh : utf8_go 0 h = Ok h) by (apply utf8_go_ascii; exact Hh_ascii).
  set (hashed := bcrypt_hashpw cr h salt).
  assert (Hhashed : utf8_go 0 hashed = Ok hashed)
    by (apply utf8_go_ascii, (hashpw_ascii _ Hcr), Hh_ascii).
  exists hashed. intros row.
  assert (Hfind : List.find (fun r => bool_decide (u_username r = u)) (db ++ [row]) = Some row).
  { rewrite find_snoc_fresh by exact Hfresh_u. cbn. rewrite bool_decide_eq_true_2; reflexivity. }
  assert (Hexpired : forall tok c now, jwt_decode_sig cr tok = Some c -> exp c < now ->
                       verify_token cr now tok = Ok None).
  { intros tok c now Hd Hlt. unfold verify_token, jwt_decode. rewrite Hd.
    rewrite (proj2 (Z.ltb_lt _ _) Hlt). reflexivity. }
  split; [| split; [| split; [| exact Hexpired]]].
  - (* register_user *)
    unfold register_user, query_first, hash_password, _hash_password_sha256, encode_utf8.
    rewrite Hbu. cbn [bind]. rewrite Hfresh_u.
    rewrite Hbe. cbn [bind]. rewrite Hfresh_e.
    rewrite Hbp. cbn [bind]. fold h. rewrite Hh. cbn [bind]. fold hashed.
    reflexivity.
  - (* login_user with the registered password *)
    eexists. split; [| split].
    + unfold login_user, query_first, encode_utf8. rewrite Hbu. cbn [bind]. rewrite Hfind.
      unfold verify_password, _hash_password_sha256, encode_utf8.
      rewrite Hbp. cbn [bind]. fold h. rewrite Hh. cbn [bind].
      cbn [u_hashed_password row]. rewrite Hhashed. cbn [bind].
      unfold hashed. rewrite (checkpw_hashpw _ Hcr). cbn [negb].
      cbn [u_is_active row]. rewrite bool_decide_eq_true_2 by reflexivity. cbn [negb].
      reflexivity.
    + unfold verify_token, jwt_decode, create_access_token.
      rewrite (jwt_roundtrip _ Hcr). cbn [exp sub role email row u_username u_role u_email].
      rewrite (proj2 (Z.ltb_ge _ _) Hexp). reflexivity.
    + intros t Ht. eapply Hexpired; [apply (jwt_roundtrip _ Hcr) | exact Ht].
  - (* login_user with another password *)
    intros p' t Hp' Hne.
    unfold login_user, query_first, encode_utf8. rewrite Hbu. cbn [bind]. rewrite Hfind.
    assert (Hv : verify_password cr p' hashed = false).
    { unfold verify_password, _hash_password_sha256, encode_utf8.
      destruct (utf8_go 0 p') as [bp' |] eqn:Hbp'; cbn [bind]; [| reflexivity].
      pose proof (utf8_go_bytes 0 p' bp' Hp' Hbp') as Hbp'_bytes.
      assert (Hh'_ascii : Forall is_ascii (hexdigest (sha256 cr bp')))
        by (apply hexdigest_ascii, (sha256_bytes _ Hcr), Hbp'_bytes).
      rewrite (utf8_go_ascii 0 _ Hh'_ascii). cbn [bind].
      rewrite Hhashed. cbn [bind].
      destruct (bcrypt_checkpw cr (hexdigest (sha256 cr bp')) hashed) eqn:Hc; [| reflexivity].
      exfalso. apply Hne.
      apply (checkpw_only _ Hcr) in Hc.
      apply hexdigest_inj in Hc;
        [| apply (sha256_bytes _ Hcr); assumption .. ].
      apply (sha256_inj _ Hcr) in Hc; [| assumption ..].
      subst bp'. eapply utf8_go_inj; eauto. }
    cbn [u_hashed_password row]. rewrite Hv. reflexivity.
Qed.

(** Counterexample to claim C7 as stated: a password holding a lone
    surrogate ([\ud800]) is a valid Python [str], but
    [password.encode('utf-8')] raises [UnicodeEncodeError], so registering
    a fresh user with it fails (here with the stand-in primitives, which
    the failure never reaches). *)
Lemma register_surrogate_counterexample :
  register_user toy_crypto [] [] (lit "alice") (lit "alice@example.com") [55296] [] (lit "user") =
    Ok (RegFail (lit "'utf-8' codec can't encode character '\ud800' in position 0: surrogates not allowed"), []).
Proof. reflexivity. Qed.

(** A witness for [auth_round_trip]: the stand-in primitives, a fresh user
    registered, logged in at time 0 and verified at time 100. *)
Lemma auth_round_trip_witness :
  exists row tok,
    register_user toy_crypto [] [] (lit "alice") (lit "alice@example.com") (lit "s3cret") []
      (lit "user") = Ok (RegOk (lit "User 'alice' registered successfully!") row, [row]) /\
    login_user toy_crypto 0 [row] (lit "alice") (lit "s3cret") =
      Ok (LoginOk (lit "Welcome back, alice!") tok row) /\
    verify_token toy_crypto 100 tok = Ok (Some (lit "alice", lit "user")).
Proof.
  destruct (auth_round_trip toy_crypto
              ltac:(constructor; cbn;
                    [ intros b H; exact H
                    | intros b1 b2 _ _ H; exact H
                    | intros pw _ H; exact H
                    | intros pw _; apply bool_decide_eq_true_2; reflexivity
                    | intros pw pw' _ H; exact (bool_decide_eq_true_1 _ H)
                    | reflexivity ])
              [] [] (lit "alice") (lit "alice@example.com") (lit "s3cret") 0 100
              ltac:(reflexivity) ltac:(reflexivity) ltac:(reflexivity)
              ltac:(reflexivity) ltac:(reflexivity)
              ltac:(unfold ACCESS_TOKEN_EXPIRE_SECONDS; lia))
    as (hashed & Hreg & (tok & Hlog & Hver & _) & _).
  exists (mk_user (next_user_id []) (lit "alice") (lit "alice@example.com") hashed []
            (lit "true") (lit "user")), tok.
  split; [exact Hreg | split; [exact Hlog | exact Hver]].
Defined.

End AuthAgentFacts.

Module SecurityAgentOpsFacts.
Import SecurityAgent SecurityAgentOps.
Local Open Scope Q_scope.
Local Open Scope list_scope.

Lemma get_config_window (limit_type : string) : window (get_config limit_type) = 60.
Proof.
  unfold get_config, RATE_LIMITS. cbn [List.find fst].
  repeat (destruct (String.eqb _ _); [reflexivity|]); reflexivity.
Qed.

Lemma get_config_requests (limit_type : string) : (1 <= requests (get_config limit_type))%nat.
Proof.
  unfold get_config, RATE_LIMITS. cbn [List.find fst].
  repeat (destruct (String.eqb _ _); [cbn; lia|]); cbn; lia.
Qed.

Lemma Qle_bool_spec (x y : Q) : reflect (x <= y) (Qle_bool x y).
Proof. apply iff_reflect. symmetry. apply Qle_bool_iff. Qed.

(** The accepted calls of a history that are later than [c], in order. *)
Definition filt (c : Q) (hist : list (Q * bool)) : list Q :=
  map fst (List.filter (fun p => snd p && negb (Qle_bool (fst p) c)) hist).

Lemma filter_filt (c0 c1 : Q) (hist : list (Q * bool)) :
  c0 <= c1 ->
  List.filter (fun t => negb (Qle_bool t c1)) (filt c0 hist) = filt c1 hist.
Proof.
  intros Hc. unfold filt. induction hist as [|[t b] hist IH]; [reflexivity|].
  simpl. destruct b; simpl; [|exact IH].
  destruct (Qle_bool_spec t c0); simpl.
  - destruct (Qle_bool_spec t c1); simpl; [exact IH|exfalso; lra].
  - destruct (Qle_bool_spec t c1); simpl; now rewrite IH.
Qed.

Lemma window_count_app (h1 h2 : list (Q * bool)) (lo hi : Q) :
  window_count (h1 ++ h2) lo hi = (window_count h1 lo hi + window_count h2 lo hi)%nat.
Proof. unfold window_count. now rewrite List.filter_app, List.length_app. Qed.

Lemma window_count_filt (hist : list (Q * bool)) (lo hi : Q) :
  (forall p, In p hist -> fst p <= hi) ->
  window_count hist lo hi = length (filt lo hist).
Proof.
  unfold window_count, filt. induction hist as [|[t b] hist IH]; intros Hh; [reflexivity|].
  assert (Ht : t <= hi) by (apply (Hh (t, b)); now left).
  specialize (IH (fun p Hp => Hh p (or_intror Hp))).
  simpl. destruct b, (Qle_bool_spec t lo), (Qle_bool_spec t hi); simpl; try rewrite IH;
    try reflexivity; contradiction.
Qed.

Lemma window_count_le_filt (hist : list (Q * bool)) (lo' lo hi : Q) :
  lo' <= lo -> (window_count hist lo hi <= length (filt lo' hist))%nat.
Proof.
  intros Hl. unfold window_count, filt. induction hist as [|[t b] hist IH]; [simpl; lia|].
  simpl. destruct b, (Qle_bool_spec t lo), (Qle_bool_spec t hi), (Qle_bool_spec t lo');
    simpl; try lia. exfalso. lra.
Qed.

Lemma window_count_single (t lo hi : Q) (b : bool) :
  window_count [(t, b)] lo hi =
  if b && negb (Qle_bool t lo) && Qle_bool t hi then 1%nat else 0%nat.
Proof. unfold window_count. simpl. now destruct (_ && _ && _). Qed.

Lemma run_checks_window (st : state) (identifier limit_type : string)
    (hist : list (Q * bool)) (c0 : Q) (times : list Q) :
  identifier ∉ blocked_ips st ->
  counts_of st identifier = filt c0 hist ->
  StronglySorted Qle times ->
  (forall t, In t times -> c0 <= t - window (get_config limit_type) /\
                           forall p, In p hist -> fst p <= t) ->
  exists ds st',
    run_checks st identifier limit_type times = Ok (ds, st') /\
    length ds = length times /\
    (forall k t d, nth_error times k = Some t -> nth_error ds k = Some d ->
       allowed_d d = true <->
       (window_count (hist ++ firstn k (combine times (map allowed_d ds)))
          (t - window (get_config limit_type)) t < requests (get_config limit_type))%nat) /\
    ((forall a, window_count hist (a - window (get_config limit_type)) a
                <= requests (get_config limit_type))%nat ->
     forall a, (window_count (hist ++ combine times (map allowed_d ds))
                  (a - window (get_config limit_type)) a <= requests (get_config limit_type))%nat).
Proof.
  pose proof (get_config_window limit_type) as Hw.
  pose proof (get_config_requests limit_type) as HR.
  set (w := window (get_config limit_type)) in *.
  set (R := requests (get_config limit_type)) in *.
  revert st hist c0. induction times as [|t rest IH]; intros st hist c0 Hnb Hc Hs Ht.
  { exists [], st. split; [reflexivity|]. split; [reflexivity|]. split.
    - intros k t d Ek. destruct k; discriminate.
    - intros Hb a. simpl. rewrite app_nil_r. apply Hb. }
  apply StronglySorted_inv in Hs as [Hs Hall].
  destruct (Ht t (or_introl eq_refl)) as [Hc0 Hh].
  assert (Hkept : List.filter (fun req_time => negb (Qle_bool req_time (t - w)))
                    (counts_of st identifier) = filt (t - w) hist)
    by (rewrite Hc; apply filter_filt; exact Hc0).
  assert (Hlen : length (filt (t - w) hist) = window_count hist (t - w) t)
    by (symmetry; apply window_count_filt; exact Hh).
  assert (Hnext : forall b t', In t' rest ->
            t - w <= t' - w /\ forall p, In p (hist ++ [(t, b)]) -> fst p <= t').
  { intros b t' Ht'. assert (Htt : t <= t') by exact (proj1 (List.Forall_forall _ _) Hall t' Ht').
    split; [lra|]. intros p Hp. apply in_app_iff in Hp as [Hp|[<-|[]]]; [|exact Htt].
    apply (proj2 (Ht t' (or_intror Ht')) p Hp). }
  simpl run_checks. unfold check_rate_limit.
  rewrite (bool_decide_eq_false_2 _ Hnb). fold w R. rewrite Hkept.
  destruct (Nat.leb R (length (filt (t - w) hist))) eqn:Hle.
  - (* limit reached: the call is refused *)
    apply Nat.leb_le in Hle.
    assert (Hmin : exists m, py_min (filt (t - w) hist) = Ok m).
    { destruct (filt (t - w) hist); [simpl in Hle; lia|]. eexists; reflexivity. }
    destruct Hmin as [m Hm]. rewrite Hm. cbn [bind].
    set (st1 := mk_state (<[identifier := filt (t - w) hist]> (request_counts st))
                  (blocked_ips st)).
    destruct (IH st1 (hist ++ [(t, false)]) (t - w)) as (ds & st' & Er & El & Ech & Eb).
    + exact Hnb.
    + unfold counts_of, st1. simpl. rewrite lookup_insert_eq.
      unfold filt. rewrite List.filter_app. simpl. now rewrite app_nil_r.
    + exact Hs.
    + intros t' Ht'. apply (Hnext false t' Ht').
    + eexists _, st'. rewrite Er. cbn [bind]. split; [reflexivity|].
      split; [simpl; congruence|]. split.
      * intros [|k] t1 d Et Ed.
        -- simpl in Et, Ed. injection Et as <-. injection Ed as <-. simpl.
           rewrite app_nil_r. split; [discriminate|]. rewrite <- Hlen. lia.
        -- simpl in Et, Ed. simpl map. simpl combine. simpl firstn.
           rewrite (Ech k t1 d Et Ed). now rewrite <- app_assoc.
      * intros Hb a. simpl map. simpl combine.
        replace (hist ++ (t, false) :: combine rest (map allowed_d ds))
          with ((hist ++ [(t, false)]) ++ combine rest (map allowed_d ds))
          by now rewrite <- app_assoc.
        apply Eb. intros a'. rewrite window_count_app, window_count_single. simpl.
        rewrite Nat.add_0_r. apply Hb.
  - (* the call is accepted and recorded *)
    apply Nat.leb_gt in Hle. cbn [bind].
    set (st1 := mk_state (<[identifier := (filt (t - w) hist ++ [t])]> (request_counts st))
                  (blocked_ips st)).
    destruct (IH st1 (hist ++ [(t, true)]) (t - w)) as (ds & st' & Er & El & Ech & Eb).
    + exact Hnb.
    + unfold counts_of, st1. simpl. rewrite lookup_insert_eq.
      unfold filt. rewrite List.filter_app, map_app. simpl.
      destruct (Qle_bool_spec t (t - w)); [exfalso; rewrite Hw in *; lra|]. reflexivity.
    + exact Hs.
    + intros t' Ht'. apply (Hnext true t' Ht').
    + eexists _, st'. rewrite Er. cbn [bind]. split; [reflexivity|].
      split; [simpl; congruence|]. split.
      * intros [|k] t1 d Et Ed.
        -- simpl in Et, Ed. injection Et as <-. injection Ed as <-. simpl.
           rewrite app_nil_r. rewrite <- Hlen. split; [intros _; exact Hle|reflexivity].
        -- simpl in Et, Ed. simpl map. simpl combine. simpl firstn.
           rewrite (Ech k t1 d Et Ed). now rewrite <- app_assoc.
      * intros Hb a. simpl map. simpl combine.
        replace (hist ++ (t, true) :: combine rest (map allowed_d ds))
          with ((hist ++ [(t, true)]) ++ combine rest (map allowed_d ds))
          by now rewrite <- app_assoc.
        apply Eb. intros a'. rewrite window_count_app, window_count_single. simpl.
        destruct (Qle_bool_spec t (a' - w)), (Qle_bool_spec t a'); simpl;
          try (rewrite Nat.add_0_r; apply Hb).
        pose proof (window_count_le_filt hist (t - w) (a' - w) a') as Hm.
        assert (t - w <= a' - w) by lra. specialize (Hm H). lia.
Qed.

(** A call to [check_rate_limit] only touches the entry of its own
    identifier: the list of every other identifier and the set of blocked
    addresses come out unchanged. *)
Theorem check_rate_limit_isolation (st : state) (identifier limit_type : string) (now : Q)
    (d : decision) (st' : state) :
  check_rate_limit st identifier limit_type now = Ok (d, st') ->
  blocked_ips st' = blocked_ips st /\
  forall other, other <> identifier ->
    request_counts st' !! other = request_counts st !! other.
Proof.
  unfold check_rate_limit. case_bool_decide.
  - intros Hr. injection Hr as _ <-. split; reflexivity.
  - destruct (Nat.leb _ _).
    + destruct (py_min _); cbn [bind]; [|discriminate].
      intros Hr. injection Hr as _ <-. split; [reflexivity|].
      intros other Ho. simpl. now rewrite lookup_insert_ne by congruence.
    + intros Hr. injection Hr as _ <-. split; [reflexivity|].
      intros other Ho. simpl. now rewrite lookup_insert_ne by congruence.
Qed.

Lemma check_rate_limit_isolation_witness :
  check_rate_limit st_full "10.0.0.2" "search" 10 =
    Ok (Allowed 1 30 29 70, mk_state (<[ "10.0.0.2" := [10] ]> (request_counts st_full)) ∅) /\
  blocked_ips (mk_state (<[ "10.0.0.2" := [10] ]> (request_counts st_full)) ∅) = blocked_ips st_full /\
  forall other, other <> "10.0.0.2" ->
    (<[ "10.0.0.2" := [10] ]> (request_counts st_full)) !! other = request_counts st_full !! other.
Proof.
  assert (E : check_rate_limit st_full "10.0.0.2" "search" 10 =
    Ok (Allowed 1 30 29 70, mk_state (<[ "10.0.0.2" := [10] ]> (request_counts st_full)) ∅))
    by reflexivity.
  split; [exact E|]. exact (check_rate_limit_isolation _ _ _ _ _ _ E).
Defined.

(** After [block_ip(ip)] (which always reports success), every call
    [check_rate_limit(ip, limit_type)] is refused with [retry_after = 3600]
    and leaves the state as it is, whatever the limit type. *)
Theorem block_ip_then_check (st : state) (ip : string) (duration_hours : Z)
    (limit_type : string) (now : Q) :
  fst (fst (block_ip st ip duration_hours)) = true /\
  check_rate_limit (snd (block_ip st ip duration_hours)) ip limit_type now =
    Ok (Blocked 3600, snd (block_ip st ip duration_hours)).
Proof.
  split; [reflexivity|]. unfold check_rate_limit.
  rewrite bool_decide_eq_true_2; [reflexivity|]. simpl. set_solver.
Qed.

(** [unblock_ip] right after [block_ip] on the same address succeeds,
    keeps the request history, and removes the address from the blocked
    set; the next [check_rate_limit] on that address is no longer refused
    as blocked. *)
Theorem unblock_ip_after_block_ip (st : state) (ip : string) (duration_hours : Z)
    (limit_type : string) (now : Q) :
  unblock_ip (snd (block_ip st ip duration_hours)) ip =
    ((true, ("IP " ++ ip ++ " unblocked")%string),
     mk_state (request_counts st) (({[ ip ]} ∪ blocked_ips st) ∖ {[ ip ]})) /\
  (ip ∉ blocked_ips (snd (unblock_ip (snd (block_ip st ip duration_hours)) ip))) /\
  match check_rate_limit (snd (unblock_ip (snd (block_ip st ip duration_hours)) ip))
          ip limit_type now with
  | Ok (Blocked _, _) => False
  | _ => True
  end.
Proof.
  assert (E : unblock_ip (snd (block_ip st ip duration_hours)) ip =
    ((true, ("IP " ++ ip ++ " unblocked")%string),
     mk_state (request_counts st) (({[ ip ]} ∪ blocked_ips st) ∖ {[ ip ]}))).
  { unfold unblock_ip. rewrite bool_decide_eq_true_2; [reflexivity|]. simpl. set_solver. }
  rewrite E. split; [reflexivity|]. simpl snd.
  assert (Hn : ip ∉ blocked_ips (mk_state (request_counts st) (({[ ip ]} ∪ blocked_ips st) ∖ {[ ip ]})))
    by (simpl; set_solver).
  split; [exact Hn|]. unfold check_rate_limit. rewrite (bool_decide_eq_false_2 _ Hn).
  destruct (Nat.leb _ _); [destruct (py_min _)|]; exact I.
Qed.

(** For an address that was not blocked, [block_ip] followed by
    [unblock_ip] gives back the state it started from, and [unblock_ip] on
    it by itself reports failure and changes nothing. *)
Theorem unblock_ip_restores (st : state) (ip : string) (duration_hours : Z) :
  ip ∉ blocked_ips st ->
  snd (unblock_ip (snd (block_ip st ip duration_hours)) ip) = st /\
  unblock_ip st ip = ((false, ("IP " ++ ip ++ " was not blocked")%string), st).
Proof.
  intros Hn. split.
  - unfold unblock_ip. rewrite bool_decide_eq_true_2 by (simpl; set_solver). simpl.
    destruct st as [rc bl]. f_equal. simpl in Hn. apply leibniz_equiv. set_solver.
  - unfold unblock_ip. now rewrite bool_decide_eq_false_2 by exact Hn.
Qed.

Lemma unblock_ip_restores_witness :
  ("10.0.0.1" ∉ blocked_ips st_full) /\
  snd (unblock_ip (snd (block_ip st_full "10.0.0.1" 24)) "10.0.0.1") = st_full /\
  unblock_ip st_full "10.0.0.1" = ((false, "IP 10.0.0.1 was not blocked"), st_full).
Proof.
  assert (Hn : "10.0.0.1" ∉ blocked_ips st_full) by (simpl; set_solver).
  split; [exact Hn|]. exact (unblock_ip_restores st_full "10.0.0.1" 24 Hn).
Defined.

(** Sliding window.  Successive calls for one identifier that is not
    blocked and has no recorded requests, at nondecreasing times, never
    raise; each call is accepted exactly when fewer than [requests] of the
    earlier calls were accepted in the window [(t - window, t]] of its own
    time [t]; and no window [(a - window, a]] of any length-[window] span
    ever contains more than [requests] accepted calls. *)
Theorem check_rate_limit_sliding_window (st : state) (identifier limit_type : string)
    (times : list Q) :
  identifier ∉ blocked_ips st ->
  counts_of st identifier = [] ->
  Sorted Qle times ->
  exists ds st',
    run_checks st identifier limit_type times = Ok (ds, st') /\
    length ds = length times /\
    (forall k t d, nth_error times k = Some t -> nth_error ds k = Some d ->
       allowed_d d = true <->
       (window_count (firstn k (combine times (map allowed_d ds)))
          (t - window (get_config limit_type)) t < requests (get_config limit_type))%nat) /\
    (forall a, (window_count (combine times (map allowed_d ds))
                  (a - window (get_config limit_type)) a <= requests (get_config limit_type))%nat).
Proof.
  intros Hnb Hc Hs.
  apply Sorted_StronglySorted in Hs; [|intros x y z; apply Qle_trans].
  destruct (run_checks_window st identifier limit_type []
              (match times with t0 :: _ => t0 - window (get_config limit_type) | [] => 0 end)
              times Hnb Hc Hs) as (ds & st' & Er & El & Ech & Eb).
  - intros t Ht. split; [|intros p []].
    destruct times as [|t0 rest]; [destruct Ht|].
    destruct Ht as [<-|Ht]; [apply Qle_refl|].
    apply StronglySorted_inv in Hs as [_ Hall].
    pose proof (proj1 (List.Forall_forall _ _) Hall t Ht). lra.
  - exists ds, st'. split; [exact Er|]. split; [exact El|]. split.
    + exact Ech.
    + intros a. apply (Eb (fun a' => Nat.le_0_l _) a).
Qed.

Lemma check_rate_limit_sliding_window_witness :
  ("10.0.0.9" ∉ blocked_ips (mk_state ∅ ∅)) /\
  counts_of (mk_state ∅ ∅) "10.0.0.9" = [] /\
  Sorted Qle [0; 10; 20; 30; 40; 50; 59; 61] /\
  exists ds st',
    run_checks (mk_state ∅ ∅) "10.0.0.9" "auth" [0; 10; 20; 30; 40; 50; 59; 61] = Ok (ds, st') /\
    length ds = 8%nat.
Proof.
  assert (H1 : "10.0.0.9" ∉ blocked_ips (mk_state ∅ ∅)) by (simpl; set_solver).
  assert (H2 : counts_of (mk_state ∅ ∅) "10.0.0.9" = []) by reflexivity.
  assert (H3 : Sorted Qle [0; 10; 20; 30; 40; 50; 59; 61])
    by (repeat constructor; unfold Qle; simpl; lia).
  split; [exact H1|]. split; [exact H2|]. split; [exact H3|].
  destruct (check_rate_limit_sliding_window _ _ "auth" _ H1 H2 H3)
    as (ds & st' & Er & El & _ & _).
  exists ds, st'. split; [exact Er|exact El].
Defined.

End SecurityAgentOpsFacts.

Module SearchAgentOpsFacts.
Import SearchAgent SearchAgentOps.
Local Open Scope Q_scope.
Local Open Scope list_scope.

(** A list transformer that keeps each element by a test on that element alone. *)
Definition per (g : list invoice -> list invoice) : Prop :=
  exists P : invoice -> bool, forall l, g l = List.filter P l.

Lemma filter_true {A} (l : list A) : List.filter (fun _ => true) l = l.
Proof. induction l; simpl; congruence. Qed.

Lemma per_id : per (fun l => l).
Proof. exists (fun _ => true). intros l. now rewrite filter_true. Qed.

Lemma per_comp (g1 g2 : list invoice -> list invoice) :
  per g1 -> per g2 -> per (fun l => g2 (g1 l)).
Proof.
  intros [P1 H1] [P2 H2]. exists (fun x => P1 x && P2 x). intros l.
  rewrite H1, H2. induction l as [|a l IH]; [reflexivity|]. simpl.
  destruct (P1 a); simpl; [destruct (P2 a); simpl; [f_equal|]|]; exact IH.
Qed.

Lemma per_if (c : bool) (g : list invoice -> list invoice) :
  per g -> per (fun l => if c then g l else l).
Proof. intros Hg. destruct c; [exact Hg|apply per_id]. Qed.

Definition nonempty {A} (l : list A) : bool := match l with [] => false | _ => true end.

Lemma per_date (today : Z * Z * Z) (sd ed pr : option string) :
  per (fun l => filter_by_date_range today l sd ed pr).
Proof.
  exists (fun inv => nonempty (filter_by_date_range today [inv] sd ed pr)).
  destruct today as [[y m] d]. unfold filter_by_date_range.
  intros [|i l]; [reflexivity|].
  lazymatch goal with |- context [match ?M with (a, b) => _ end] => destruct M as [s e] end.
  destruct (truthy_str s || truthy_str e).
  - generalize (i :: l). intros l'. induction l' as [|a l' IH]; [reflexivity|].
    simpl. destruct (negb _ && negb _); simpl; [f_equal|]; exact IH.
  - simpl. now rewrite filter_true.
Qed.

Lemma per_amount (lo hi : option Q) : per (fun l => filter_by_amount_range l lo hi).
Proof. eexists. intros [|i l]; reflexivity. Qed.

Lemma per_status (sts : list string) : per (fun l => filter_by_payment_status l sts).
Proof.
  destruct sts as [|s0 sts]; [exists (fun _ => true); intros [|i l]; simpl; rewrite ?filter_true; reflexivity|].
  eexists. intros [|i l]; reflexivity.
Qed.

Lemma per_gst (rs : list Q) : per (fun l => filter_by_gst_rate l rs).
Proof.
  destruct rs as [|r0 rs]; [exists (fun _ => true); intros [|i l]; simpl; rewrite ?filter_true; reflexivity|].
  eexists. intros [|i l]; reflexivity.
Qed.

Lemma per_customer (q : string) (fuzzy : bool) : per (fun l => search_by_customer l q fuzzy).
Proof.
  destruct q as [|c q]; [exists (fun _ => true); intros [|i l]; simpl; rewrite ?filter_true; reflexivity|].
  destruct fuzzy; eexists; intros [|i l]; reflexivity.
Qed.

Lemma per_number (q : string) : per (fun l => search_by_invoice_number l q).
Proof.
  destruct q as [|c q]; [exists (fun _ => true); intros [|i l]; simpl; rewrite ?filter_true; reflexivity|].
  eexists; intros [|i l]; reflexivity.
Qed.

Lemma per_item (q : string) : per (fun l => search_by_item l q).
Proof.
  destruct q as [|c q]; [exists (fun _ => true); intros [|i l]; simpl; rewrite ?filter_true; reflexivity|].
  eexists; intros [|i l]; reflexivity.
Qed.

(** The seven steps of [advanced_search], each a function of the running result. *)
Definition stage_date (today : Z * Z * Z) (f : filters) (r : list invoice) : list invoice :=
  if truthy_str (date_preset f) || truthy_str (start_date f) || truthy_str (end_date f)
  then filter_by_date_range today r (start_date f) (end_date f) (date_preset f) else r.
Definition stage_amount (f : filters) (r : list invoice) : list invoice :=
  if bool_decide (is_Some (min_amount f)) || bool_decide (is_Some (max_amount f))
  then filter_by_amount_range r (min_amount f) (max_amount f) else r.
Definition stage_status (f : filters) (r : list invoice) : list invoice :=
  match payment_statuses f with Some ((_ :: _) as sts) => filter_by_payment_status r sts | _ => r end.
Definition stage_gst (f : filters) (r : list invoice) : list invoice :=
  match gst_rates f with Some ((_ :: _) as rs) => filter_by_gst_rate r rs | _ => r end.
Definition stage_customer (f : filters) (r : list invoice) : list invoice :=
  match customer_query f with
  | Some ((String _ _) as q) =>
      search_by_customer r q (match fuzzy_search f with Some b => b | None => true end)
  | _ => r end.
Definition stage_number (f : filters) (r : list invoice) : list invoice :=
  match f_invoice_number f with Some ((String _ _) as q) => search_by_invoice_number r q | _ => r end.
Definition stage_item (f : filters) (r : list invoice) : list invoice :=
  match item_query f with Some ((String _ _) as q) => search_by_item r q | _ => r end.

Lemma advanced_search_stages (today : Z * Z * Z) (l : list invoice) (f : filters) :
  advanced_search today l f =
  stage_item f (stage_number f (stage_customer f (stage_gst f (stage_status f
    (stage_amount f (stage_date today f l)))))).
Proof. reflexivity. Qed.

Lemma advanced_search_per (today : Z * Z * Z) (f : filters) :
  per (fun l => advanced_search today l f).
Proof.
  assert (H : per (fun l => stage_item f (stage_number f (stage_customer f (stage_gst f
                  (stage_status f (stage_amount f (stage_date today f l)))))))).
  { apply (per_comp _ (stage_item f)); [apply (per_comp _ (stage_number f))|];
      [apply (per_comp _ (stage_customer f))| |]; [apply (per_comp _ (stage_gst f))| | |];
      [apply (per_comp _ (stage_status f))| | | |]; [apply (per_comp _ (stage_amount f))| | | | |].
    - apply per_if, per_date.
    - apply per_if, per_amount.
    - unfold stage_status. destruct (payment_statuses f) as [[|s0 sts]|];
        [apply per_id|apply per_status|apply per_id].
    - unfold stage_gst. destruct (gst_rates f) as [[|r0 rs]|];
        [apply per_id|apply per_gst|apply per_id].
    - unfold stage_customer. destruct (customer_query f) as [[|c q]|];
        [apply per_id|apply per_customer|apply per_id].
    - unfold stage_number. destruct (f_invoice_number f) as [[|c q]|];
        [apply per_id|apply per_number|apply per_id].
    - unfold stage_item. destruct (item_query f) as [[|c q]|];
        [apply per_id|apply per_item|apply per_id]. }
  destruct H as [P HP]. exists P. intros l. rewrite advanced_search_stages. apply HP.
Qed.

Lemma filter_sublist {A} (P : A -> bool) (l : list A) : List.filter P l `sublist_of` l.
Proof.
  induction l as [|a l IH]; simpl; [constructor|].
  destruct (P a); [apply sublist_skip|apply sublist_cons]; exact IH.
Qed.

Lemma filter_idem {A} (P : A -> bool) (l : list A) :
  List.filter P (List.filter P l) = List.filter P l.
Proof.
  induction l as [|a l IH]; simpl; [reflexivity|].
  destruct (P a) eqn:E; simpl; [rewrite E; f_equal|]; exact IH.
Qed.

(** [advanced_search] decides invoice by invoice: for fixed filters (and
    day), there is a test on a single invoice such that the search keeps
    exactly the invoices passing it, in their original order.  Hence the
    search of a concatenation is the concatenation of the searches, the
    result is a subsequence of the input, and searching the result again
    with the same filters returns it unchanged. *)
Theorem advanced_search_per_invoice (today : Z * Z * Z) (f : filters) :
  (exists P : invoice -> bool, forall l, advanced_search today l f = List.filter P l) /\
  (forall l1 l2, advanced_search today (l1 ++ l2) f =
                 advanced_search today l1 f ++ advanced_search today l2 f) /\
  (forall l, advanced_search today l f `sublist_of` l) /\
  (forall l, advanced_search today (advanced_search today l f) f = advanced_search today l f).
Proof.
  destruct (advanced_search_per today f) as [P HP].
  split; [exists P; exact HP|]. split; [|split].
  - intros l1 l2. rewrite !HP. apply List.filter_app.
  - intros l. rewrite HP. apply filter_sublist.
  - intros l. rewrite !HP. apply filter_idem.
Qed.

Lemma string_compare_refl (s : string) : String.compare s s = Eq.
Proof.
  induction s as [|c s IH]; [reflexivity|]. simpl.
  unfold Ascii.compare. rewrite N.compare_refl. exact IH.
Qed.

Lemma not_ltb_both (a b : string) :
  negb (String.ltb a b) && negb (String.ltb b a) = String.eqb a b.
Proof.
  unfold String.ltb. rewrite (String.compare_antisym b a).
  destruct (String.compare a b) eqn:E; simpl.
  - apply String.compare_eq_iff in E. subst b. symmetry. apply String.eqb_refl.
  - symmetry. apply String.eqb_neq. intros <-. rewrite string_compare_refl in E. discriminate.
  - symmetry. apply String.eqb_neq. intros <-. rewrite string_compare_refl in E. discriminate.
Qed.

Lemma fmt_date_truthy (ymd : Z * Z * Z) : truthy_str (Some (fmt_date ymd)) = true.
Proof.
  destruct ymd as [[y m] d]. unfold fmt_date.
  destruct (pad 4 (string_of_nat (Z.to_nat y))); reflexivity.
Qed.

(** The ["today"] preset overrides any explicit [start_date] and
    [end_date] and keeps exactly the invoices dated today (their [date]
    string equals today's ["%Y-%m-%d"]), in order. *)
Theorem filter_by_date_range_today (today : Z * Z * Z) (invoices : list invoice)
    (sd ed : option string) :
  filter_by_date_range today invoices sd ed (Some "today") =
  List.filter (fun inv => String.eqb (date inv) (fmt_date today)) invoices.
Proof.
  destruct today as [[y m] d]. destruct invoices as [|i l]; [reflexivity|].
  cbn [filter_by_date_range]. rewrite fmt_date_truthy. cbn [orb andb].
  generalize (i :: l). intros l'. induction l' as [|a l' IH]; [reflexivity|].
  cbn [List.filter]. rewrite not_ltb_both, IH. reflexivity.
Qed.

Lemma lower_char_upper_char (c : ascii) : lower_char (upper_char c) = lower_char c.
Proof. destruct c as [[] [] [] [] [] [] [] []]; reflexivity. Qed.

Lemma upper_char_lower_char (c : ascii) : upper_char (lower_char c) = upper_char c.
Proof. destruct c as [[] [] [] [] [] [] [] []]; reflexivity. Qed.

Lemma lower_char_idem (c : ascii) : lower_char (lower_char c) = lower_char c.
Proof. destruct c as [[] [] [] [] [] [] [] []]; reflexivity. Qed.

Lemma upper_char_idem (c : ascii) : upper_char (upper_char c) = upper_char c.
Proof. destruct c as [[] [] [] [] [] [] [] []]; reflexivity. Qed.

Lemma recase_compose (f g : ascii -> ascii) (s : string) :
  (forall c, f (g c) = f c) ->
  string_of_list_ascii (map f (list_ascii_of_string
    (string_of_list_ascii (map g (list_ascii_of_string s))))) =
  string_of_list_ascii (map f (list_ascii_of_string s)).
Proof.
  intros H. induction s as [|c s IH]; [reflexivity|]. simpl.
  rewrite H. f_equal. exact IH.
Qed.

Lemma lower_upper (s : string) : lower (upper s) = lower s.
Proof. apply recase_compose, lower_char_upper_char. Qed.
Lemma upper_lower (s : string) : upper (lower s) = upper s.
Proof. apply recase_compose, upper_char_lower_char. Qed.
Lemma lower_lower (s : string) : lower (lower s) = lower s.
Proof. apply recase_compose, lower_char_idem. Qed.
Lemma upper_upper (s : string) : upper (upper s) = upper s.
Proof. apply recase_compose, upper_char_idem. Qed.

Lemma lower_cons (c : ascii) (s : string) : lower (String c s) = String (lower_char c) (lower s).
Proof. reflexivity. Qed.
Lemma upper_cons (c : ascii) (s : string) : upper (String c s) = String (upper_char c) (upper s).
Proof. reflexivity. Qed.

(** The three text searches ignore the case of an ASCII query: the
    customer, invoice-number and item searches return the same invoices for
    the query, its lower-case and its upper-case form. *)
Theorem search_query_case_insensitive (invoices : list invoice) (query : string) (fuzzy : bool) :
  ascii_str query = true ->
  search_by_customer invoices (lower query) fuzzy = search_by_customer invoices query fuzzy /\
  search_by_customer invoices (upper query) fuzzy = search_by_customer invoices query fuzzy /\
  search_by_invoice_number invoices (lower query) = search_by_invoice_number invoices query /\
  search_by_invoice_number invoices (upper query) = search_by_invoice_number invoices query /\
  search_by_item invoices (lower query) = search_by_item invoices query /\
  search_by_item invoices (upper query) = search_by_item invoices query.
Proof.
  intros _. destruct invoices as [|i l]; [repeat split|].
  destruct query as [|c q]; [repeat split|].
  rewrite lower_cons, upper_cons.
  unfold search_by_customer, search_by_invoice_number, search_by_item.
  cbv beta iota zeta.
  rewrite <- lower_cons, <- upper_cons.
  rewrite lower_lower, lower_upper, upper_lower, upper_upper.
  repeat split.
Qed.

Lemma search_query_case_insensitive_witness :
  ascii_str "john" = true /\
  search_by_customer [inv_paid; inv_pending] (upper "john") true =
    search_by_customer [inv_paid; inv_pending] "john" true /\
  search_by_customer [inv_paid; inv_pending] "john" true = [inv_paid].
Proof.
  assert (H : ascii_str "john" = true) by reflexivity.
  split; [exact H|]. split; [|reflexivity].
  exact (proj1 (proj2 (search_query_case_insensitive [inv_paid; inv_pending] "john" true H))).
Defined.

End SearchAgentOpsFacts.

Module InvoiceNumberingFacts.
Import InvoiceAgentDB.
Local Open Scope list_scope.





















End InvoiceNumberingFacts.

Module GSTCalculatorOpsFacts.
Import SpecFloat PyNum PyNumFacts GSTCalculator GSTSpec GSTCalculatorOps GSTCalculatorFacts.





End GSTCalculatorOpsFacts.

Module ValidatorFacts.
Import Validator.
Local Open Scope list_scope.

Lemma class_run_le (cls : Z -> bool) (s : pystr) : (class_run cls s <= length s)%nat.
Proof. induction s as [|c s IH]; simpl; [lia|]. destruct (cls c); simpl; lia. Qed.

Lemma firstn_class (cls : Z -> bool) (s : pystr) (k : nat) :
  (k <= class_run cls s)%nat -> Forall (fun c => cls c = true) (firstn k s).
Proof.
  revert k. induction s as [|c s IH]; intros k Hk; [destruct k; constructor|].
  destruct k as [|k]; [constructor|]. simpl in Hk |- *.
  destruct (cls c) eqn:E; [|lia]. constructor; [exact E|apply IH; lia].
Qed.

Lemma class_run_app (cls : Z -> bool) (pre suf : pystr) :
  Forall (fun c => cls c = true) pre -> (length pre <= class_run cls (pre ++ suf))%nat.
Proof.
  induction 1 as [|c pre Hc _ IH]; simpl; [lia|]. rewrite Hc. lia.
Qed.

(** One repeated class of a pattern. *)
Lemma rmatch_class (cls : Z -> bool) (mn : nat) (mx : option nat) (rest : list atom)
    (s : pystr) :
  rmatch (AClass cls mn mx :: rest) s = true <->
  exists pre suf, s = pre ++ suf /\ Forall (fun c => cls c = true) pre /\
    (mn <= length pre)%nat /\
    match mx with Some m => (length pre <= m)%nat | None => True end /\
    rmatch rest suf = true.
Proof.
  cbn [rmatch]. rewrite existsb_exists. split.
  - intros [k [Hk Hr]]. apply in_seq in Hk.
    assert (Hrun : (k <= class_run cls s)%nat) by (destruct mx; lia).
    pose proof (class_run_le cls s) as Hle.
    exists (firstn k s), (skipn k s). split; [symmetry; apply firstn_skipn|].
    rewrite firstn_length_le by lia.
    split; [apply firstn_class, Hrun|]. split; [lia|]. split; [destruct mx; lia|exact Hr].
  - intros (pre & suf & -> & Hf & Hmn & Hmx & Hr). exists (length pre). split.
    + apply in_seq. pose proof (class_run_app cls pre suf Hf). destruct mx; lia.
    + now rewrite drop_app_length.
Qed.

Lemma rmatch_end (s : pystr) :
  rmatch [AEnd] s = true <-> s = [] \/ s = [10%Z].
Proof.
  destruct s as [|c [|c' s]]; cbn [rmatch].
  - split; [left; reflexivity|reflexivity].
  - rewrite andb_true_r. split.
    + intros H. apply Z.eqb_eq in H. subst c. now right.
    + intros [H|H]; [discriminate|]. injection H as ->. reflexivity.
  - split; [discriminate|]. intros [H|H]; discriminate.
Qed.

(** Classes repeated an exact number of times, as a list of per-position classes. *)
Fixpoint exact_positions (atoms : list atom) : option (list (Z -> bool)) :=
  match atoms with
  | [] => Some []
  | AClass cls n (Some m) :: rest =>
      if Nat.eqb n m then option_map (fun l => repeat cls n ++ l) (exact_positions rest) else None
  | _ => None
  end.

Lemma Forall2_repeat (cls : Z -> bool) (n : nat) (pre : pystr) :
  Forall2 (fun cl c => cl c = true) (repeat cls n) pre <->
  length pre = n /\ Forall (fun c => cls c = true) pre.
Proof.
  revert pre. induction n as [|n IH]; intros pre; simpl.
  - split; [intros H; inversion H; split; [reflexivity|constructor]|].
    intros [Hl _]. destruct pre; [constructor|discriminate].
  - split.
    + intros H. inversion H as [|? c ? pre' Hc Hr]; subst.
      apply IH in Hr as [Hl Hf]. split; [simpl; congruence|now constructor].
    + intros [Hl Hf]. destruct pre as [|c pre]; [discriminate|].
      inversion Hf; subst. constructor; [assumption|]. apply IH. split; [simpl in Hl; lia|assumption].
Qed.

Lemma Forall2_app_inv_l' {A B} (P : A -> B -> Prop) (l1 l2 : list A) (m : list B) :
  Forall2 P (l1 ++ l2) m <-> exists m1 m2, m = m1 ++ m2 /\ Forall2 P l1 m1 /\ Forall2 P l2 m2.
Proof.
  split.
  - intros H. apply Forall2_app_inv_l in H as (m1 & m2 & H1 & H2 & ->). eauto.
  - intros (m1 & m2 & -> & H1 & H2). now apply Forall2_app.
Qed.

(** A pattern of exactly repeated classes matches a prefix of the string
    carrying the classes position by position. *)
Lemma rmatch_exact (atoms rest : list atom) (ps : list (Z -> bool)) (s : pystr) :
  exact_positions atoms = Some ps ->
  rmatch (atoms ++ rest) s = true <->
  exists pre suf, s = pre ++ suf /\ Forall2 (fun cl c => cl c = true) ps pre /\
                  rmatch rest suf = true.
Proof.
  revert ps s. induction atoms as [|a atoms IH]; intros ps s Hx.
  - injection Hx as <-. simpl. split.
    + intros H. exists [], s. split; [reflexivity|]. split; [constructor|exact H].
    + intros (pre & suf & -> & Hp & Hr). inversion Hp; subst. exact Hr.
  - destruct a as [cls n [m|]|]; try discriminate. simpl in Hx.
    destruct (Nat.eqb n m) eqn:Enm; [|discriminate]. apply Nat.eqb_eq in Enm. subst m.
    destruct (exact_positions atoms) as [ps'|] eqn:E'; [|discriminate].
    injection Hx as <-. cbn [app]. rewrite rmatch_class. split.
    + intros (pre1 & suf1 & -> & Hf & Hmn & Hmx & Hr).
      apply (IH ps' suf1 eq_refl) in Hr as (pre2 & suf2 & -> & Hp & Hr).
      exists (pre1 ++ pre2), suf2. split; [now rewrite app_assoc|]. split; [|exact Hr].
      apply Forall2_app; [apply Forall2_repeat; split; [lia|exact Hf]|exact Hp].
    + intros (pre & suf & -> & Hp & Hr).
      apply Forall2_app_inv_l' in Hp as (m1 & m2 & -> & H1 & H2).
      apply Forall2_repeat in H1 as [Hl Hf].
      exists m1, (m2 ++ suf). split; [now rewrite app_assoc|]. split; [exact Hf|].
      split; [lia|]. split; [lia|]. apply (IH ps' _ eq_refl). eauto.
Qed.

(** [validate_phone] accepts exactly the numbers that, once the spaces and
    dashes are removed, are a digit from 6 to 9 followed by nine decimal
    digits in the sense of [\d] (any Unicode digit of category Nd, not only
    [0-9]), optionally followed by one final newline (which [$] lets
    through). *)
Theorem validate_phone_spec (phone : pystr) :
  fst (validate_phone phone) = true <->
  exists d ds tl, phone_clean phone = d :: ds ++ tl /\ in_range 54 57 d = true /\
    length ds = 9%nat /\ Forall (fun c => py_isdecimal c = true) ds /\
    (tl = [] \/ tl = [10%Z]).
Proof.
  assert (Hm : rmatch PHONE_PATTERN (phone_clean phone) = true <->
    exists d ds tl, phone_clean phone = d :: ds ++ tl /\ in_range 54 57 d = true /\
      length ds = 9%nat /\ Forall (fun c => py_isdecimal c = true) ds /\
      (tl = [] \/ tl = [10%Z])).
  { change PHONE_PATTERN with
      ([AClass (in_range 54 57) 1 (Some 1); AClass py_isdecimal 9 (Some 9)] ++ [AEnd]).
    rewrite (rmatch_exact _ _ (in_range 54 57 :: repeat py_isdecimal 9)) by reflexivity.
    split.
    - intros (pre & suf & E & Hp & Hr). apply rmatch_end in Hr.
      inversion Hp as [|? d ? ds Hd Hds]; subst.
      apply (proj1 (Forall2_repeat py_isdecimal 9 ds)) in Hds as [Hl Hf].
      exists d, ds, suf. auto.
    - intros (d & ds & tl & E & Hd & Hl & Hf & Ht). exists (d :: ds), tl.
      split; [exact E|]. split; [|apply rmatch_end, Ht].
      constructor; [exact Hd|]. apply Forall2_repeat. auto. }
  unfold validate_phone. rewrite <- Hm.
  destruct (rmatch PHONE_PATTERN (phone_clean phone)); simpl; split; congruence.
Qed.

(** "9" followed by nine ARABIC-INDIC DIGIT ZERO (U+0660). *)
Lemma validate_phone_spec_witness :
  fst (validate_phone (57%Z :: repeat 1632%Z 9)) = true /\
  exists d ds tl, phone_clean (57%Z :: repeat 1632%Z 9) = d :: ds ++ tl /\
    in_range 54 57 d = true /\
    length ds = 9%nat /\ Forall (fun c => py_isdecimal c = true) ds /\
    (tl = [] \/ tl = [10%Z]).
Proof.
  assert (H : fst (validate_phone (57%Z :: repeat 1632%Z 9)) = true) by reflexivity.
  split; [exact H|]. exact (proj1 (validate_phone_spec (57%Z :: repeat 1632%Z 9)) H).
Defined.

(** [validate_gst_number] accepts the empty string (the number is
    optional) and otherwise exactly the strings made of 15 characters of
    the classes of [GST_PATTERN], position by position, optionally followed
    by one final newline. *)
Theorem validate_gst_number_spec (gst_number : pystr) :
  fst (validate_gst_number gst_number) = true <->
  gst_number = [] \/
  exists pre tl, gst_number = pre ++ tl /\
    Forall2 (fun cl c => cl c = true) GST_POSITIONS pre /\
    (tl = [] \/ tl = [10%Z]).
Proof.
  unfold validate_gst_number.
  destruct (is_empty gst_number) eqn:E.
  - destruct gst_number; [|discriminate]. simpl. split; [now left|reflexivity].
  - assert (E' : gst_number <> []) by (intros ->; discriminate).
    clear E. rename E' into E.
    assert (Hm : rmatch GST_PATTERN gst_number = true <->
      exists pre tl, gst_number = pre ++ tl /\
        Forall2 (fun cl c => cl c = true) GST_POSITIONS pre /\ (tl = [] \/ tl = [10%Z])).
    { change GST_PATTERN with
        ([AClass is_digit 2 (Some 2); AClass is_upper 5 (Some 5); AClass is_digit 4 (Some 4);
          AClass is_upper 1 (Some 1); AClass (fun c => in_range 49 57 c || is_upper c) 1 (Some 1);
          AClass (is_char 90) 1 (Some 1); AClass (fun c => is_digit c || is_upper c) 1 (Some 1)]
         ++ [AEnd]).
      rewrite (rmatch_exact _ _ GST_POSITIONS) by reflexivity.
      split; intros (pre & tl & E1 & E2 & E3); exists pre, tl; repeat split; try assumption;
        apply rmatch_end; assumption. }
    rewrite <- Hm.
    destruct (rmatch GST_PATTERN _); simpl; split.
    + intros _. now right.
    + intros [H|H]; [contradiction|exact H].
    + discriminate.
    + intros [H|H]; [contradiction|exact H].
Qed.

Lemma validate_gst_number_spec_witness :
  fst (validate_gst_number (cps "36AABCT1332L1ZZ")) = true /\
  (cps "36AABCT1332L1ZZ" = [] \/
   exists pre tl, cps "36AABCT1332L1ZZ" = pre ++ tl /\
     Forall2 (fun cl c => cl c = true) GST_POSITIONS pre /\ (tl = [] \/ tl = [10%Z])).
Proof.
  assert (H : fst (validate_gst_number (cps "36AABCT1332L1ZZ")) = true) by reflexivity.
  split; [exact H|]. exact (proj1 (validate_gst_number_spec (cps "36AABCT1332L1ZZ")) H).
Defined.

Lemma lstrip_go_split (l : pystr) :
  exists pre, l = pre ++ lstrip_go l /\ Forall (fun c => py_isspace c = true) pre.
Proof.
  induction l as [|c l IH]; simpl.
  - exists []. split; [reflexivity|constructor].
  - destruct (py_isspace c) eqn:E.
    + destruct IH as (pre & Hl & Hf). exists (c :: pre). simpl. split; [congruence|].
      now constructor.
    + exists []. split; [reflexivity|constructor].
Qed.

Lemma lstrip_go_nil (l : pystr) :
  lstrip_go l = [] -> Forall (fun c => py_isspace c = true) l.
Proof.
  intros H. destruct (lstrip_go_split l) as (pre & Hl & Hf). rewrite H, app_nil_r in Hl.
  now subst.
Qed.

(** A string holding a non-space character does not strip to the empty string. *)
Lemma py_strip_nonempty (s : pystr) (c : Z) :
  In c s -> py_isspace c = false -> py_strip s <> [].
Proof.
  intros Hin Hc Hs. unfold py_strip in Hs.
  destruct (lstrip_go (rev (lstrip_go s))) as [|c0 l] eqn:E;
    [|simpl in Hs; destruct (rev l); discriminate].
  apply lstrip_go_nil in E. apply Forall_rev in E. rewrite rev_involutive in E.
  destruct (lstrip_go_split s) as (pre & Hl & Hf).
  assert (Hall : Forall (fun c => py_isspace c = true) s).
  { rewrite Hl. now apply Forall_app. }
  rewrite List.Forall_forall in Hall. rewrite (Hall c Hin) in Hc. discriminate.
Qed.

Lemma exactly_one_char (x : Z) (pre : pystr) :
  Forall (fun c => is_char x c = true) pre /\ (1 <= length pre)%nat /\ (length pre <= 1)%nat <->
  pre = [x].
Proof.
  split.
  - intros (Hf & H1 & H2). destruct pre as [|c [|c' pre]]; simpl in H1, H2; try lia.
    inversion Hf as [|? ? Hc _]; subst. unfold is_char in Hc. apply Z.eqb_eq in Hc.
    now subst.
  - intros ->. split; [constructor; [apply Z.eqb_refl|constructor]|simpl; lia].
Qed.

(** [EMAIL_PATTERN] read as a shape: a non-empty local part, [@], a
    non-empty domain, a dot, at least two letters, and at most one final
    newline. *)
Lemma rmatch_email (l : pystr) :
  rmatch EMAIL_PATTERN l = true <->
  exists loc dom tld tl, l = loc ++ 64%Z :: dom ++ 46%Z :: tld ++ tl /\
    loc <> [] /\ Forall (fun c => email_local c = true) loc /\
    dom <> [] /\ Forall (fun c => email_domain c = true) dom /\
    (2 <= length tld)%nat /\ Forall (fun c => (is_lower c || is_upper c) = true) tld /\
    (tl = [] \/ tl = [10%Z]).
Proof.
  unfold EMAIL_PATTERN. rewrite rmatch_class. split.
  - intros (loc & r1 & -> & Hloc & Hl1 & _ & R1).
    rewrite rmatch_class in R1. destruct R1 as (at_ & r2 & -> & Ha & Ha1 & Ha2 & R2).
    assert (Eat : at_ = [64%Z]) by (apply exactly_one_char; auto). subst at_.
    rewrite rmatch_class in R2. destruct R2 as (dom & r3 & -> & Hdom & Hd1 & _ & R3).
    rewrite rmatch_class in R3. destruct R3 as (dot & r4 & -> & Hdt & Hdt1 & Hdt2 & R4).
    assert (Edot : dot = [46%Z]) by (apply exactly_one_char; auto). subst dot.
    rewrite rmatch_class in R4. destruct R4 as (tld & tl & -> & Htld & Ht1 & _ & R5).
    apply rmatch_end in R5.
    exists loc, dom, tld, tl. split; [reflexivity|].
    repeat split; try assumption; intros ->; simpl in *; lia.
  - intros (loc & dom & tld & tl & -> & Hl0 & Hloc & Hd0 & Hdom & Ht2 & Htld & Htl).
    exists loc, (64%Z :: dom ++ 46%Z :: tld ++ tl).
    split; [reflexivity|]. split; [exact Hloc|].
    split; [destruct loc; [contradiction|simpl; lia]|]. split; [exact I|].
    rewrite rmatch_class. exists [64%Z], (dom ++ 46%Z :: tld ++ tl).
    split; [reflexivity|]. split; [apply exactly_one_char; reflexivity|].
    split; [simpl; lia|]. split; [simpl; lia|].
    rewrite rmatch_class. exists dom, (46%Z :: tld ++ tl).
    split; [reflexivity|]. split; [exact Hdom|].
    split; [destruct dom; [contradiction|simpl; lia]|]. split; [exact I|].
    rewrite rmatch_class. exists [46%Z], (tld ++ tl).
    split; [reflexivity|]. split; [apply exactly_one_char; reflexivity|].
    split; [simpl; lia|]. split; [simpl; lia|].
    rewrite rmatch_class. exists tld, tl.
    split; [reflexivity|]. split; [exact Htld|]. split; [exact Ht2|]. split; [exact I|].
    apply rmatch_end, Htl.
Qed.

(** [validate_email] accepts exactly the strings of the shape
    [local@domain.tld]: a non-empty local part over [a-zA-Z0-9._%+-], a
    non-empty domain over [a-zA-Z0-9.-], a dot and at least two letters,
    optionally followed by one final newline. Its emptiness checks never
    reject such a string. *)
Theorem validate_email_spec (email : pystr) :
  fst (validate_email email) = true <->
  exists loc dom tld tl,
    email = loc ++ 64%Z :: dom ++ 46%Z :: tld ++ tl /\
    loc <> [] /\ Forall (fun c => email_local c = true) loc /\
    dom <> [] /\ Forall (fun c => email_domain c = true) dom /\
    (2 <= length tld)%nat /\ Forall (fun c => (is_lower c || is_upper c) = true) tld /\
    (tl = [] \/ tl = [10%Z]).
Proof.
  rewrite <- rmatch_email. unfold validate_email.
  destruct (is_empty email || is_empty (py_strip email)) eqn:E.
  - simpl. split; [discriminate|]. intros Hm. exfalso.
    apply rmatch_email in Hm as (loc & dom & tld & tl & Hl & _).
    assert (Hin : In 64%Z email)
      by (rewrite Hl; apply in_or_app; right; left; reflexivity).
    apply orb_true_iff in E as [E|E].
    + destruct email; [contradiction|discriminate].
    + destruct (py_strip email) eqn:Es; [|discriminate].
      exact (py_strip_nonempty email 64%Z Hin eq_refl Es).
  - destruct (rmatch EMAIL_PATTERN _); simpl; split; congruence.
Qed.

Lemma validate_email_spec_witness :
  fst (validate_email (cps "billing@shop.co.in")) = true /\
  exists loc dom tld tl,
    cps "billing@shop.co.in" = loc ++ 64%Z :: dom ++ 46%Z :: tld ++ tl /\
    loc <> [] /\ Forall (fun c => email_local c = true) loc /\
    dom <> [] /\ Forall (fun c => email_domain c = true) dom /\
    (2 <= length tld)%nat /\ Forall (fun c => (is_lower c || is_upper c) = true) tld /\
    (tl = [] \/ tl = [10%Z]).
Proof.
  assert (H : fst (validate_email (cps "billing@shop.co.in")) = true) by reflexivity.
  split; [exact H|]. exact (proj1 (validate_email_spec (cps "billing@shop.co.in")) H).
Defined.

(** A float quantity is truncated toward zero by [int()] before the
    checks: [validate_quantity] accepts a float exactly when it lies in
    [1 <= x < 100001], so [0.5] is rejected and
    [100000.9] is accepted. *)
Theorem validate_quantity_float (x : Q) :
  fst (validate_quantity (NFloat x)) = true <-> (1 <= x /\ x < 100001)%Q.
Proof.
  unfold validate_quantity, py_int_num, SecurityAgent.py_int_of.
  destruct x as [n d]. unfold Qle, Qlt. cbn [Qnum Qden].
  set (q := Z.quot n (Zpos d)).
  assert (Hq : (0 <= n -> (Zpos d) * q <= n < Zpos d * q + Zpos d)%Z /\
               (n < 0 -> q <= 0)%Z).
  { split; intros Hn.
    - subst q. rewrite Z.quot_div_nonneg by lia.
      pose proof (Z.mul_div_le n (Zpos d) ltac:(lia)).
      pose proof (Z.mod_pos_bound n (Zpos d) ltac:(lia)).
      pose proof (Z.div_mod n (Zpos d) ltac:(lia)). lia.
    - subst q. rewrite <- (Z.opp_involutive n), Z.quot_opp_l by lia.
      rewrite Z.quot_div_nonneg by lia.
      pose proof (Z.div_pos (- n) (Zpos d) ltac:(lia) ltac:(lia)). lia. }
  destruct (Z.leb q 0) eqn:E1; [|destruct (Z.ltb 100000 q) eqn:E2]; simpl.
  - apply Z.leb_le in E1. split; [discriminate|]. intros [H1 _].
    destruct (Z.le_gt_cases 0 n) as [Hn|Hn]; [|lia]. destruct Hq as [Hq _].
    specialize (Hq Hn). nia.
  - apply Z.leb_gt in E1. apply Z.ltb_lt in E2. split; [discriminate|]. intros [_ H2].
    destruct (Z.le_gt_cases 0 n) as [Hn|Hn]; [|destruct Hq as [_ Hq]; specialize (Hq Hn); lia].
    destruct Hq as [Hq _]. specialize (Hq Hn). nia.
  - apply Z.leb_gt in E1. apply Z.ltb_ge in E2. split; [intros _|reflexivity].
    destruct (Z.le_gt_cases 0 n) as [Hn|Hn]; [|destruct Hq as [_ Hq]; specialize (Hq Hn); lia].
    destruct Hq as [Hq _]. specialize (Hq Hn). split; nia.
Qed.

(** [validate_invoice_item] fills a missing [price] and [gst_rate] with
    [0], which both pass; so an item with a valid name, a whole quantity in
    [1..100000] and neither a price nor a GST rate is accepted, while the
    calculator's [validate] rejects the same item. *)
Theorem validate_invoice_item_missing_fields (n : string) (q : Z) :
  fst (validate_item_name (cps n)) = true -> (1 <= q <= 100000)%Z ->
  validate_invoice_item (mk_vitem (Some (cps n)) None (Some (NInt q)) None) = (true, "Valid"%string) /\
  fst (GSTCalculator.validate [GSTCalculator.mk_item (Some n) None (Some (PyNum.NInt q)) None])
    = false.
Proof.
  intros Hn Hq. split.
  - unfold validate_invoice_item. cbn [v_name v_price v_quantity v_gst_rate get_or].
    destruct (validate_item_name (cps n)) as [ok1 msg1]. simpl in Hn. subst ok1. cbn [negb].
    change (validate_price (NInt 0)) with (true, "Valid"%string). cbn [negb].
    unfold validate_quantity. cbn [py_int_num].
    replace (Z.leb q 0) with false by (symmetry; apply Z.leb_gt; lia).
    replace (Z.ltb 100000 q) with false by (symmetry; apply Z.ltb_ge; lia).
    cbn [negb]. reflexivity.
  - reflexivity.
Qed.

Lemma validate_invoice_item_missing_fields_witness :
  fst (validate_item_name (cps "Laptop stand")) = true /\ (1 <= 3 <= 100000)%Z /\
  validate_invoice_item (mk_vitem (Some (cps "Laptop stand")) None (Some (NInt 3)) None)
    = (true, "Valid"%string) /\
  fst (GSTCalculator.validate
         [GSTCalculator.mk_item (Some "Laptop stand") None (Some (PyNum.NInt 3)) None]) = false.
Proof.
  assert (H1 : fst (validate_item_name (cps "Laptop stand")) = true) by reflexivity.
  assert (H2 : (1 <= 3 <= 100000)%Z) by lia.
  split; [exact H1|]. split; [exact H2|].
  exact (validate_invoice_item_missing_fields "Laptop stand" 3 H1 H2).
Defined.

End ValidatorFacts.

Module PaymentFrameFacts.
Import SpecFloat PyNum PyNumFacts PaymentOperations PaymentOperationsFacts.
Local Open Scope list_scope.

(** [add_payment] with an amount that is not NaN only touches the invoice
    it pays: it appends exactly the new payment row, keeps the invoice ids
    in place, and leaves every other invoice's row and total paid as they
    were. *)
Theorem add_payment_frame (d : db) (date time : string) (inv_id : Z) (amt : float)
    (method txn note : string) :
  is_nan amt = false ->
  exists pay d',
    add_payment d date time inv_id amt method txn note = Ok (pay, d') /\
    payments d' = payments d ++ [pay] /\
    map id (invoices d') = map id (invoices d) /\
    (forall j, j <> inv_id ->
       List.filter (fun i => Z.eqb (id i) j) (invoices d') =
         List.filter (fun i => Z.eqb (id i) j) (invoices d) /\
       get_total_paid d' j = get_total_paid d j).
Proof.
  intros Hn.
  destruct (add_payment_eq d date time inv_id amt method txn note Hn) as (tot & _ & Heq).
  rewrite Heq. clear Heq. eexists _, _. split; [reflexivity|]. cbn [payments invoices].
  split; [reflexivity|].
  assert (Hinv : forall (f : invoice -> invoice),
            (forall i, id (f i) = id i) ->
            (forall i, Z.eqb (id i) inv_id = false -> f i = i) ->
            map id (map f (invoices d)) = map id (invoices d) /\
            forall j, j <> inv_id ->
              List.filter (fun i => Z.eqb (id i) j) (map f (invoices d)) =
              List.filter (fun i => Z.eqb (id i) j) (invoices d)).
  { intros f Hid Hf. split.
    - rewrite map_map. apply map_ext. exact Hid.
    - intros j Hj. induction (invoices d) as [|i l IH]; [reflexivity|].
      cbn [map List.filter]. rewrite Hid, IH.
      destruct (Z.eqb (id i) j) eqn:E; [|reflexivity].
      apply Z.eqb_eq in E. rewrite Hf; [reflexivity|]. apply Z.eqb_neq. congruence. }
  destruct (find_invoice d inv_id) as [inv|].
  - destruct (Hinv (fun i => if Z.eqb (id i) inv_id
                     then mk_invoice (id i) (grand_total i)
                            (status_for (grand_total inv) tot) (Some method) else i)) as [H1 H2].
    + intros i. destruct (Z.eqb (id i) inv_id); reflexivity.
    + intros i E. rewrite E. reflexivity.
    + split; [exact H1|]. intros j Hj. split; [exact (H2 j Hj)|].
      apply get_total_paid_snoc_other. cbn [invoice_id]. congruence.
  - split; [reflexivity|]. intros j Hj. split; [reflexivity|].
    apply get_total_paid_snoc_other. cbn [invoice_id]. congruence.
Qed.

Lemma add_payment_frame_witness :
  is_nan (float_of_Q 400) = false /\
  exists pay d',
    add_payment ledger0 "2026-01-05" "10:00:00" 1 (float_of_Q 400) "UPI" "" "" = Ok (pay, d') /\
    payments d' = payments ledger0 ++ [pay] /\
    map id (invoices d') = map id (invoices ledger0) /\
    (forall j, j <> 1%Z ->
       List.filter (fun i => Z.eqb (id i) j) (invoices d') =
         List.filter (fun i => Z.eqb (id i) j) (invoices ledger0) /\
       get_total_paid d' j = get_total_paid ledger0 j).
Proof.
  assert (Hn : is_nan (float_of_Q 400) = false) by reflexivity.
  split; [exact Hn|].
  exact (add_payment_frame ledger0 "2026-01-05" "10:00:00" 1 (float_of_Q 400) "UPI" "" "" Hn).
Defined.

End PaymentFrameFacts.

Module AuthAgentOpsFacts.
Import AuthAgent AuthAgentOps.
Local Open Scope Z_scope.
Local Open Scope list_scope.

Lemma ideal_toy_crypto : ideal toy_crypto.
Proof.
  constructor; cbn.
  - intros b H; exact H.
  - intros b1 b2 _ _ H; exact H.
  - intros pw _ H; exact H.
  - intros pw _; apply bool_decide_eq_true_2; reflexivity.
  - intros pw pw' _ H; exact (bool_decide_eq_true_1 _ H).
  - reflexivity.
Qed.

Lemma query_first_some (key : pystr) (field : user_row -> pystr) (db : list user_row)
    (u : user_row) :
  query_first key field db = Ok (Some u) -> field u = key.
Proof.
  unfold query_first. destruct (encode_utf8 key); cbn [bind]; [|discriminate].
  intros H. injection H as H. apply find_some in H as [_ H].
  exact (bool_decide_eq_true_1 _ H).
Qed.

Lemma query_first_none (key : pystr) (field : user_row -> pystr) (db : list user_row) :
  query_first key field db = Ok None -> ~ In key (map field db).
Proof.
  unfold query_first. destruct (encode_utf8 key); cbn [bind]; [|discriminate].
  intros H Hin. injection H as H. apply in_map_iff in Hin as (r & Hr & Hin).
  pose proof (find_none _ _ H r Hin) as Hf. rewrite bool_decide_eq_false in Hf. contradiction.
Qed.

Lemma NoDup_snoc {A} (l : list A) (x : A) : NoDup l -> ~ In x l -> NoDup (l ++ [x]).
Proof.
  intros Hl Hx. apply NoDup_app. split; [exact Hl|]. split; [|apply NoDup_singleton].
  intros y Hy Hy'. apply list_elem_of_singleton in Hy'. subst y.
  apply Hx, list_elem_of_In, Hy.
Qed.

(** The token of a successful login resolves, through [get_current_user],
    to the very user row that logged in for as long as it is valid, and to
    nothing once it has expired. *)
Theorem login_then_get_current_user (cr : crypto) (Hcr : ideal cr) (now : Z)
    (db : list user_row) (username password msg : pystr) (tok : token cr) (row : user_row) :
  login_user cr now db username password = Ok (LoginOk msg tok row) ->
  u_username row = username /\
  (forall t, t <= now + ACCESS_TOKEN_EXPIRE_SECONDS ->
     get_current_user cr t db tok =
       Ok (Some (u_id row, u_username row, u_email row, u_full_name row, u_role row))) /\
  (forall t, now + ACCESS_TOKEN_EXPIRE_SECONDS < t -> get_current_user cr t db tok = Ok None).
Proof.
  intros H. unfold login_user in H.
  destruct (query_first username u_username db) as [[user|]|e] eqn:Eq; cbn [bind] in H;
    [|discriminate|discriminate].
  destruct (negb (verify_password cr password (u_hashed_password user))); [discriminate|].
  destruct (negb (bool_decide (u_is_active user = lit "true"))); [discriminate|].
  injection H as _ Htok Hrow. subst row tok.
  pose proof (query_first_some _ _ _ _ Eq) as Hname.
  split; [exact Hname|].
  split; intros t Ht; unfold get_current_user, verify_token, jwt_decode, create_access_token;
    rewrite (jwt_roundtrip _ Hcr); cbn [exp sub role email].
  - rewrite (proj2 (Z.ltb_ge _ _) Ht). cbn [bind]. cbn [sub role bind]. rewrite Hname, Eq. cbn [bind]. rewrite Hname. reflexivity.
  - rewrite (proj2 (Z.ltb_lt _ _) Ht). reflexivity.
Qed.

Lemma login_then_get_current_user_witness :
  let row := mk_user 1 (lit "alice") (lit "alice@example.com")
               (hexdigest (lit "s3cret")) (lit "Alice") (lit "true") (lit "user") in
  login_user toy_crypto 0 [row] (lit "alice") (lit "s3cret") =
    Ok (LoginOk (lit "Welcome back, Alice!")
          (mk_claims (Some (lit "alice")) (Some (lit "user")) (Some (lit "alice@example.com"))
             ACCESS_TOKEN_EXPIRE_SECONDS : token toy_crypto) row) /\
  get_current_user toy_crypto 100 [row]
    (mk_claims (Some (lit "alice")) (Some (lit "user")) (Some (lit "alice@example.com"))
       ACCESS_TOKEN_EXPIRE_SECONDS : token toy_crypto) =
    Ok (Some (1%nat, lit "alice", lit "alice@example.com", lit "Alice", lit "user")).
Proof.
  intros row.
  assert (H : login_user toy_crypto 0 [row] (lit "alice") (lit "s3cret") =
    Ok (LoginOk (lit "Welcome back, Alice!")
          (mk_claims (Some (lit "alice")) (Some (lit "user")) (Some (lit "alice@example.com"))
             ACCESS_TOKEN_EXPIRE_SECONDS : token toy_crypto) row)) by (vm_compute; reflexivity).
  split; [exact H|].
  destruct (login_then_get_current_user toy_crypto ideal_toy_crypto 0 [row] _ _ _ _ _ H)
    as (_ & Hok & _).
  apply Hok. unfold ACCESS_TOKEN_EXPIRE_SECONDS. lia.
Defined.

(** [register_user] keeps usernames and emails unique: on a table whose
    usernames and emails are distinct it either leaves the table as it was
    (any failure) or appends exactly the user it reports. *)
Theorem register_user_keeps_unique (cr : crypto) (salt : list Z) (db db' : list user_row)
    (username email password full_name role : pystr) (resp : reg_response) :
  NoDup (map u_username db) -> NoDup (map u_email db) ->
  register_user cr salt db username email password full_name role = Ok (resp, db') ->
  NoDup (map u_username db') /\ NoDup (map u_email db') /\
  match resp with
  | RegOk _ row => db' = db ++ [row] /\ u_username row = username /\ u_email row = email
  | RegFail _ => db' = db
  end.
Proof.
  intros Hu He H. unfold register_user in H.
  destruct (query_first username u_username db) as [[x|]|er] eqn:E1; cbn [bind] in H;
    [injection H as <- <-; auto|
    |injection H as <- <-; auto].
  destruct (query_first email u_email db) as [[x|]|er] eqn:E2; cbn [bind] in H;
    [injection H as <- <-; auto|
    |injection H as <- <-; auto].
  destruct (hash_password cr salt password) as [hp|er]; cbn [bind] in H;
    [|injection H as <- <-; auto].
  destruct (encode_utf8 full_name) as [b1|er]; cbn [bind] in H;
    [|injection H as <- <-; auto].
  destruct (encode_utf8 role) as [b2|er]; cbn [bind] in H;
    [|injection H as <- <-; auto].
  injection H as <- <-. rewrite !map_app. cbn [map u_username u_email].
  split; [apply NoDup_snoc; [exact Hu|exact (query_first_none _ _ _ E1)]|].
  split; [apply NoDup_snoc; [exact He|exact (query_first_none _ _ _ E2)]|].
  auto.
Qed.

Lemma register_user_keeps_unique_witness :
  let db := [mk_user 1 (lit "alice") (lit "alice@example.com") [] [] (lit "true") (lit "user")] in
  NoDup (map u_username db) /\ NoDup (map u_email db) /\
  exists resp db',
    register_user toy_crypto [] db (lit "bob") (lit "alice@example.com") (lit "pw") [] (lit "user")
      = Ok (resp, db') /\
    NoDup (map u_username db') /\ NoDup (map u_email db') /\ db' = db.
Proof.
  intros db.
  assert (Hu : NoDup (map u_username db)) by (apply NoDup_singleton).
  assert (He : NoDup (map u_email db)) by (apply NoDup_singleton).
  split; [exact Hu|]. split; [exact He|].
  assert (H : register_user toy_crypto [] db (lit "bob") (lit "alice@example.com") (lit "pw") []
                (lit "user") = Ok (RegFail (lit "Email 'alice@example.com' already registered"), db))
    by (vm_compute; reflexivity).
  exists (RegFail (lit "Email 'alice@example.com' already registered")), db.
  split; [exact H|].
  exact (register_user_keeps_unique toy_crypto [] db db _ _ _ _ _ _ Hu He H).
Defined.

End AuthAgentOpsFacts.

Module CustomerOpsFacts.
Import CustomerOps.
Local Open Scope list_scope.

Lemma NoDup_map_in_inj {A B} (f : A -> B) (l : list A) (x y : A) :
  NoDup (map f l) -> In x l -> In y l -> f x = f y -> x = y.
Proof.
  induction l as [|a l IH]; intros Hnd Hx Hy Hf; [destruct Hx|].
  cbn [map] in Hnd. apply NoDup_cons in Hnd as [Ha Hnd].
  destruct Hx as [<-|Hx], Hy as [<-|Hy]; [reflexivity| | |auto].
  - exfalso. apply Ha, list_elem_of_In. rewrite Hf. now apply in_map.
  - exfalso. apply Ha, list_elem_of_In. rewrite <- Hf. now apply in_map.
Qed.

Lemma find_unique_key {A} (key : A -> string) (l : list A) (x : A) :
  NoDup (map key l) -> In x l ->
  List.find (fun r => String.eqb (key r) (key x)) l = Some x.
Proof.
  intros Hnd Hx.
  destruct (List.find (fun r => String.eqb (key r) (key x)) l) as [y|] eqn:E.
  - apply find_some in E as [Hy Hk]. apply String.eqb_eq in Hk.
    f_equal. exact (NoDup_map_in_inj key l y x Hnd Hy Hx Hk).
  - exfalso. pose proof (find_none _ _ E x Hx) as H. cbn beta in H.
    rewrite String.eqb_refl in H. discriminate.
Qed.

Lemma next_customer_id_fresh (db : list customer_row) :
  forall r, In r db -> (c_id r < next_customer_id db)%nat.
Proof.
  unfold next_customer_id.
  assert (Hgen : forall l m, (m <= fold_left (fun m r => Nat.max m (c_id r)) l m)%nat /\
                 forall r, In r l -> (c_id r <= fold_left (fun m r => Nat.max m (c_id r)) l m)%nat).
  { induction l as [|a l IH]; intros m; cbn [fold_left]; split.
    - lia.
    - intros r [].
    - destruct (IH (Nat.max m (c_id a))) as [H1 _]. lia.
    - intros r [<-|Hr].
      + destruct (IH (Nat.max m (c_id a))) as [H1 _]. lia.
      + destruct (IH (Nat.max m (c_id a))) as [_ H2]. exact (H2 r Hr). }
  intros r Hr. destruct (Hgen db 0%nat) as [_ H]. specialize (H r Hr). lia.
Qed.

Lemma NoDup_snoc' {A} (l : list A) (x : A) : NoDup l -> ~ In x l -> NoDup (l ++ [x]).
Proof.
  intros Hl Hx. apply NoDup_app. split; [exact Hl|]. split; [|apply NoDup_singleton].
  intros y Hy Hy'. apply list_elem_of_singleton in Hy'. subst y.
  apply Hx, list_elem_of_In, Hy.
Qed.

(** [create_or_get_customer] is an upsert keyed by phone.  On a table with
    distinct ids and distinct phones, a successful call keeps both
    distinct; the returned row carries the given phone and name and is what
    a lookup by that phone finds afterwards; every customer with another
    phone is kept; and the table grows by one row exactly when the phone
    was not there before. *)
Theorem create_or_get_customer_upsert (now : Q) (db db' : list customer_row)
    (customer_data : gmap string string) (c : customer_row) :
  NoDup (map c_id db) -> NoDup (map c_phone db) ->
  create_or_get_customer now db customer_data = Ok (c, db') ->
  NoDup (map c_id db') /\ NoDup (map c_phone db') /\
  customer_data !! "phone" = Some (c_phone c) /\ customer_data !! "name" = Some (c_name c) /\
  List.find (fun r => String.eqb (c_phone r) (c_phone c)) db' = Some c /\
  (forall r, In r db -> c_phone r <> c_phone c -> In r db') /\
  length db' = (length db + if existsb (fun r => String.eqb (c_phone r) (c_phone c)) db
                            then 0 else 1)%nat.
Proof.
  intros Hid Hph H. unfold create_or_get_customer in H.
  destruct (customer_data !! "phone") as [phone|] eqn:Ep; cbn [InvoiceAgentDB.getk bind] in H;
    [|discriminate].
  destruct (List.find (fun r => String.eqb (c_phone r) phone) db) as [ex|] eqn:Ef.
  - destruct (customer_data !! "name") as [name|] eqn:En; cbn [InvoiceAgentDB.getk bind] in H;
      [|discriminate].
    injection H as <- <-. cbn [c_phone c_name c_id].
    apply find_some in Ef as [Hex Hexp]. apply String.eqb_eq in Hexp.
    set (upd := mk_customer_row (c_id ex) name (c_phone ex) _ _ _ _ (c_created_at ex) now).
    set (f := fun r => if Nat.eqb (c_id r) (c_id ex) then upd else r).
    assert (Hf : forall r, In r db -> f r = if Nat.eqb (c_id r) (c_id ex) then upd else r)
      by reflexivity.
    assert (Hfid : forall r, c_id (f r) = c_id r).
    { intros r. unfold f. destruct (Nat.eqb (c_id r) (c_id ex)) eqn:E; [|reflexivity].
      apply Nat.eqb_eq in E. simpl. congruence. }
    assert (Hfph : forall r, In r db -> c_phone (f r) = c_phone r).
    { intros r Hr. unfold f. destruct (Nat.eqb (c_id r) (c_id ex)) eqn:E; [|reflexivity].
      apply Nat.eqb_eq in E. rewrite (NoDup_map_in_inj c_id db r ex Hid Hr Hex E). reflexivity. }
    assert (Hids : map c_id (map f db) = map c_id db)
      by (rewrite map_map; apply map_ext; exact Hfid).
    assert (Hphs : map c_phone (map f db) = map c_phone db)
      by (rewrite map_map; apply map_ext_in; exact Hfph).
    assert (Hupd_in : In upd (map f db)).
    { replace upd with (f ex) by (unfold f; now rewrite Nat.eqb_refl). now apply in_map. }
    split; [now rewrite Hids|]. split; [now rewrite Hphs|].
    split; [rewrite Hexp; reflexivity|]. split; [reflexivity|].
    split.
    + change (c_phone ex) with (c_phone upd).
      apply find_unique_key; [now rewrite Hphs|exact Hupd_in].
    + split.
      * intros r Hr Hne. replace r with (f r); [now apply in_map|].
        unfold f. destruct (Nat.eqb (c_id r) (c_id ex)) eqn:E; [|reflexivity].
        apply Nat.eqb_eq in E. exfalso. apply Hne.
        rewrite (NoDup_map_in_inj c_id db r ex Hid Hr Hex E). reflexivity.
      * rewrite length_map.
        replace (existsb (fun r => String.eqb (c_phone r) (c_phone ex)) db) with true.
        -- lia.
        -- symmetry. apply existsb_exists. exists ex. split; [exact Hex|apply String.eqb_refl].
  - destruct (customer_data !! "name") as [name|] eqn:En; cbn [InvoiceAgentDB.getk bind] in H;
      [|discriminate].
    injection H as <- <-. cbn [c_phone c_name c_id].
    set (cu := mk_customer_row (next_customer_id db) name phone _ _ _ _ now now).
    assert (Hnot : ~ In phone (map c_phone db)).
    { intros Hin. apply in_map_iff in Hin as (r & Hr & Hin).
      pose proof (find_none _ _ Ef r Hin) as Hc. cbn beta in Hc.
      rewrite Hr, String.eqb_refl in Hc. discriminate. }
    rewrite !map_app. cbn [map].
    split.
    { apply NoDup_snoc'; [exact Hid|]. intros Hin. apply in_map_iff in Hin as (r & Hr & Hin).
      pose proof (next_customer_id_fresh db r Hin). cbn [c_id cu] in Hr. lia. }
    split; [apply NoDup_snoc'; [exact Hph|exact Hnot]|].
    split; [reflexivity|]. split; [reflexivity|].
    split.
    + change phone with (c_phone cu). apply find_unique_key.
      * rewrite map_app. apply NoDup_snoc'; [exact Hph|exact Hnot].
      * apply in_or_app. right. left. reflexivity.
    + split.
      * intros r Hr _. apply in_or_app. now left.
      * rewrite length_app. cbn [length].
        replace (existsb (fun r => String.eqb (c_phone r) phone) db) with false; [lia|].
        symmetry. apply not_true_iff_false. intros Hex.
        apply existsb_exists in Hex as (r & Hr & Hc). apply String.eqb_eq in Hc.
        apply Hnot. rewrite <- Hc. now apply in_map.
Qed.

Lemma create_or_get_customer_upsert_witness :
  let db := [mk_customer_row 1 "Ravi" "9876543210" "" "" "" "Telangana" 0 0;
             mk_customer_row 2 "Sita" "9123456780" "" "" "" "Goa" 0 0] in
  let data : gmap string string := <["phone" := "9123456780"]> (<["name" := "Sita K"]> ∅) in
  NoDup (map c_id db) /\ NoDup (map c_phone db) /\
  exists c db',
    create_or_get_customer 5 db data = Ok (c, db') /\
    c_state c = "Goa" /\
    List.find (fun r => String.eqb (c_phone r) (c_phone c)) db' = Some c /\
    length db' = 2%nat.
Proof.
  intros db data.
  assert (H1 : NoDup (map c_id db))
    by (cbn; apply NoDup_cons; split; [|apply NoDup_singleton];
        intros Hin; apply list_elem_of_singleton in Hin; discriminate).
  assert (H2 : NoDup (map c_phone db))
    by (cbn; apply NoDup_cons; split; [|apply NoDup_singleton];
        intros Hin; apply list_elem_of_singleton in Hin; discriminate).
  split; [exact H1|]. split; [exact H2|].
  destruct (create_or_get_customer 5 db data) as [[c db']|e] eqn:E;
    [|vm_compute in E; discriminate].
  exists c, db'.
  destruct (create_or_get_customer_upsert 5 db db' data c H1 H2 E)
    as (_ & _ & _ & _ & Hfind & _ & Hlen).
  split; [reflexivity|].
  split; [vm_compute in E; injection E as <- _; reflexivity|].
  split; [exact Hfind|].
  rewrite Hlen. vm_compute in E. injection E as <- _. reflexivity.
Defined.

End CustomerOpsFacts.
